(** * RGAAudit: criterion mapper and audit worker pool

    A shallow embedding of four modules of the RGAAudit repository:

    - [core/mapping/mapper.ts] ([mapPageResults], [mapCriterion],
      [mapAnyViolation], [mapAllPass], [extractElements],
      [aggregateResults], [detectDuplicateLabels]);
    - [core/analyzer/analyzer.ts] ([auditPages] with its nested [worker],
      [pushEvent] and the generator's yield loop);
    - [core/analyzer/data-collector.ts] (what [collectImages],
      [collectLinks], [collectHeadings] and [collectAll] compute from the
      data read off the document);
    - [server/routes/report.routes.ts] (the pages and the evidence the
      [GET] handlers draw from a session).

    JavaScript arrays are lists, a [Map<string, V>] is an
    insertion-ordered association list, a plain object used as a
    dictionary is the list of its own properties in enumeration order
    (array indices first, no property for [__proto__]), numbers are [NaN],
    the infinities and the rationals, in-place mutation is explicit state
    passing, and the cooperative scheduling of the [async] workers is a
    labelled step relation whose steps are the synchronous blocks between
    two [await]s. *)

From Stdlib Require Import String List ZArith Lia Bool Arith Permutation
  Sorted.
From Stdlib Require QArith.
Import ListNotations.
Open Scope string_scope.
Open Scope list_scope.

Set Implicit Arguments.

(* ------------------------------------------------------------------ *)
(** ** JavaScript built-ins used by the sources *)
(* ------------------------------------------------------------------ *)

Module JS.

  (** A string in a boolean position: only the empty string is falsy. *)
Definition truthy (s : string) : bool := negb (s =? "").

  (** [value ?? dflt]. *)
Definition nullish {A} (v : option A) (dflt : A) : A :=
    match v with Some a => a | None => dflt end.

  (** [arr.includes(x)] and [set.has(x)] on strings. *)
Definition includes (arr : list string) (x : string) : bool :=
    existsb (String.eqb x) arr.

  (** [arr.find(p)]. *)
Definition find {A} (p : A -> bool) (arr : list A) : option A :=
    List.find p arr.

  (** [set.add(x)] on a [Set<string>]: insertion order, no duplicates. *)
Definition set_add (x : string) (s : list string) : list string :=
    if includes s x then s else s ++ [x].

  (** [Map<string, V>]: entries in insertion order; writing an existing
      key keeps its position. The same lists hold the own enumerable
      properties of a plain object, in the order [Object.values] and
      [JSON.stringify] visit them (see [assign] below). *)
Definition omap (V : Type) : Type := list (string * V).

Fixpoint get {V} (m : omap V) (k : string) : option V :=
    match m with
    | [] => None
    | (k', v) :: m' => if k' =? k then Some v else get m' k
    end.

Definition has {V} (m : omap V) (k : string) : bool :=
    match get m k with Some _ => true | None => false end.

Fixpoint set {V} (m : omap V) (k : string) (v : V) : omap V :=
    match m with
    | [] => [(k, v)]
    | (k', v') :: m' =>
        if k' =? k then (k', v) :: m' else (k', v') :: set m' k v
    end.

Definition keys {V} (m : omap V) : list string := map fst m.
Definition values {V} (m : omap V) : list V := map snd m.

Arguments keys {V} m : simpl never.
Arguments values {V} m : simpl never.

  (** *** Plain objects used as dictionaries

      The own properties of an object created by [{}] are visited array
      indices first, in ascending order, then the other string keys in
      the order they were created. An array index is the canonical
      decimal form of an integer from 0 to 2^32 - 2. *)
Definition digit (c : Ascii.ascii) : option N :=
    let n := Ascii.N_of_ascii c in
    if ((48 <=? n) && (n <=? 57))%N then Some (n - 48)%N else None.

Fixpoint digits (acc : N) (s : string) : option N :=
    match s with
    | EmptyString => Some acc
    | String c s' =>
        match digit c with
        | Some d => digits (10 * acc + d)%N s'
        | None => None
        end
    end.

Definition arrayIndex (k : string) : option N :=
    match k with
    | EmptyString => None
    | String c rest =>
        if (Ascii.N_of_ascii c =? 48)%N && negb (rest =? "") then None
        else
          match digits 0%N k with
          | Some n => if (n <=? 4294967294)%N then Some n else None
          | None => None
          end
    end.

  (** A new array index [n] takes its place among the indices. *)
Fixpoint insertIndex {V} (n : N) (k : string) (v : V) (o : omap V)
    : omap V :=
    match o with
    | [] => [(k, v)]
    | (k', v') :: o' =>
        match arrayIndex k' with
        | Some n' =>
            if (n' <? n)%N then (k', v') :: insertIndex n k v o'
            else (k, v) :: o
        | None => (k, v) :: o
        end
    end.

  (** [obj[k] = v] on such an object, for [v] an object. The key
      [__proto__] is the accessor inherited from [Object.prototype]: the
      assignment replaces the prototype and creates no own property. A
      property that exists keeps its place; a new one is created at its
      place in the order. *)
Definition assign {V} (o : omap V) (k : string) (v : V) : omap V :=
    if k =? "__proto__" then o
    else
      match arrayIndex k with
      | Some n => if has o k then set o k v else insertIndex n k v o
      | None => set o k v
      end.

  (** *** Numbers

      A number is [NaN], an infinity or a finite value. Every finite
      value of the host is a rational, and comparing two of them or
      taking their minimum is exact. *)
Inductive number : Type :=
  | NaN
  | NegInfinity
  | Infinity
  | Finite (q : QArith_base.Q).

Definition ofZ (z : Z) : number := Finite (QArith_base.inject_Z z).

  (** [a < b]. *)
Definition num_ltb (a b : number) : bool :=
    match a, b with
    | NaN, _ | _, NaN => false
    | _, NegInfinity => false
    | NegInfinity, _ => true
    | Infinity, _ => false
    | Finite _, Infinity => true
    | Finite x, Finite y => negb (QArith_base.Qle_bool y x)
    end.

  (** [a <= b]. *)
Definition num_leb (a b : number) : bool :=
    match a, b with
    | NaN, _ | _, NaN => false
    | NegInfinity, _ => true
    | _, NegInfinity => false
    | _, Infinity => true
    | Infinity, _ => false
    | Finite x, Finite y => QArith_base.Qle_bool x y
    end.

  (** [a === b]. *)
Definition num_eqb (a b : number) : bool :=
    match a, b with
    | NegInfinity, NegInfinity | Infinity, Infinity => true
    | Finite x, Finite y => QArith_base.Qeq_bool x y
    | _, _ => false
    end.

  (** [Math.min(a, b)]. *)
Definition math_min (a b : number) : number :=
    match a, b with
    | NaN, _ | _, NaN => NaN
    | _, _ => if num_ltb b a then b else a
    end.

  (** A callee can fail with an exception. *)
Inductive completion (A : Type) : Type :=
  | Returns (a : A)
  | Throws (what : string).
Arguments Throws {A} what.

Definition bind {A B} (c : completion A) (k : A -> completion B)
    : completion B :=
    match c with Returns a => k a | Throws w => Throws w end.

  (** [for (const x of xs) { ys.push(f(x)) }] with a callee that may throw. *)
Fixpoint mapM {A B} (f : A -> completion B) (xs : list A)
    : completion (list B) :=
    match xs with
    | [] => Returns []
    | x :: xs' =>
        bind (f x) (fun y => bind (mapM f xs') (fun ys => Returns (y :: ys)))
    end.

  (** [arr.sort(cmp)] is stable: insertion into a sorted prefix, after the
      elements that compare equal. [before a b] is [cmp(a, b) <= 0]. *)
Fixpoint sort_insert {A} (before : A -> A -> bool) (x : A) (l : list A)
    : list A :=
    match l with
    | [] => [x]
    | y :: l' => if before y x then y :: sort_insert before x l' else x :: l
    end.

Definition sort {A} (before : A -> A -> bool) (l : list A) : list A :=
    fold_left (fun acc x => sort_insert before x acc) l [].

End JS.

(* ------------------------------------------------------------------ *)
(** ** The criterion mapper ([mapper.ts]) *)
(* ------------------------------------------------------------------ *)

Module Mapper.

Import JS.

  (** *** Data shapes *)

  (** [CriterionStatus]. *)
Inductive CriterionStatus : Type :=
  | violation | pass | manual | incomplete.

Definition status_eqb (a b : CriterionStatus) : bool :=
    match a, b with
    | violation, violation | pass, pass
    | manual, manual | incomplete, incomplete => true
    | _, _ => false
    end.

  (** [RgaaCriterion]: the fields the mapper reads ([wcag],
      [heuristicPatterns] and [altMaxLength] are read by the collector
      only). The strategy is a free string in the catalog file. *)
Record RgaaCriterion : Type := {
    rgaa_id : string;
    rgaa_title : string;
    rgaa_theme : string;
    axeRules : list string;
    evaluationStrategy : string;
    dataCollectorFlags : list string;
    limits : string
  }.

  (** [RgaaMapping]: the catalog [loadMapping] returns once it has checked
      that the file parses, has a version and a non-empty criteria array. *)
Record RgaaMapping : Type := {
    version : string;
    mapping_criteria : list RgaaCriterion
  }.

  (** Rule-engine findings ([engine.interface.ts]). *)
Record AxeViolation : Type := {
    v_rule : string;
    v_impact : string;
    v_description : string;
    v_helpUrl : string
  }.

Record AxePass : Type := {
    p_rule : string;
    p_description : string
  }.

Record AxeIncomplete : Type := {
    i_rule : string;
    i_impact : string;
    i_description : string
  }.

  (** [AnalyzeResult = EngineResult | EngineError]. *)
Inductive AnalyzeResult : Type :=
  | EngineResult (violations : list AxeViolation) (passes : list AxePass)
                 (incompletes : list AxeIncomplete)
  | EngineError (error : string).

  (** Collected evidence ([data-collector.ts]), as far as the mapper reads
      it. *)
Record ImageData : Type := {
    img_selector : string;
    img_flags : list string
  }.

Record LinkData : Type := {
    link_selector : string;
    accessibleLabel : option string;
    href : option string;
    link_flags : list string
  }.

  (** A heading flag is a string or an object [{flag, skipFrom, skipTo}]. *)
Inductive HeadingFlag : Type :=
  | FlagName (name : string)
  | FlagSkip (flag : string) (skipFrom skipTo : Z).

Record HeadingData : Type := {
    h_level : Z;
    h_text : string;
    h_selector : string;
    h_flags : list HeadingFlag
  }.

Record HeadingTree : Type := {
    documentTitle : string;
    tree_headings : list HeadingData;
    tree_flags : list string
  }.

Record CollectedData : Type := {
    images : list ImageData;
    links : list LinkData;
    headings : HeadingTree
  }.

  (** An entry of [MappedCriterion.elements]. *)
Record Element : Type := {
    selector : string;
    flags : list string
  }.

Record MappedCriterion : Type := {
    rgaaId : string;
    title : string;
    theme : string;
    status : CriterionStatus;
    violations : list AxeViolation;
    incompletes : list AxeIncomplete;
    elements : list Element;
    notes : string;
    manualChecks : list string
  }.

Record MappedPage : Type := {
    url : string;
    criteria : list MappedCriterion
  }.

Record AggregatedCriterion : Type := {
    agg_rgaaId : string;
    agg_title : string;
    agg_theme : string;
    agg_status : CriterionStatus;
    pagesViolating : list string;
    pagesPass : list string;
    pagesManual : list string;
    pagesIncomplete : list string
  }.

Record TopIssue : Type := {
    top_rgaaId : string;
    top_title : string;
    pagesAffected : nat
  }.

Record AuditReportSummary : Type := {
    totalCriteria : nat;
    automated : nat;
    sum_violations : nat;
    sum_passes : nat;
    sum_manual : nat;
    sum_incomplete : nat;
    topIssues : list TopIssue;
    sum_criteria : list AggregatedCriterion
  }.

  (** An entry of [allCollectedData]. *)
Record CollectedEntry : Type := {
    entry_url : string;
    collectedData : option CollectedData
  }.

  (** *** [extractElements] *)

Definition flagName (f : HeadingFlag) : string :=
    match f with FlagName n => n | FlagSkip n _ _ => n end.

Definition extractFlagged (relevantFlags : list string)
      (sel : string) (fl : list string) : list Element :=
    let matchingFlags := filter (includes relevantFlags) fl in
    match matchingFlags with
    | [] => []
    | _ :: _ => [{| selector := sel; flags := matchingFlags |}]
    end.

Definition extractHeading (relevantFlags : list string)
      (heading : HeadingData) : list Element :=
    flat_map (fun flag =>
                if includes relevantFlags (flagName flag)
                then [{| selector := h_selector heading;
                         flags := [flagName flag] |}]
                else [])
             (h_flags heading).

  (** Page-level heading flags: one ["document"] element per relevant flag
      that no element collected so far carries. *)
Definition extractPageFlag (relevantFlags : list string)
      (elems : list Element) (flag : string) : list Element :=
    if includes relevantFlags flag then
      if existsb (fun e => includes (flags e) flag) elems then elems
      else elems ++ [{| selector := "document"; flags := [flag] |}]
    else elems.

Definition extractElements (criterion : RgaaCriterion)
      (collected : option CollectedData) : list Element :=
    match collected with
    | None => []
    | Some cd =>
        let relevantFlags := dataCollectorFlags criterion in
        let fromImages :=
          flat_map (fun img => extractFlagged relevantFlags
                                 (img_selector img) (img_flags img))
                   (images cd) in
        let fromLinks :=
          flat_map (fun link => extractFlagged relevantFlags
                                  (link_selector link) (link_flags link))
                   (links cd) in
        let fromHeadings :=
          flat_map (extractHeading relevantFlags)
                   (tree_headings (headings cd)) in
        fold_left (extractPageFlag relevantFlags)
                  (tree_flags (headings cd))
                  (fromImages ++ fromLinks ++ fromHeadings)
    end.

  (** *** [mapCriterion], [mapAnyViolation], [mapAllPass] *)

  (** The literal [{ ...base, status, violations, incompletes, elements }]. *)
Definition withBase (criterion : RgaaCriterion) (st : CriterionStatus)
      (vs : list AxeViolation) (incs : list AxeIncomplete)
      (els : list Element) : MappedCriterion :=
    {| rgaaId := rgaa_id criterion;
       title := rgaa_title criterion;
       theme := rgaa_theme criterion;
       status := st;
       violations := vs;
       incompletes := incs;
       elements := els;
       notes := limits criterion;
       manualChecks := dataCollectorFlags criterion |}.

Definition matchedViolations (criterion : RgaaCriterion)
      (vs : list AxeViolation) : list AxeViolation :=
    filter (fun v => includes (axeRules criterion) (v_rule v)) vs.

Definition matchedIncompletes (criterion : RgaaCriterion)
      (incs : list AxeIncomplete) : list AxeIncomplete :=
    filter (fun i => includes (axeRules criterion) (i_rule i)) incs.

  (** Reading [.filter] off the [violations] of an [EngineError] (it has
      none) is a [TypeError]. *)
Definition typeError : string :=
    "TypeError: Cannot read properties of undefined (reading 'filter')".

Definition mapAnyViolation (criterion : RgaaCriterion)
      (result : AnalyzeResult) (els : list Element)
    : completion MappedCriterion :=
    match result with
    | EngineError _ => Throws typeError
    | EngineResult vs ps incs =>
        let violations := matchedViolations criterion vs in
        let incompletes := matchedIncompletes criterion incs in
        let status :=
          if (0 <? List.length violations)%nat then violation
          else if (0 <? List.length incompletes)%nat then incomplete
          else pass in
        Returns (withBase criterion status violations incompletes els)
    end.

Definition mapAllPass (criterion : RgaaCriterion)
      (result : AnalyzeResult) (els : list Element)
    : completion MappedCriterion :=
    match result with
    | EngineError _ => Throws typeError
    | EngineResult vs ps incs =>
        let violations := matchedViolations criterion vs in
        let incompletes := matchedIncompletes criterion incs in
        if (0 <? List.length violations)%nat then
          Returns (withBase criterion violation violations incompletes els)
        else
          let passedRules := map p_rule ps in
          let allPass := forallb (includes passedRules) (axeRules criterion) in
          if allPass then
            Returns (withBase criterion pass [] incompletes els)
          else
            Returns (withBase criterion incomplete [] incompletes els)
    end.

  (** [!axeResults || axeResults.error]. *)
Definition noAxeResults (axeResults : option AnalyzeResult) : bool :=
    match axeResults with
    | None => true
    | Some (EngineError e) => truthy e
    | Some (EngineResult _ _ _) => false
    end.

Definition mapCriterion (criterion : RgaaCriterion)
      (axeResults : option AnalyzeResult)
      (collected : option CollectedData) : completion MappedCriterion :=
    if evaluationStrategy criterion =? "MANUAL_ONLY" then
      Returns (withBase criterion manual [] []
                        (extractElements criterion collected))
    else if noAxeResults axeResults then
      Returns (withBase criterion manual [] []
                        (extractElements criterion collected))
    else
      match axeResults with
      | None => Returns (withBase criterion manual [] []
                                  (extractElements criterion collected))
      | Some engineResult =>
          let els := extractElements criterion collected in
          if evaluationStrategy criterion =? "ANY_VIOLATION" then
            mapAnyViolation criterion engineResult els
          else if evaluationStrategy criterion =? "ALL_PASS" then
            mapAllPass criterion engineResult els
          else
            Returns (withBase criterion manual [] [] els)
      end.

  (** [mapPageResults]; the catalog [loadMapping()] returns is a parameter. *)
Definition mapPageResults (mapping : RgaaMapping)
      (axeResults : option AnalyzeResult)
      (collected : option CollectedData) (u : string)
    : completion MappedPage :=
    bind (mapM (fun criterion => mapCriterion criterion axeResults collected)
               (mapping_criteria mapping))
         (fun cs => Returns {| url := u; criteria := cs |}).


  (** *** [aggregateResults] and [detectDuplicateLabels]

      [String.prototype.toLowerCase] and [String.prototype.trim] are the
      host's; the development is parametric in them. *)

Section Aggregation.

Variable toLowerCase : string -> string.
Variable trim : string -> string.

    (** The entry [criteriaMap.set] stores for a catalog criterion. *)
Definition initialAggregate (criterion : RgaaCriterion)
      : AggregatedCriterion :=
      {| agg_rgaaId := rgaa_id criterion;
         agg_title := rgaa_title criterion;
         agg_theme := rgaa_theme criterion;
         agg_status := pass;
         pagesViolating := [];
         pagesPass := [];
         pagesManual := [];
         pagesIncomplete := [] |}.

Definition initCriteriaMap (mapping : RgaaMapping)
      : omap AggregatedCriterion :=
      fold_left (fun m criterion =>
                   set m (rgaa_id criterion) (initialAggregate criterion))
                (mapping_criteria mapping) [].

    (** The [switch (criterion.status)] that pushes the page's url. *)
Definition pushPage (u : string) (st : CriterionStatus)
        (agg : AggregatedCriterion) : AggregatedCriterion :=
      {| agg_rgaaId := agg_rgaaId agg;
         agg_title := agg_title agg;
         agg_theme := agg_theme agg;
         agg_status := agg_status agg;
         pagesViolating :=
           match st with violation => pagesViolating agg ++ [u]
                       | _ => pagesViolating agg end;
         pagesPass :=
           match st with pass => pagesPass agg ++ [u]
                       | _ => pagesPass agg end;
         pagesManual :=
           match st with manual => pagesManual agg ++ [u]
                       | _ => pagesManual agg end;
         pagesIncomplete :=
           match st with incomplete => pagesIncomplete agg ++ [u]
                       | _ => pagesIncomplete agg end |}.

    (** One iteration of the inner loop: the aggregate found under the
        criterion's id is mutated in place; no aggregate, no effect. *)
Definition foldCriterion (u : string) (m : omap AggregatedCriterion)
        (criterion : MappedCriterion) : omap AggregatedCriterion :=
      match get m (rgaaId criterion) with
      | None => m
      | Some agg =>
          set m (rgaaId criterion) (pushPage u (status criterion) agg)
      end.

Definition foldPage (m : omap AggregatedCriterion) (page : MappedPage)
      : omap AggregatedCriterion :=
      fold_left (foldCriterion (url page)) (criteria page) m.

    (** The [if / else if] chain of "Compute final status per criterion". *)
Definition finalStatus (agg : AggregatedCriterion) : CriterionStatus :=
      if (0 <? List.length (pagesViolating agg))%nat then violation
      else if (0 <? List.length (pagesIncomplete agg))%nat then incomplete
      else if (0 <? List.length (pagesManual agg))%nat
              && (List.length (pagesPass agg) =? 0)%nat then manual
      else if (0 <? List.length (pagesPass agg))%nat then pass
      else manual.

Definition resolveStatus (agg : AggregatedCriterion)
      : AggregatedCriterion :=
      {| agg_rgaaId := agg_rgaaId agg;
         agg_title := agg_title agg;
         agg_theme := agg_theme agg;
         agg_status := finalStatus agg;
         pagesViolating := pagesViolating agg;
         pagesPass := pagesPass agg;
         pagesManual := pagesManual agg;
         pagesIncomplete := pagesIncomplete agg |}.

    (** [link.accessibleLabel.toLowerCase().trim()]. *)
Definition normalizeLabel (label : string) : string :=
      trim (toLowerCase label).

    (** First loop of [detectDuplicateLabels]: [labelMap] sends a
        normalized label to the set of hrefs met under it. *)
Definition recordLink (labelMap : omap (list string)) (link : LinkData)
      : omap (list string) :=
      match accessibleLabel link with
      | None => labelMap
      | Some label =>
          if negb (truthy label) || (trim label =? "") then labelMap
          else
            let normalized := normalizeLabel label in
            let labelMap1 :=
              if has labelMap normalized then labelMap
              else set labelMap normalized [] in
            match href link with
            | None => labelMap1
            | Some h =>
                if truthy h then
                  set labelMap1 normalized
                      (set_add h (nullish (get labelMap1 normalized) []))
                else labelMap1
            end
      end.

Definition recordEntry (labelMap : omap (list string))
        (entry : CollectedEntry) : omap (list string) :=
      match collectedData entry with
      | None => labelMap
      | Some cd => fold_left recordLink (links cd) labelMap
      end.

Definition buildLabelMap (allCollectedData : list CollectedEntry)
      : omap (list string) :=
      fold_left recordEntry allCollectedData [].

    (** Second loop: the labels whose href set has more than one member. *)
Definition duplicateLabelsOf (labelMap : omap (list string))
      : list string :=
      fold_left (fun dups entry =>
                   if (1 <? List.length (snd entry))%nat
                   then set_add (fst entry) dups else dups)
                labelMap [].

Definition DUPLICATE_LABEL : string := "DUPLICATE_LABEL".

    (** [existingEl = elements.find(e => e.selector === sel)], then either
        the flag is pushed on [existingEl] (unless it is there) or a new
        element is pushed at the end. *)
Fixpoint addDuplicateFlag (sel : string) (els : list Element)
      : list Element :=
      match els with
      | [] => [{| selector := sel; flags := [DUPLICATE_LABEL] |}]
      | e :: els' =>
          if selector e =? sel then
            (if includes (flags e) DUPLICATE_LABEL then e
             else {| selector := selector e;
                     flags := flags e ++ [DUPLICATE_LABEL] |}) :: els'
          else e :: addDuplicateFlag sel els'
      end.

Definition flagCriterion (sel : string) (c : MappedCriterion)
      : MappedCriterion :=
      {| rgaaId := rgaaId c;
         title := title c;
         theme := theme c;
         status := match status c with pass => violation | st => st end;
         violations := violations c;
         incompletes := incompletes c;
         elements := addDuplicateFlag sel (elements c);
         notes := notes c;
         manualChecks := manualChecks c |}.

    (** Body of [for (const link of pageData.collectedData.links)]. *)
Definition flagLink (dups : list string) (criterion61 : MappedCriterion)
        (link : LinkData) : MappedCriterion :=
      match accessibleLabel link with
      | None => criterion61
      | Some label =>
          if negb (truthy label) then criterion61
          else if includes dups (normalizeLabel label)
               then flagCriterion (link_selector link) criterion61
               else criterion61
      end.

    (** The object [find] returned is mutated where it sits in the array. *)
Fixpoint replaceFirst {A} (p : A -> bool) (a' : A) (l : list A)
      : list A :=
      match l with
      | [] => []
      | a :: l' => if p a then a' :: l' else a :: replaceFirst p a' l'
      end.

Definition is61 (c : MappedCriterion) : bool := rgaaId c =? "6.1".

    (** Body of [for (const page of mappedPages)]. *)
Definition flagPage (dups : list string)
        (allCollectedData : list CollectedEntry) (page : MappedPage)
      : MappedPage :=
      match find is61 (criteria page) with
      | None => page
      | Some criterion61 =>
          match find (fun d => entry_url d =? url page) allCollectedData with
          | None => page
          | Some pageData =>
              match collectedData pageData with
              | None => page
              | Some cd =>
                  {| url := url page;
                     criteria :=
                       replaceFirst is61
                         (fold_left (flagLink dups) (links cd) criterion61)
                         (criteria page) |}
              end
          end
      end.

    (** [detectDuplicateLabels] returns nothing and mutates the criteria of
        [mappedPages]; the embedding returns the pages as they are left. *)
Definition detectDuplicateLabels (mappedPages : list MappedPage)
        (allCollectedData : list CollectedEntry) : list MappedPage :=
      let dups := duplicateLabelsOf (buildLabelMap allCollectedData) in
      if (List.length dups =? 0)%nat then mappedPages
      else map (flagPage dups allCollectedData) mappedPages.

Definition countStatus (st : CriterionStatus)
        (cs : list AggregatedCriterion) : nat :=
      List.length (filter (fun c => status_eqb (agg_status c) st) cs).

Definition computeTopIssues (cs : list AggregatedCriterion)
      : list TopIssue :=
      map (fun c => {| top_rgaaId := agg_rgaaId c;
                       top_title := agg_title c;
                       pagesAffected := List.length (pagesViolating c) |})
          (firstn 5
             (sort (fun a b => (List.length (pagesViolating b)
                                <=? List.length (pagesViolating a))%nat)
                   (filter (fun c =>
                              (0 <? List.length (pagesViolating c))%nat)
                           cs))).

    (** [aggregateResults(mappedPages, allCollectedData?)]: the summary it
        returns, and [mappedPages] as the call leaves them. *)
Definition aggregateResults (mapping : RgaaMapping)
        (mappedPages : list MappedPage)
        (allCollectedData : option (list CollectedEntry))
      : AuditReportSummary * list MappedPage :=
      let criteriaMap0 := initCriteriaMap mapping in
      let criteriaMap1 := fold_left foldPage mappedPages criteriaMap0 in
      let criteriaMap2 :=
        map (fun kv => (fst kv, resolveStatus (snd kv))) criteriaMap1 in
      let mappedPages' :=
        match allCollectedData with
        | Some all => detectDuplicateLabels mappedPages all
        | None => mappedPages
        end in
      let cs := values criteriaMap2 in
      ({| totalCriteria := List.length cs;
          automated :=
            List.length
              (filter (fun c => negb (status_eqb (agg_status c) manual)) cs);
          sum_violations := countStatus violation cs;
          sum_passes := countStatus pass cs;
          sum_manual := countStatus manual cs;
          sum_incomplete := countStatus incomplete cs;
          topIssues := computeTopIssues cs;
          sum_criteria := cs |},
       mappedPages').

End Aggregation.

End Mapper.

(* ------------------------------------------------------------------ *)
(** ** The audit worker pool ([analyzer.ts]) *)
(* ------------------------------------------------------------------ *)

Module Analyzer.

Import JS.

  (** *** Data shapes *)

Record PageResult : Type := {
    pr_url : string;
    auditedAt : string;
    axeResults : option Mapper.AnalyzeResult;
    pr_collectedData : option Mapper.CollectedData;
    error : option string
  }.

Record AuditSummary : Type := {
    sum_totalPages : nat;
    sum_completedPages : nat;
    failedPages : nat;
    sum_startedAt : string;
    finishedAt : string
  }.

Inductive ProgressEvent : Type :=
  | page_start (url : string)
  | page_complete (url : string) (result : PageResult)
  | page_error (url : string) (error : string)
  | audit_complete (summary : AuditSummary).

  (** [SessionState]. [results] is a plain object ([results: {}]): the
      list holds its own properties, in the order [Object.values] and
      [JSON.stringify] visit them. *)
Record SessionState : Type := {
    sessionId : string;
    startedAt : string;
    totalPages : nat;
    completedPages : list string;
    pendingPages : list string;
    results : omap PageResult
  }.

  (** [AuditPagesOptions]. [maxConcurrent] is a number, if given at all:
      nothing makes it whole or positive. The optional [onPageComplete]
      callback is the caller's code: all the pool sees of it is whether it
      returns or throws (labels [RenameDone] and [CallbackThrows] below). *)
Record AuditPagesOptions : Type := {
    maxConcurrent : option number;
    opt_sessionId : string
  }.

  (** *** [auditPage]

      What the browser and the two collaborators did with the page is the
      environment's choice; [auditPage] turns either outcome into a
      [PageResult] and never throws. *)
Inductive AuditOutcome : Type :=
  | Audited (axe : Mapper.AnalyzeResult) (collected : Mapper.CollectedData)
  | AuditThrew (message : string).

Definition auditPage (u : string) (now : string) (o : AuditOutcome)
    : PageResult :=
    match o with
    | Audited axe collected =>
        {| pr_url := u; auditedAt := now; axeResults := Some axe;
           pr_collectedData := Some collected; error := None |}
    | AuditThrew message =>
        {| pr_url := u; auditedAt := now; axeResults := None;
           pr_collectedData := None; error := Some message |}
    end.

  (** [if (result.error)]. *)
Definition hasError (r : PageResult) : bool :=
    match error r with Some e => truthy e | None => false end.

  (** *** The pool as a transition system

      A worker is an [async] function: it runs without interruption from
      one [await] to the next. Its state names the [await] it is suspended
      at. *)
Inductive WorkerState : Type :=
  | Auditing (url : string)
      (* [await ctx.newPage()], then [await auditPage(page, url, ...)] *)
  | Saving (url : string) (result : PageResult)
      (* in [saveSessionState]: [await mkdir(...)] *)
  | Writing (url : string) (result : PageResult) (snapshot : SessionState)
      (* in [saveSessionState]: [await writeFile(tmp, JSON.stringify(state))],
         then [await rename(tmp, final)] *)
  | Closing (rethrow : bool)
      (* [finally { await page.close() }]; [rethrow] when the block is left
         by an exception *)
  | Resolved
      (* the worker's promise is fulfilled *)
  | Rejected.
      (* the worker's promise is rejected *)

  (** Observations, in the order they happen; a record kept beside the
      program state, which no transition reads. *)
Inductive Action : Type :=
  | Moved (url : string)        (* pending -> completed in the session *)
  | Stored (url : string)       (* [state.results[url] = result] ran *)
  | Pushed (ev : ProgressEvent) (* [pushEvent(ev)] *)
  | Persisted (url : string) (snapshot : SessionState)
                                (* the session file was replaced *)
  | Yielded (ev : ProgressEvent). (* the generator handed [ev] over *)

  (** The state of a run. [durable] is what the last rename of a worker
      put in place of the session file, taken to be what that worker
      wrote: that is the content of the file as long as one worker saves
      at a time, as with a single worker. The workers share the temporary
      path, so with several workers a rename can move what another worker
      wrote, or fail ([SaveFails]); nothing is proved of [durable] then. *)
Record Pool : Type := {
    urlQueue : list string;
    state : SessionState;
    eventBuffer : list ProgressEvent;
    workers : list WorkerState;
    allDone : bool;
    yielded : list ProgressEvent;
    returned : bool;
    durable : option SessionState;
    trace : list Action
  }.

Definition withWorkers (p : Pool) (ws : list WorkerState) : Pool :=
    {| urlQueue := urlQueue p; state := state p;
       eventBuffer := eventBuffer p; workers := ws; allDone := allDone p;
       yielded := yielded p; returned := returned p; durable := durable p;
       trace := trace p |}.

  (** [pushEvent]: the wake-up of the generator is the [Yield] transition. *)
Definition pushEvent (ev : ProgressEvent) (p : Pool) : Pool :=
    {| urlQueue := urlQueue p; state := state p;
       eventBuffer := eventBuffer p ++ [ev]; workers := workers p;
       allDone := allDone p; yielded := yielded p; returned := returned p;
       durable := durable p; trace := trace p ++ [Pushed ev] |}.

  (** Head of [while (urlQueue.length > 0)]: either the next url is
      shifted and announced, or the worker returns. *)
Definition workerHead (p : Pool) : Pool * WorkerState :=
    match urlQueue p with
    | [] => (p, Resolved)
    | u :: rest =>
        (pushEvent (page_start u)
           {| urlQueue := rest; state := state p;
              eventBuffer := eventBuffer p; workers := workers p;
              allDone := allDone p; yielded := yielded p;
              returned := returned p; durable := durable p;
              trace := trace p |},
         Auditing u)
    end.

  (** [contexts.map((ctx) => worker(ctx))]: each call runs up to its first
      [await] before the next one starts. *)
Fixpoint spawn (n : nat) (p : Pool) : Pool :=
    match n with
    | O => p
    | S n' =>
        let (p1, w) := workerHead p in
        spawn n' (withWorkers p1 (workers p1 ++ [w]))
    end.

  (** [Math.min(options.maxConcurrent ?? 2, 3)]. *)
Definition concurrency (options : AuditPagesOptions) : number :=
    math_min (nullish (maxConcurrent options) (ofZ 2)) (ofZ 3).

  (** [for (let i = 0; i < concurrency; i++) contexts.push(...)]: the
      contexts pushed from round [i] on, in at most [rounds] rounds. *)
Fixpoint pushContexts (rounds : nat) (i : Z) (bound : number) : nat :=
    match rounds with
    | O => O
    | S rounds' =>
        if num_ltb (ofZ i) bound
        then S (pushContexts rounds' (i + 1) bound)
        else O
    end.

  (** The number of contexts created. The bound is at most 3, so the loop
      has stopped by itself within three rounds ([pushContexts_stops]
      below). *)
Definition contexts (options : AuditPagesOptions) : nat :=
    pushContexts 3 0 (concurrency options).

  (** [auditPages(urls, options)] up to the generator's first [await]:
      the session is created, the queue filled and the workers started.
      [now] is the clock reading put in [startedAt]. *)
Definition auditPages (urls : list string) (options : AuditPagesOptions)
      (now : string) : Pool :=
    spawn (contexts options)
      {| urlQueue := urls;
         state := {| sessionId := opt_sessionId options;
                     startedAt := now;
                     totalPages := List.length urls;
                     completedPages := [];
                     pendingPages := urls;
                     results := [] |};
         eventBuffer := [];
         workers := [];
         allDone := false;
         yielded := [];
         returned := false;
         durable := None;
         trace := [] |}.

  (** The three assignments after [await auditPage(...)]. *)
Definition recordResult (u : string) (r : PageResult) (s : SessionState)
    : SessionState :=
    {| sessionId := sessionId s;
       startedAt := startedAt s;
       totalPages := totalPages s;
       completedPages := completedPages s ++ [u];
       pendingPages := filter (fun x => negb (x =? u)) (pendingPages s);
       results := assign (results s) u r |}.

Definition terminalEvent (u : string) (r : PageResult) : ProgressEvent :=
    if hasError r then page_error u (nullish (error r) "")
    else page_complete u r.

Fixpoint setWorker (ws : list WorkerState) (w : nat) (x : WorkerState)
    : list WorkerState :=
    match ws, w with
    | [], _ => []
    | _ :: ws', O => x :: ws'
    | y :: ws', S w' => y :: setWorker ws' w' x
    end.

Definition isResolved (w : WorkerState) : bool :=
    match w with Resolved => true | _ => false end.

  (** The summary built in the [.then] of [Promise.all]. *)
Definition summaryOf (urls_length : nat) (s : SessionState) (now : string)
    : AuditSummary :=
    {| sum_totalPages := urls_length;
       sum_completedPages := List.length (completedPages s);
       failedPages := List.length (filter hasError (values (results s)));
       sum_startedAt := startedAt s;
       finishedAt := now |}.

  (** What can happen next: a pending [await] of worker [w] settles, the
      [.then] of [Promise.all] runs, or the generator moves.

      - [AuditReturns]: [ctx.newPage()] and [auditPage] are done; the
        session is updated and the terminal event pushed, then
        [saveSessionState] is entered. [NewPageFails]: [ctx.newPage()]
        threw, outside the [try].
      - [MkdirDone]: the session is serialized and the write to the
        temporary path starts. [RenameDone]: the write and the rename are
        done, and [onPageComplete], if any, returned. [CallbackThrows]: the
        same, but [onPageComplete] threw. [SaveFails]: [mkdir], [writeFile]
        or [rename] threw.
      - [CloseDone] / [CloseFails]: [page.close()] settled; the worker goes
        on with the loop, or rejects if it left the [try] by an exception.
      - [WorkersSettled]: every worker is fulfilled and the [.then]
        callback of [Promise.all] runs; it never does once a worker is
        rejected.
      - [Yield] / [Return]: the generator hands over the oldest buffered
        event; it returns once [allDone] holds and the buffer is empty. *)
Inductive Label : Type :=
  | AuditReturns (w : nat) (now : string) (o : AuditOutcome)
  | NewPageFails (w : nat)
  | MkdirDone (w : nat)
  | SaveFails (w : nat)
  | RenameDone (w : nat)
  | CallbackThrows (w : nat)
  | CloseDone (w : nat)
  | CloseFails (w : nat)
  | WorkersSettled (now : string)
  | Yield
  | Return.

Definition step (l : Label) (p : Pool) : option Pool :=
    match l with
    | AuditReturns w now o =>
        match nth_error (workers p) w with
        | Some (Auditing u) =>
            let result := auditPage u now o in
            let p1 :=
              {| urlQueue := urlQueue p;
                 state := recordResult u result (state p);
                 eventBuffer := eventBuffer p; workers := workers p;
                 allDone := allDone p; yielded := yielded p;
                 returned := returned p; durable := durable p;
                 trace := trace p ++ [Moved u; Stored u] |} in
            let p2 := pushEvent (terminalEvent u result) p1 in
            Some (withWorkers p2 (setWorker (workers p2) w (Saving u result)))
        | _ => None
        end
    | NewPageFails w =>
        match nth_error (workers p) w with
        | Some (Auditing u) =>
            Some (withWorkers p (setWorker (workers p) w Rejected))
        | _ => None
        end
    | MkdirDone w =>
        match nth_error (workers p) w with
        | Some (Saving u r) =>
            Some (withWorkers p
                    (setWorker (workers p) w (Writing u r (state p))))
        | _ => None
        end
    | SaveFails w =>
        match nth_error (workers p) w with
        | Some (Saving _ _) | Some (Writing _ _ _) =>
            Some (withWorkers p (setWorker (workers p) w (Closing true)))
        | _ => None
        end
    | RenameDone w =>
        match nth_error (workers p) w with
        | Some (Writing u r snapshot) =>
            Some {| urlQueue := urlQueue p; state := state p;
                    eventBuffer := eventBuffer p;
                    workers := setWorker (workers p) w (Closing false);
                    allDone := allDone p; yielded := yielded p;
                    returned := returned p; durable := Some snapshot;
                    trace := trace p ++ [Persisted u snapshot] |}
        | _ => None
        end
    | CallbackThrows w =>
        match nth_error (workers p) w with
        | Some (Writing u r snapshot) =>
            Some {| urlQueue := urlQueue p; state := state p;
                    eventBuffer := eventBuffer p;
                    workers := setWorker (workers p) w (Closing true);
                    allDone := allDone p; yielded := yielded p;
                    returned := returned p; durable := Some snapshot;
                    trace := trace p ++ [Persisted u snapshot] |}
        | _ => None
        end
    | CloseDone w =>
        match nth_error (workers p) w with
        | Some (Closing false) =>
            let (p1, ws) := workerHead p in
            Some (withWorkers p1 (setWorker (workers p1) w ws))
        | Some (Closing true) =>
            Some (withWorkers p (setWorker (workers p) w Rejected))
        | _ => None
        end
    | CloseFails w =>
        match nth_error (workers p) w with
        | Some (Closing _) =>
            Some (withWorkers p (setWorker (workers p) w Rejected))
        | _ => None
        end
    | WorkersSettled now =>
        if forallb isResolved (workers p) && negb (allDone p) then
          Some (pushEvent
                  (audit_complete
                     (summaryOf (totalPages (state p)) (state p) now))
                  {| urlQueue := urlQueue p; state := state p;
                     eventBuffer := eventBuffer p; workers := workers p;
                     allDone := true; yielded := yielded p;
                     returned := returned p; durable := durable p;
                     trace := trace p |})
        else None
    | Yield =>
        if returned p then None
        else
          match eventBuffer p with
          | [] => None
          | ev :: rest =>
              Some {| urlQueue := urlQueue p; state := state p;
                      eventBuffer := rest; workers := workers p;
                      allDone := allDone p; yielded := yielded p ++ [ev];
                      returned := returned p; durable := durable p;
                      trace := trace p ++ [Yielded ev] |}
          end
    | Return =>
        if negb (returned p) && allDone p then
          match eventBuffer p with
          | [] =>
              Some {| urlQueue := urlQueue p; state := state p;
                      eventBuffer := []; workers := workers p;
                      allDone := allDone p; yielded := yielded p;
                      returned := true; durable := durable p;
                      trace := trace p |}
          | _ :: _ => None
          end
        else None
    end.

  (** A run: the labels taken, in order. *)
Fixpoint run (ls : list Label) (p : Pool) : option Pool :=
    match ls with
    | [] => Some p
    | l :: ls' =>
        match step l p with
        | Some p' => run ls' p'
        | None => None
        end
    end.

  (** *** Readings of an event stream *)

Definition startUrls (evs : list ProgressEvent) : list string :=
    flat_map (fun ev => match ev with page_start u => [u] | _ => [] end) evs.

Definition terminalUrls (evs : list ProgressEvent) : list string :=
    flat_map (fun ev => match ev with
                        | page_complete u _ | page_error u _ => [u]
                        | _ => []
                        end) evs.

Definition isAuditComplete (ev : ProgressEvent) : bool :=
    match ev with audit_complete _ => true | _ => false end.

Definition countAuditComplete (evs : list ProgressEvent) : nat :=
    List.length (filter isAuditComplete evs).

End Analyzer.


(* ------------------------------------------------------------------ *)
(** ** The data collector ([core/analyzer/data-collector.ts]) *)
(* ------------------------------------------------------------------ *)

Module DataCollector.

Import JS.

(** *** Data shapes

    What [page.evaluate] returns is read off the document by the browser;
    the flags are computed from it in Node. *)

(** An entry of [rawImages]. *)
Record RawImage : Type := {
    ri_selector : string;
    ri_tagName : string;
    ri_src : string;
    altAttribute : option string;
    ariaLabel : option string;
    ariaLabelledby : option string;
    rolePresentation : bool;
    surroundingText : string;
    parentFigcaption : option string;
    isInLink : bool;
    linkHref : option string;
    linkText : option string
  }.

Inductive AltStatus : Type := absent | empty | present.

Inductive AutomatedStatus : Type :=
  | auto_violation | auto_pass | auto_manual.

(** [ImageData]: the literal [{ ...img, altStatus, axeViolations: [],
    automatedStatus, flags, screenshotPath: null }]. *)
Record ImageData : Type := {
    image_raw : RawImage;
    altStatus : AltStatus;
    axeViolations : list string;
    automatedStatus : AutomatedStatus;
    image_flags : list string;
    screenshotPath : option string
  }.

(** An entry of [rawLinks]. *)
Record RawLink : Type := {
    rl_selector : string;
    rl_tagName : string;
    rl_accessibleLabel : option string;
    rl_href : option string;
    opensNewWindow : bool;
    hasNewWindowWarning : bool
  }.

(** [LinkData]: the literal [{ ...link, flags }]. *)
Record LinkData : Type := {
    link_raw : RawLink;
    link_flags : list string
  }.

(** An entry of [rawData.headings]. *)
Record RawHeading : Type := {
    rh_level : Z;
    rh_text : string;
    rh_selector : string
  }.

Record RawHeadings : Type := {
    raw_documentTitle : string;
    raw_headings : list RawHeading
  }.

(** [CollectedData], with every field of its images and links. *)
Record CollectedData : Type := {
    cd_images : list ImageData;
    cd_links : list LinkData;
    cd_headings : Mapper.HeadingTree
  }.

(** What the three [page.evaluate] calls of [collectAll] return. *)
Record RawPage : Type := {
    rawImages : list RawImage;
    rawLinks : list RawLink;
    rawData : RawHeadings
  }.

Definition ALT_ABSENT : string := "ALT_ABSENT".
Definition ALT_GENERIC : string := "ALT_GENERIC".
Definition ALT_TOO_LONG : string := "ALT_TOO_LONG".
Definition IMG_IN_LINK_ALT_EMPTY : string := "IMG_IN_LINK_ALT_EMPTY".
Definition ROLE_PRESENTATION_SUSPICIOUS : string :=
  "ROLE_PRESENTATION_SUSPICIOUS".
Definition EMPTY_LABEL : string := "EMPTY_LABEL".
Definition GENERIC_LABEL : string := "GENERIC_LABEL".
Definition NEW_WINDOW_NO_WARNING : string := "NEW_WINDOW_NO_WARNING".
Definition NO_H1 : string := "NO_H1".
Definition MULTIPLE_H1 : string := "MULTIPLE_H1".
Definition TITLE_ABSENT : string := "TITLE_ABSENT".
Definition TITLE_GENERIC : string := "TITLE_GENERIC".
Definition LEVEL_SKIP : string := "LEVEL_SKIP".

(** [cond && flags.push(name)]. *)
Definition pushIf (cond : bool) (name : string) (flags : list string)
  : list string :=
  if cond then flags ++ [name] else flags.

Section Collector.

(** The host's [toLowerCase], [trim] and [length] (in UTF-16 code units),
    and what the helpers read from the catalog: [genericAltRegex.test],
    [getAltMaxLength()], [getGenericLinkLabels()], [getGenericTitles()]. *)
Variable toLowerCase : string -> string.
Variable trim : string -> string.
Variable jsLength : string -> Z.
Variable genericAltTest : string -> bool.
Variable altMaxLength : Z.
Variable genericLabels : list string.
Variable genericTitles : list string.

(** *** [collectImages]: the callback of [rawImages.map] *)

Definition altStatusOf (img : RawImage) : AltStatus :=
  match altAttribute img with
  | None => absent
  | Some alt => if alt =? "" then empty else present
  end.

Definition imageFlags (img : RawImage) : list string :=
  let alt := altAttribute img in
  let isNull := match alt with None => true | Some _ => false end in
  let isEmpty := match alt with Some a => a =? "" | None => false end in
  let flags0 := pushIf isNull ALT_ABSENT [] in
  let flags1 :=
    pushIf (negb isNull && negb isEmpty
            && match alt with Some a => genericAltTest a | None => false end)
           ALT_GENERIC flags0 in
  let flags2 :=
    pushIf (negb isNull
            && match alt with
               | Some a => (jsLength a >? altMaxLength)%Z
               | None => false
               end)
           ALT_TOO_LONG flags1 in
  let flags3 := pushIf (isInLink img && isEmpty) IMG_IN_LINK_ALT_EMPTY flags2 in
  pushIf (rolePresentation img && negb isNull && negb isEmpty)
         ROLE_PRESENTATION_SUSPICIOUS flags3.

Definition hasViolation (flags : list string) : bool :=
  existsb (fun f => (f =? ALT_ABSENT) || (f =? ALT_GENERIC)
                    || (f =? IMG_IN_LINK_ALT_EMPTY)) flags.

Definition classifyImage (img : RawImage) : ImageData :=
  let altStatus := altStatusOf img in
  let flags := imageFlags img in
  {| image_raw := img;
     altStatus := altStatus;
     axeViolations := [];
     automatedStatus :=
       if hasViolation flags then auto_violation
       else match altStatus with present => auto_pass | _ => auto_manual end;
     image_flags := flags;
     screenshotPath := None |}.

Definition collectImages (raw : list RawImage) : list ImageData :=
  map classifyImage raw.

(** *** [collectLinks]: the callback of [rawLinks.map] *)

(** [!link.accessibleLabel || link.accessibleLabel.trim() === '']. *)
Definition blankLabel (label : option string) : bool :=
  match label with
  | None => true
  | Some l => negb (truthy l) || (trim l =? "")
  end.

Definition linkFlags (link : RawLink) : list string :=
  let flags0 := pushIf (blankLabel (rl_accessibleLabel link)) EMPTY_LABEL [] in
  let flags1 :=
    pushIf (match rl_accessibleLabel link with
            | Some l => truthy l && includes genericLabels (trim (toLowerCase l))
            | None => false
            end)
           GENERIC_LABEL flags0 in
  pushIf (opensNewWindow link && negb (hasNewWindowWarning link))
         NEW_WINDOW_NO_WARNING flags1.

Definition classifyLink (link : RawLink) : LinkData :=
  {| link_raw := link; link_flags := linkFlags link |}.

Definition collectLinks (raw : list RawLink) : list LinkData :=
  map classifyLink raw.

(** *** [collectHeadings] *)

Definition plainHeading (h : RawHeading) (flags : list Mapper.HeadingFlag)
  : Mapper.HeadingData :=
  {| Mapper.h_level := rh_level h; Mapper.h_text := rh_text h;
     Mapper.h_selector := rh_selector h; Mapper.h_flags := flags |}.

(** The callback of [rawData.headings.map((h, i) => ...)]: [prev] is
    [rawData.headings[i - 1]] when [i > 0]; besides the heading it returns,
    it pushes [LEVEL_SKIP] on [pageFlags] unless it is there. *)
Definition flagHeading (prev : option RawHeading) (h : RawHeading)
    (pageFlags : list string) : Mapper.HeadingData * list string :=
  match prev with
  | None => (plainHeading h [], pageFlags)
  | Some before =>
      let prevLevel := rh_level before in
      if (rh_level h >? prevLevel + 1)%Z then
        (plainHeading h [Mapper.FlagSkip LEVEL_SKIP prevLevel (rh_level h)],
         if includes pageFlags LEVEL_SKIP then pageFlags
         else pageFlags ++ [LEVEL_SKIP])
      else (plainHeading h [], pageFlags)
  end.

Fixpoint flagHeadings (prev : option RawHeading) (hs : list RawHeading)
    (pageFlags : list string) : list Mapper.HeadingData * list string :=
  match hs with
  | [] => ([], pageFlags)
  | h :: hs' =>
      let (heading, pageFlags1) := flagHeading prev h pageFlags in
      let (rest, pageFlags2) := flagHeadings (Some h) hs' pageFlags1 in
      (heading :: rest, pageFlags2)
  end.

Definition h1Count (hs : list RawHeading) : nat :=
  List.length (filter (fun h => (rh_level h =? 1)%Z) hs).

Definition initialPageFlags (raw : RawHeadings) : list string :=
  let n := h1Count (raw_headings raw) in
  let flags0 :=
    if (n =? 0)%nat then [NO_H1]
    else if (1 <? n)%nat then [MULTIPLE_H1] else [] in
  if negb (truthy (raw_documentTitle raw)) then flags0 ++ [TITLE_ABSENT]
  else if includes genericTitles
                   (trim (toLowerCase (raw_documentTitle raw)))
       then flags0 ++ [TITLE_GENERIC]
       else flags0.

Definition collectHeadings (raw : RawHeadings) : Mapper.HeadingTree :=
  let (headings, pageFlags) :=
    flagHeadings None (raw_headings raw) (initialPageFlags raw) in
  {| Mapper.documentTitle := raw_documentTitle raw;
     Mapper.tree_headings := headings;
     Mapper.tree_flags := pageFlags |}.

(** *** [collectAll] *)

Definition collectAll (page : RawPage) : CollectedData :=
  {| cd_images := collectImages (rawImages page);
     cd_links := collectLinks (rawLinks page);
     cd_headings := collectHeadings (rawData page) |}.

End Collector.

(** The fields of the collected data the mapper reads. *)
Definition imageEvidence (img : ImageData) : Mapper.ImageData :=
  {| Mapper.img_selector := ri_selector (image_raw img);
     Mapper.img_flags := image_flags img |}.

Definition linkEvidence (link : LinkData) : Mapper.LinkData :=
  {| Mapper.link_selector := rl_selector (link_raw link);
     Mapper.accessibleLabel := rl_accessibleLabel (link_raw link);
     Mapper.href := rl_href (link_raw link);
     Mapper.link_flags := link_flags link |}.

Definition evidence (cd : CollectedData) : Mapper.CollectedData :=
  {| Mapper.images := map imageEvidence (cd_images cd);
     Mapper.links := map linkEvidence (cd_links cd);
     Mapper.headings := cd_headings cd |}.

End DataCollector.

(* ------------------------------------------------------------------ *)
(** ** The report route ([server/routes/report.routes.ts]) *)
(* ------------------------------------------------------------------ *)

Module ReportRoutes.

Import JS Mapper Analyzer.

(** [!r.error]. *)
Definition succeeded (r : PageResult) : bool := negb (hasError r).

(** [Object.values(session.results).filter((r) => !r.error)]. *)
Definition reported (session : SessionState) : list PageResult :=
  filter succeeded (values (results session)).

(** [.map((r) => mapPageResults(r.axeResults, r.collectedData, r.url))]. *)
Definition mappedPages (mapping : RgaaMapping) (session : SessionState)
  : completion (list MappedPage) :=
  mapM (fun r => mapPageResults mapping (axeResults r) (pr_collectedData r)
                                (pr_url r))
       (reported session).

(** [.map((r) => ({ url: r.url, collectedData: r.collectedData }))]. *)
Definition allCollected (session : SessionState) : list CollectedEntry :=
  map (fun r => {| entry_url := pr_url r;
                   collectedData := pr_collectedData r |})
      (reported session).

Section Summary.

Variables toLowerCase trim : string -> string.

(** [aggregateResults(mappedPages, allCollected)] in the two [GET]
    handlers, once the session is loaded. *)
Definition reportSummary (mapping : RgaaMapping) (session : SessionState)
  : completion AuditReportSummary :=
  bind (mappedPages mapping session)
       (fun pages =>
          Returns (fst (aggregateResults toLowerCase trim mapping pages
                          (Some (allCollected session))))).

End Summary.

End ReportRoutes.

(* ------------------------------------------------------------------ *)
(** ** The built-ins on ASCII text, for the worked examples *)
(* ------------------------------------------------------------------ *)

Module AsciiText.

Import Ascii.

Definition lowerChar (c : ascii) : ascii :=
    let n := nat_of_ascii c in
    if ((65 <=? n) && (n <=? 90))%nat then ascii_of_nat (n + 32) else c.

Fixpoint toLowerCase (s : string) : string :=
    match s with
    | EmptyString => EmptyString
    | String c s' => String (lowerChar c) (toLowerCase s')
    end.

Definition isSpace (c : ascii) : bool :=
    let n := nat_of_ascii c in
    ((n =? 32) || ((9 <=? n) && (n <=? 13)))%nat.

Fixpoint trimStart (s : string) : string :=
    match s with
    | EmptyString => EmptyString
    | String c s' => if isSpace c then trimStart s' else s
    end.

Fixpoint trimEnd (s : string) : string :=
    match s with
    | EmptyString => EmptyString
    | String c s' =>
        match trimEnd s' with
        | EmptyString => if isSpace c then EmptyString else String c EmptyString
        | t => String c t
        end
    end.

Definition trim (s : string) : string := trimEnd (trimStart s).

End AsciiText.

(* ------------------------------------------------------------------ *)
(** ** Vocabulary of the specification *)
(* ------------------------------------------------------------------ *)

Module MapperSpec.

Import JS Mapper.

(** Some reported violation's rule id belongs to the criterion's rule set. *)
Definition reportsViolation (criterion : RgaaCriterion)
    (vs : list AxeViolation) : Prop :=
  exists v, In v vs /\ In (v_rule v) (axeRules criterion).

(** Some incomplete finding's rule id belongs to the criterion's rule set. *)
Definition reportsIncomplete (criterion : RgaaCriterion)
    (incs : list AxeIncomplete) : Prop :=
  exists i, In i incs /\ In (i_rule i) (axeRules criterion).

(** Every rule id of the criterion appears among the passing findings. *)
Definition allRulesPass (criterion : RgaaCriterion) (ps : list AxePass)
  : Prop :=
  forall rule, In rule (axeRules criterion) ->
               exists p, In p ps /\ p_rule p = rule.

(** An evidence element matches the criterion's flag set. *)
Definition matchesFlagSet (criterion : RgaaCriterion) (e : Element) : Prop :=
  flags e <> [] /\ incl (flags e) (dataCollectorFlags criterion).

(** The flags of [fl] that belong to the criterion's flag set, in order. *)
Definition matching (criterion : RgaaCriterion) (fl : list string)
  : list string :=
  filter (fun f => includes (dataCollectorFlags criterion) f) fl.

(** The evidence elements of a criterion, in the specification's words:
    an image or a link with its flags of the criterion's flag set, when it
    has one; a heading with one such flag; the document with one such
    page-level flag. *)
Inductive evidenceFor (criterion : RgaaCriterion) (cd : CollectedData)
  : Element -> Prop :=
  | evidence_image img :
      In img (images cd) ->
      matching criterion (img_flags img) <> [] ->
      evidenceFor criterion cd
        {| selector := img_selector img;
           flags := matching criterion (img_flags img) |}
  | evidence_link link :
      In link (links cd) ->
      matching criterion (link_flags link) <> [] ->
      evidenceFor criterion cd
        {| selector := link_selector link;
           flags := matching criterion (link_flags link) |}
  | evidence_heading heading flag :
      In heading (tree_headings (headings cd)) ->
      In flag (h_flags heading) ->
      In (flagName flag) (dataCollectorFlags criterion) ->
      evidenceFor criterion cd
        {| selector := h_selector heading; flags := [flagName flag] |}
  | evidence_page flag :
      In flag (tree_flags (headings cd)) ->
      In flag (dataCollectorFlags criterion) ->
      evidenceFor criterion cd
        {| selector := "document"; flags := [flag] |}.

(** The elements [els] are the evidence of the criterion: nothing but
    evidence elements, the element of every flagged image, link and
    heading, and every page-level flag of the flag set on some element. No
    evidence, no element. *)
Definition attached (criterion : RgaaCriterion)
    (collected : option CollectedData) (els : list Element) : Prop :=
  match collected with
  | None => els = []
  | Some cd =>
      (forall e, In e els -> evidenceFor criterion cd e) /\
      (forall img,
          In img (images cd) ->
          matching criterion (img_flags img) <> [] ->
          In {| selector := img_selector img;
                flags := matching criterion (img_flags img) |} els) /\
      (forall link,
          In link (links cd) ->
          matching criterion (link_flags link) <> [] ->
          In {| selector := link_selector link;
                flags := matching criterion (link_flags link) |} els) /\
      (forall heading flag,
          In heading (tree_headings (headings cd)) ->
          In flag (h_flags heading) ->
          In (flagName flag) (dataCollectorFlags criterion) ->
          In {| selector := h_selector heading;
                flags := [flagName flag] |} els) /\
      (forall flag,
          In flag (tree_flags (headings cd)) ->
          In flag (dataCollectorFlags criterion) ->
          exists e, In e els /\ In flag (flags e))
  end.

(** The result the evaluator gives when it falls back to a manual check. *)
Definition manualResult (criterion : RgaaCriterion)
    (collected : option CollectedData) (mc : MappedCriterion) : Prop :=
  rgaaId mc = rgaa_id criterion /\
  status mc = manual /\
  violations mc = [] /\
  incompletes mc = [] /\
  elements mc = extractElements criterion collected /\
  Forall (matchesFlagSet criterion) (elements mc) /\
  attached criterion collected (elements mc).

(** Page [page] classifies criterion [id] as [st]. *)
Definition pageHas (st : CriterionStatus) (id : string) (page : MappedPage)
  : bool :=
  existsb (fun c => (rgaaId c =? id) && status_eqb (status c) st)
          (criteria page).

(** At least one page classifies criterion [id] as [st]. *)
Definition anyPage (st : CriterionStatus) (id : string)
    (pages : list MappedPage) : bool :=
  existsb (pageHas st id) pages.

(** The status precedence, in the specification's words: any page
    violating, else any page incomplete, else any page manual and no page
    passing, else any page passing, else manual. *)
Definition precedence (id : string) (pages : list MappedPage)
  : CriterionStatus :=
  if anyPage violation id pages then violation
  else if anyPage incomplete id pages then incomplete
  else if anyPage manual id pages && negb (anyPage pass id pages) then manual
  else if anyPage pass id pages then pass
  else manual.

(** The ids of a catalog, each at its first occurrence. *)
Definition firstOccurrences (ids : list string) : list string :=
  fold_left (fun acc id => set_add id acc) ids [].

(** One contribution to the aggregation: a page's url with one of its
    classifications. *)
Definition entriesOf (page : MappedPage) : list (string * MappedCriterion) :=
  map (fun c => (url page, c)) (criteria page).

Definition contributes (st : CriterionStatus) (id : string)
    (uc : string * MappedCriterion) : list string :=
  if (rgaaId (snd uc) =? id) && status_eqb (status (snd uc)) st
  then [fst uc] else [].

(** The urls of the pages that classify [id] as [st], one per such
    classification, in page order. *)
Definition contributions (st : CriterionStatus) (id : string)
    (es : list (string * MappedCriterion)) : list string :=
  flat_map (contributes st id) es.

(** An aggregate under key [fst kv] holds exactly the contributions of
    the entries [es] folded so far. *)
Definition tracks (es : list (string * MappedCriterion))
    (kv : string * AggregatedCriterion) : Prop :=
  agg_rgaaId (snd kv) = fst kv /\
  pagesViolating (snd kv) = contributions violation (fst kv) es /\
  pagesPass (snd kv) = contributions pass (fst kv) es /\
  pagesManual (snd kv) = contributions manual (fst kv) es /\
  pagesIncomplete (snd kv) = contributions incomplete (fst kv) es.

(** An aggregate no page has contributed to. *)
Definition untouched (agg : AggregatedCriterion) : Prop :=
  pagesViolating agg = [] /\ pagesPass agg = [] /\
  pagesManual agg = [] /\ pagesIncomplete agg = [].

(** The per-page upgrade applied when a duplicate label is found. *)
Definition upgraded (st : CriterionStatus) : CriterionStatus :=
  match st with pass => violation | _ => st end.

(** Criterion [c] carries the duplicate-label flag on an element for the
    selector [sel]. *)
Definition flaggedFor (sel : string) (c : MappedCriterion) : Prop :=
  exists e, In e (elements c) /\ selector e = sel /\
            In DUPLICATE_LABEL (flags e).

(** The label map knows destination [h] under the normalized label [k]. *)
Definition knows (m : omap (list string)) (k h : string) : Prop :=
  exists urls, get m k = Some urls /\ In h urls.

Section DuplicateVocabulary.

Variables toLowerCase trim : string -> string.

(** [link] belongs to the evidence supplied for [page]; it has the label
    [lab], which is not blank, and the destination [h], which is not
    empty; and the page has an entry for criterion 6.1, the criterion that
    owns link labels. *)
Definition auditedLink (all : list CollectedEntry) (page : MappedPage)
    (link : LinkData) (lab h : string) : Prop :=
  (exists c, find is61 (criteria page) = Some c) /\
  (exists pageData cd,
      find (fun d => entry_url d =? url page) all = Some pageData /\
      collectedData pageData = Some cd /\ In link (links cd)) /\
  accessibleLabel link = Some lab /\ truthy lab = true /\
  trim lab <> "" /\
  href link = Some h /\ truthy h = true.

(** [page'] is [page] after the aggregation: its entry for criterion 6.1
    carries the duplicate flag on an element for [link], and the status of
    that entry is [violation] if it was [pass] and is unchanged otherwise. *)
Definition carriesDuplicateFlag (page page' : MappedPage) (link : LinkData)
  : Prop :=
  url page' = url page /\
  exists c c',
    find is61 (criteria page) = Some c /\
    find is61 (criteria page') = Some c' /\
    flaggedFor (link_selector link) c' /\
    status c' = upgraded (status c).

End DuplicateVocabulary.

(** The aggregated entry of criterion 6.1 has been upgraded: its status is
    [violation]. *)
Definition aggregateUpgraded (summary : AuditReportSummary) : Prop :=
  forall agg, In agg (sum_criteria summary) ->
              agg_rgaaId agg = "6.1" -> agg_status agg = violation.

End MapperSpec.

Module AnalyzerSpec.

Import JS Analyzer.

(** Every event pushed so far, in order: those handed to the consumer,
    then those still buffered. *)
Definition pushed (p : Pool) : list ProgressEvent :=
  yielded p ++ eventBuffer p.

(** The url a terminal page event closes. *)
Definition terminalFor (ev : ProgressEvent) : option string :=
  match ev with
  | page_complete u _ | page_error u _ => Some u
  | _ => None
  end.

Definition auditingUrls (ws : list WorkerState) : list string :=
  flat_map (fun w => match w with Auditing u => [u] | _ => [] end) ws.

(** The urls whose result is recorded and whose save is under way. *)
Definition savingUrls (ws : list WorkerState) : list string :=
  flat_map (fun w => match w with
                     | Saving u _ | Writing u _ _ => [u]
                     | _ => []
                     end) ws.

Definition isRejected (w : WorkerState) : bool :=
  match w with Rejected => true | _ => false end.

(** A worker that met an exception: rejected, or about to be. *)
Definition hasFailed (w : WorkerState) : bool :=
  match w with Rejected | Closing true => true | _ => false end.

Definition noFailure (p : Pool) : bool :=
  forallb (fun w => negb (hasFailed w)) (workers p).

Abbreviation count := (count_occ string_dec).

(** The stream of a finished run over [urls]: the [page_start] events
    name the urls in input order, each url has exactly as many terminal
    events as it has occurrences in the input, and the stream ends with
    its only [audit_complete]. *)
Definition completeStream (urls : list string)
    (stream : list ProgressEvent) : Prop :=
  startUrls stream = urls /\
  Permutation (terminalUrls stream) urls /\
  List.length (startUrls stream) = List.length urls /\
  List.length (terminalUrls stream) = List.length urls /\
  countAuditComplete stream = 1%nat /\
  exists body summary,
    stream = body ++ [audit_complete summary] /\
    countAuditComplete body = 0%nat.

(** The requested concurrency, with its default. *)
Definition requested (options : AuditPagesOptions) : number :=
  nullish (maxConcurrent options) (ofZ 2).

(** The requested concurrency is at least [z]. *)
Definition atLeast (z : Z) (options : AuditPagesOptions) : Prop :=
  num_leb (ofZ z) (requested options) = true.

(** The requested concurrency is [z]. *)
Definition exactly (z : Z) (options : AuditPagesOptions) : Prop :=
  num_eqb (requested options) (ofZ z) = true.

(** An upper bound on the number of transitions of a run. *)
Definition runBound (urls : list string) : nat :=
  6 * List.length urls + 3.

(** The session invariant of the specification. *)
Definition sessionInvariant (urls : list string) (s : SessionState) : Prop :=
  Permutation (completedPages s ++ pendingPages s) urls /\
  NoDup (completedPages s ++ pendingPages s) /\
  forall u, In u (completedPages s) -> exists r, get (results s) u = Some r.

(** The same, with an entry of [results] for every completed url but
    [__proto__], which names no property of its own. *)
Definition sessionInvariantOwn (urls : list string) (s : SessionState)
  : Prop :=
  Permutation (completedPages s ++ pendingPages s) urls /\
  NoDup (completedPages s ++ pendingPages s) /\
  forall u, In u (completedPages s) -> u <> "__proto__" ->
            exists r, get (results s) u = Some r.

(** Urls persisted and urls whose terminal event was pushed, as a trace
    records them. *)
Definition persistedUrls (tr : list Action) : list string :=
  flat_map (fun a => match a with Persisted u _ => [u] | _ => [] end) tr.

Definition pushedOf (tr : list Action) : list ProgressEvent :=
  flat_map (fun a => match a with Pushed ev => [ev] | _ => [] end) tr.

Definition emittedUrls (tr : list Action) : list string :=
  terminalUrls (pushedOf tr).

(** The order the code follows: a terminal event is pushed right after
    the url was moved and its result stored... *)
Definition emitInBlock (tr : list Action) : Prop :=
  forall t1 ev t2 u,
    tr = t1 ++ Pushed ev :: t2 -> terminalFor ev = Some u ->
    exists t0, t1 = t0 ++ [Moved u; Stored u].

(** ... and each replacement of the session file on behalf of a page comes
    after that page's terminal event was pushed. *)
Definition persistAfterEmit (tr : list Action) : Prop :=
  forall t1 u snapshot t2,
    tr = t1 ++ Persisted u snapshot :: t2 ->
    (count (persistedUrls t1) u < count (emittedUrls t1) u)%nat.


(** Weights for the termination measure. *)
Definition weight (w : WorkerState) : nat :=
  match w with
  | Auditing _ => 5
  | Saving _ _ => 3
  | Writing _ _ _ => 2
  | Closing _ => 1
  | Resolved | Rejected => 0
  end.

Definition measure (p : Pool) : nat :=
  6 * List.length (urlQueue p)
  + list_sum (map weight (workers p))
  + List.length (eventBuffer p)
  + (if allDone p then 0 else 2)
  + (if returned p then 0 else 1).

(** What holds of the queue, the events and the workers in every state
    of a run over [urls]. *)
Definition streamInv (urls : list string) (p : Pool) : Prop :=
  startUrls (pushed p) ++ urlQueue p = urls /\
  (noFailure p = true ->
   forall u, (count (terminalUrls (pushed p)) u
              + count (auditingUrls (workers p)) u
              = count (startUrls (pushed p)) u)%nat) /\
  (existsb isResolved (workers p) = true -> urlQueue p = []) /\
  (allDone p = false -> countAuditComplete (pushed p) = 0%nat) /\
  (allDone p = true ->
   forallb isResolved (workers p) = true /\
   exists body summary,
     pushed p = body ++ [audit_complete summary] /\
     countAuditComplete body = 0%nat) /\
  (returned p = true -> allDone p = true /\ eventBuffer p = []).

(** What holds of the session, the queue and the workers in every state of
    a run over distinct [urls]. *)
Definition sessInv (urls : list string) (p : Pool) : Prop :=
  sessionInvariantOwn urls (state p) /\
  NoDup (auditingUrls (workers p) ++ urlQueue p) /\
  incl (auditingUrls (workers p) ++ urlQueue p) (pendingPages (state p)).

(** What holds of the trace in every state of a run. *)
Definition traceInv (p : Pool) : Prop :=
  pushedOf (trace p) = pushed p /\
  emitInBlock (trace p) /\
  persistAfterEmit (trace p) /\
  (forall u, (count (persistedUrls (trace p)) u
              + count (savingUrls (workers p)) u
              <= count (emittedUrls (trace p)) u)%nat) /\
  (noFailure p = true ->
   forall u, (count (persistedUrls (trace p)) u
              + count (savingUrls (workers p)) u
              = count (emittedUrls (trace p)) u)%nat).

End AnalyzerSpec.


(* ------------------------------------------------------------------ *)
(** ** Vocabulary for the evaluator, the summary and the detection *)
(* ------------------------------------------------------------------ *)

Module PageSpec.

Import JS Mapper MapperSpec.

(** What [mapCriterion] copies from the catalog, and the evidence it
    attaches. *)
Definition fromCatalog (collected : option CollectedData)
    (criterion : RgaaCriterion) (mc : MappedCriterion) : Prop :=
  rgaaId mc = rgaa_id criterion /\
  title mc = rgaa_title criterion /\
  theme mc = rgaa_theme criterion /\
  notes mc = limits criterion /\
  manualChecks mc = dataCollectorFlags criterion /\
  elements mc = extractElements criterion collected.

End PageSpec.

Module SummarySpec.

Import JS Mapper MapperSpec.

(** The page list of an aggregate that belongs to a status. *)
Definition pagesOf (st : CriterionStatus) (agg : AggregatedCriterion)
  : list string :=
  match st with
  | violation => pagesViolating agg
  | pass => pagesPass agg
  | manual => pagesManual agg
  | incomplete => pagesIncomplete agg
  end.

(** The classifications of criterion [id], over all pages. *)
Definition classificationsOf (id : string) (pages : list MappedPage)
  : list (string * MappedCriterion) :=
  filter (fun uc => rgaaId (snd uc) =? id) (flat_map entriesOf pages).

(** The top issue an aggregate gives rise to. *)
Definition issueOf (agg : AggregatedCriterion) : TopIssue :=
  {| top_rgaaId := agg_rgaaId agg;
     top_title := agg_title agg;
     pagesAffected := List.length (pagesViolating agg) |}.

(** [a] is ranked no lower than [b]. *)
Definition outranks (a b : TopIssue) : Prop :=
  (pagesAffected b <= pagesAffected a)%nat.

(** The comparison [computeTopIssues] sorts by: more pages first. *)
Definition byPages (a b : AggregatedCriterion) : bool :=
  (List.length (pagesViolating b) <=? List.length (pagesViolating a))%nat.

End SummarySpec.

Module DetectSpec.

Import JS Mapper MapperSpec.

(** [els'] is [els] after some duplicate flags were added: the elements of
    [els] are still there, in place and under their selector, each with
    its flags as they were or followed by [DUPLICATE_LABEL]; what comes
    after them is new and carries [DUPLICATE_LABEL] only. *)
Inductive grown : list Element -> list Element -> Prop :=
  | grown_new added :
      Forall (fun e => flags e = [DUPLICATE_LABEL]) added ->
      grown [] added
  | grown_kept e e' els els' :
      selector e' = selector e ->
      flags e' = flags e \/ flags e' = flags e ++ [DUPLICATE_LABEL] ->
      grown els els' ->
      grown (e :: els) (e' :: els').

(** [c'] is the entry [c] as the detection may leave it. *)
Definition keptCriterion (c c' : MappedCriterion) : Prop :=
  rgaaId c' = rgaaId c /\ title c' = title c /\ theme c' = theme c /\
  violations c' = violations c /\ incompletes c' = incompletes c /\
  notes c' = notes c /\ manualChecks c' = manualChecks c /\
  (status c' = status c \/ (status c = pass /\ status c' = violation)) /\
  (status c' <> status c ->
   exists e, In e (elements c') /\ In DUPLICATE_LABEL (flags e)) /\
  (rgaaId c <> "6.1" -> c' = c) /\
  grown (elements c) (elements c').

Definition keptPage (page page' : MappedPage) : Prop :=
  url page' = url page /\
  Forall2 keptCriterion (criteria page) (criteria page').

Section Vocabulary.

Variables toLowerCase trim : string -> string.

(** [link] is a link of the evidence, with a label that is not blank and
    a destination that is not empty: the first loop of the detection
    records [h] under the normalized [lab]. *)
Definition recorded (all : list CollectedEntry)
    (link : LinkData) (lab h : string) : Prop :=
  (exists entry cd, In entry all /\ collectedData entry = Some cd /\
                    In link (links cd)) /\
  accessibleLabel link = Some lab /\ truthy lab = true /\
  trim lab <> "" /\
  href link = Some h /\ truthy h = true.

(** Destination [h] was met under the normalized label [k]. *)
Definition justified (all : list CollectedEntry) (k h : string) : Prop :=
  exists link lab,
    recorded all link lab h /\ normalizeLabel toLowerCase trim lab = k.

(** Every destination the label map holds was met under its label, once. *)
Definition soundMap (all : list CollectedEntry) (m : omap (list string))
  : Prop :=
  NoDup (keys m) /\
  forall k urls, get m k = Some urls ->
                 NoDup urls /\ forall h, In h urls -> justified all k h.

(** No label of the evidence leads to two destinations. *)
Definition labelsUnambiguous (all : list CollectedEntry) : Prop :=
  forall link1 link2 lab1 lab2 h1 h2,
    recorded all link1 lab1 h1 -> recorded all link2 lab2 h2 ->
    normalizeLabel toLowerCase trim lab1
    = normalizeLabel toLowerCase trim lab2 ->
    h1 = h2.

End Vocabulary.

End DetectSpec.

(* ------------------------------------------------------------------ *)
(** ** Vocabulary for the stream, the session and the session file *)
(* ------------------------------------------------------------------ *)

Module StreamSpec.

Import JS Analyzer AnalyzerSpec.

(** [P] holds of every prefix of [evs]: of the stream as it stood after
    each push. *)
Definition everyPrefix (P : list ProgressEvent -> Prop)
    (evs : list ProgressEvent) : Prop :=
  forall evs1 evs2, evs = evs1 ++ evs2 -> P evs1.

(** No url has more terminal events than [page_start] events. *)
Definition startedFirst (evs : list ProgressEvent) : Prop :=
  forall u, (count (terminalUrls evs) u <= count (startUrls evs) u)%nat.

(** At most [n] pages are started and not finished. *)
Definition inFlightAtMost (n : nat) (evs : list ProgressEvent) : Prop :=
  (List.length (startUrls evs) <= List.length (terminalUrls evs) + n)%nat.

(** A worker that accounts for a page that is started and not finished:
    it audits the page, or it failed. *)
Definition owes (w : WorkerState) : nat :=
  match w with
  | Auditing _ | Closing true | Rejected => 1
  | _ => 0
  end.

Definition owed (ws : list WorkerState) : nat := list_sum (map owes ws).

Definition flightInv (p : Pool) : Prop :=
  (forall u, (count (terminalUrls (pushed p)) u
              + count (auditingUrls (workers p)) u
              <= count (startUrls (pushed p)) u)%nat) /\
  (List.length (startUrls (pushed p))
   <= List.length (terminalUrls (pushed p)) + owed (workers p))%nat /\
  everyPrefix startedFirst (pushed p) /\
  everyPrefix (inFlightAtMost (List.length (workers p))) (pushed p).

End StreamSpec.

Module FailureSpec.

Import JS Analyzer AnalyzerSpec.

(** The events a trace records as handed to the consumer. *)
Definition yieldedOf (tr : list Action) : list ProgressEvent :=
  flat_map (fun a => match a with Yielded ev => [ev] | _ => [] end) tr.

(** The consumer received what the trace records as handed over. *)
Definition handedInv (p : Pool) : Prop := yieldedOf (trace p) = yielded p.

End FailureSpec.

Module SessionSpec.

Import JS Analyzer AnalyzerSpec.

Definition isPageError (ev : ProgressEvent) : bool :=
  match ev with page_error _ _ => true | _ => false end.

Definition isPageComplete (ev : ProgressEvent) : bool :=
  match ev with page_complete _ _ => true | _ => false end.

Definition isTerminal (ev : ProgressEvent) : bool :=
  match ev with
  | page_complete _ _ | page_error _ _ => true
  | _ => false
  end.

(** The number of [page_error] events of a stream. *)
Definition pageErrors (evs : list ProgressEvent) : nat :=
  List.length (filter isPageError evs).

Definition pageCompletes (evs : list ProgressEvent) : nat :=
  List.length (filter isPageComplete evs).

(** The terminal event pushed for an entry of [results]. *)
Definition eventOf (kv : string * PageResult) : ProgressEvent :=
  terminalEvent (fst kv) (snd kv).

(** A url that names a property of its own in [results]: any but
    [__proto__]. *)
Definition ownUrl (u : string) : bool := negb (u =? "__proto__").

(** The terminal events of the urls that have an entry of their own. *)
Definition isStored (ev : ProgressEvent) : bool :=
  match ev with
  | page_complete u _ | page_error u _ => ownUrl u
  | _ => false
  end.

Definition storedEvents (evs : list ProgressEvent) : list ProgressEvent :=
  filter isStored evs.

(** A url that is no array index: its entry comes after the entries
    created before it. *)
Definition plainUrl (u : string) : Prop := arrayIndex u = None.

(** What holds of the session in every state of a run. *)
Definition trackInv (urls : list string) (options : AuditPagesOptions)
    (now : string) (p : Pool) : Prop :=
  completedPages (state p) = terminalUrls (pushed p) /\
  (totalPages (state p) = List.length urls /\
   sessionId (state p) = opt_sessionId options /\
   startedAt (state p) = now) /\
  (forall u, In u (completedPages (state p)) -> u <> "__proto__" ->
             exists r, get (results (state p)) u = Some r) /\
  (noFailure p = true ->
   incl (pendingPages (state p))
        (auditingUrls (workers p) ++ urlQueue p)) /\
  (NoDup (keys (results (state p))) /\
   incl (keys (results (state p))) (completedPages (state p))) /\
  Forall (fun kv => pr_url (snd kv) = fst kv) (results (state p)) /\
  (allDone p = true ->
   exists body now',
     pushed p
     = body ++ [audit_complete
                  (summaryOf (List.length urls) (state p) now')]).

(** With distinct urls, the entries of [results] are those of the stored
    terminal events... *)
Definition orderInv (p : Pool) : Prop :=
  Permutation (map eventOf (results (state p))) (storedEvents (pushed p)).

(** ... in the order of the events when no url is an array index. *)
Definition inOrderInv (p : Pool) : Prop :=
  map eventOf (results (state p)) = storedEvents (pushed p).

(** One worker: what the session file holds. *)
Definition soloOk (p : Pool) (w : WorkerState) : Prop :=
  match w with
  | Writing _ _ snapshot => snapshot = state p
  | Auditing _ | Closing false | Resolved =>
      durable p = Some (state p) \/
      (completedPages (state p) = [] /\ durable p = None)
  | _ => True
  end.

Definition soloInv (p : Pool) : Prop :=
  List.length (workers p) = 1%nat -> Forall (soloOk p) (workers p).

End SessionSpec.

Module ReportSpec.

Import JS Analyzer.

(** The urls of the [page_complete] events of a stream, in order. *)
Definition completeUrls (evs : list ProgressEvent) : list string :=
  flat_map (fun ev => match ev with page_complete u _ => [u] | _ => [] end)
           evs.

End ReportSpec.

(* ------------------------------------------------------------------ *)
(** ** Vocabulary for the collected data *)
(* ------------------------------------------------------------------ *)

Module CollectorSpec.

Import JS DataCollector.

(** Heading [b] skips a level after heading [a]. *)
Definition skipsAfter (a b : RawHeading) : bool :=
  (rh_level b >? rh_level a + 1)%Z.

(** The flags of the heading that follows [prev]. *)
Definition skipFlagsOf (prev : option RawHeading) (h : RawHeading)
  : list Mapper.HeadingFlag :=
  match prev with
  | Some a =>
      if skipsAfter a h
      then [Mapper.FlagSkip LEVEL_SKIP (rh_level a) (rh_level h)]
      else []
  | None => []
  end.

(** The headings of a document with their flags. *)
Fixpoint flagged (prev : option RawHeading) (hs : list RawHeading)
  : list Mapper.HeadingData :=
  match hs with
  | [] => []
  | h :: hs' => plainHeading h (skipFlagsOf prev h) :: flagged (Some h) hs'
  end.

(** Some heading of the document skips a level. *)
Fixpoint anySkip (prev : option RawHeading) (hs : list RawHeading) : bool :=
  match hs with
  | [] => false
  | h :: hs' =>
      match prev with Some a => skipsAfter a h | None => false end
      || anySkip (Some h) hs'
  end.

(** [if (!pageFlags.includes('LEVEL_SKIP')) pageFlags.push('LEVEL_SKIP')]. *)
Definition addSkip (pageFlags : list string) : list string :=
  if includes pageFlags LEVEL_SKIP then pageFlags
  else pageFlags ++ [LEVEL_SKIP].

Definition isSkipped (h : Mapper.HeadingData) : bool :=
  match Mapper.h_flags h with [] => false | _ :: _ => true end.

Definition carries (flag : string) (e : Mapper.Element) : bool :=
  includes (Mapper.flags e) flag.

End CollectorSpec.

Module HeadingSpec.

Import JS DataCollector CollectorSpec.

(** The heading before the [i]-th one, if any. *)
Definition previousOf (hs : list RawHeading) (i : nat) : option RawHeading :=
  match i with
  | O => None
  | S j => nth_error hs j
  end.

(** The evidence element of a heading that skips a level. *)
Definition skipElement (heading : Mapper.HeadingData) : Mapper.Element :=
  {| Mapper.selector := Mapper.h_selector heading;
     Mapper.flags := [LEVEL_SKIP] |}.

End HeadingSpec.

(* ------------------------------------------------------------------ *)
(** ** Worked data, in the shape of the repository's tests *)
(* ------------------------------------------------------------------ *)

Module Examples.

Import JS Mapper.

Definition criterion11 : RgaaCriterion :=
  {| rgaa_id := "1.1"; rgaa_title := "Images"; rgaa_theme := "Images";
     axeRules := ["image-alt"]; evaluationStrategy := "ANY_VIOLATION";
     dataCollectorFlags := ["ALT_ABSENT"; "ALT_GENERIC"];
     limits := "" |}.

Definition criterion61 : RgaaCriterion :=
  {| rgaa_id := "6.1"; rgaa_title := "Liens"; rgaa_theme := "Liens";
     axeRules := ["link-name"]; evaluationStrategy := "ANY_VIOLATION";
     dataCollectorFlags := ["EMPTY_LABEL"; "GENERIC_LABEL"];
     limits := "" |}.

Definition criterion86 : RgaaCriterion :=
  {| rgaa_id := "8.6"; rgaa_title := "Titre de page";
     rgaa_theme := "Elements obligatoires";
     axeRules := ["document-title"]; evaluationStrategy := "MANUAL_ONLY";
     dataCollectorFlags := ["TITLE_ABSENT"; "TITLE_GENERIC"];
     limits := "" |}.

Definition criterion91 : RgaaCriterion :=
  {| rgaa_id := "9.1"; rgaa_title := "Titres";
     rgaa_theme := "Structuration";
     axeRules := ["heading-order"; "page-has-heading-one"; "empty-heading"];
     evaluationStrategy := "ALL_PASS";
     dataCollectorFlags := ["NO_H1"; "LEVEL_SKIP"];
     limits := "" |}.

Definition exampleMapping : RgaaMapping :=
  {| version := "4.1";
     mapping_criteria :=
       [criterion11; criterion61; criterion86; criterion91] |}.

Definition headingsOk : HeadingTree :=
  {| documentTitle := "Test Page";
     tree_headings :=
       [{| h_level := 1; h_text := "Title"; h_selector := "h1";
           h_flags := [] |}];
     tree_flags := [] |}.

Definition link1 : LinkData :=
  {| link_selector := "a[href=/page1]";
     accessibleLabel := Some "Lire la suite";
     href := Some "/article-1";
     link_flags := ["GENERIC_LABEL"] |}.

Definition link2 : LinkData :=
  {| link_selector := "a[href=/page2]";
     accessibleLabel := Some " lire la SUITE ";
     href := Some "/article-2";
     link_flags := [] |}.

(** The heading tree of the repository's test of criterion 8.6: a generic
    document title. *)
Definition headingsGenericTitle : HeadingTree :=
  {| documentTitle := "accueil";
     tree_headings := [];
     tree_flags := ["TITLE_GENERIC"] |}.

Definition collectedGenericTitle : CollectedData :=
  {| images := []; links := []; headings := headingsGenericTitle |}.

(** The rule-engine result of that test: [document-title] passes. *)
Definition titlePasses : AnalyzeResult :=
  EngineResult []
    [{| p_rule := "document-title"; p_description := "ok" |}] [].

Definition collected1 : CollectedData :=
  {| images := []; links := [link1]; headings := headingsOk |}.

Definition collected2 : CollectedData :=
  {| images := []; links := [link2]; headings := headingsOk |}.

Definition url1 : string := "http://example.com/page1".
Definition url2 : string := "http://example.com/page2".

Definition allCollected : list CollectedEntry :=
  [{| entry_url := url1; collectedData := Some collected1 |};
   {| entry_url := url2; collectedData := Some collected2 |}].

(** A rule-engine result without any finding. *)
Definition noFinding : AnalyzeResult := EngineResult [] [] [].

(** What [mapPageResults] returns, or a page without criteria had it
    thrown (it does not on the data above). *)
Definition mapped (axe : option AnalyzeResult)
    (collected : option CollectedData) (u : string) : MappedPage :=
  match mapPageResults exampleMapping axe collected u with
  | Returns page => page
  | Throws _ => {| url := u; criteria := [] |}
  end.

Definition page1 : MappedPage := mapped (Some noFinding) (Some collected1) url1.

(** The second page, with a violation of [image-alt]. *)
Definition pageViolating : MappedPage :=
  mapped (Some (EngineResult
                  [{| v_rule := "image-alt"; v_impact := "critical";
                      v_description := "Images must have alternate text";
                      v_helpUrl := "" |}] [] []))
         (Some collected2) url2.
Definition page2 : MappedPage := mapped (Some noFinding) (Some collected2) url2.

Definition imageAltViolation : AxeViolation :=
  {| v_rule := "image-alt"; v_impact := "critical";
     v_description := "Images must have alternate text"; v_helpUrl := "" |}.

End Examples.

Module PoolExamples.

Import JS Analyzer.

Definition optionsFor (n : Z) : AuditPagesOptions :=
  {| maxConcurrent := Some (ofZ n); opt_sessionId := "session" |}.

(** A requested concurrency of 1.5. *)
Definition fractional : AuditPagesOptions :=
  {| maxConcurrent := Some (Finite (QArith_base.Qmake 3 2));
     opt_sessionId := "session" |}.

Definition threeUrls : list string := ["/a"; "/b"; "/c"].

Definition audited : AuditOutcome :=
  Audited Examples.noFinding Examples.collected1.

(** Where a run ends, or where it started if a label does not apply. *)
Definition endOf (ls : list Label) (p : Pool) : Pool :=
  match run ls p with Some p' => p' | None => p end.

(** Three urls, requested concurrency 4: three workers; [/b] finishes
    first, [/a] fails to load, and the consumer reads when all is over. *)
Definition threeStart : Pool := auditPages threeUrls (optionsFor 4) "t0".

Definition threeLabels : list Label :=
  [AuditReturns 1 "t1" audited; MkdirDone 1;
   AuditReturns 0 "t2" (AuditThrew "net::ERR_FAILED");
   RenameDone 1; CloseDone 1;
   MkdirDone 0; RenameDone 0; CloseDone 0;
   AuditReturns 2 "t3" audited; MkdirDone 2; RenameDone 2; CloseDone 2;
   WorkersSettled "t4";
   Yield; Yield; Yield; Yield; Yield; Yield; Yield; Return].

Definition threeEnd : Pool := endOf threeLabels threeStart.

(** One url, one worker, a consumer that reads as soon as it can. *)
Definition oneStart : Pool := auditPages ["/a"] (optionsFor 1) "t0".

Definition oneLabels : list Label :=
  [Yield; AuditReturns 0 "t1" audited; Yield;
   MkdirDone 0; RenameDone 0; CloseDone 0;
   WorkersSettled "t2"; Yield; Return].

Definition oneEnd : Pool := endOf oneLabels oneStart.

(** One url, requested concurrency 0: no worker. *)
Definition idleStart : Pool := auditPages ["/a"] (optionsFor 0) "t0".

Definition idleLabels : list Label := [WorkersSettled "t1"; Yield; Return].

Definition idleEnd : Pool := endOf idleLabels idleStart.

(** Two urls, one worker; the second url is [__proto__] and its page fails
    to load. *)
Definition protoUrls : list string := ["/a"; "__proto__"].

Definition protoStart : Pool := auditPages protoUrls (optionsFor 1) "t0".

Definition protoLabels : list Label :=
  [AuditReturns 0 "t1" audited; MkdirDone 0; RenameDone 0; CloseDone 0;
   AuditReturns 0 "t2" (AuditThrew "invalid url");
   MkdirDone 0; RenameDone 0; CloseDone 0;
   WorkersSettled "t3"; Yield; Yield; Yield; Yield; Yield; Return].

Definition protoEnd : Pool := endOf protoLabels protoStart.

(** Three urls, one worker; two urls are array indices. *)
Definition indexUrls : list string := ["/b"; "7"; "3"].

Definition indexStart : Pool := auditPages indexUrls (optionsFor 1) "t0".

Definition indexLabels : list Label :=
  [AuditReturns 0 "t1" audited; MkdirDone 0; RenameDone 0; CloseDone 0;
   AuditReturns 0 "t2" audited; MkdirDone 0; RenameDone 0; CloseDone 0;
   AuditReturns 0 "t3" audited; MkdirDone 0; RenameDone 0; CloseDone 0;
   WorkersSettled "t4";
   Yield; Yield; Yield; Yield; Yield; Yield; Yield; Return].

Definition indexEnd : Pool := endOf indexLabels indexStart.

(** The same url twice, one worker. *)
Definition twiceUrls : list string := ["/a"; "/a"].

Definition twiceStart : Pool := auditPages twiceUrls (optionsFor 1) "t0".

Definition twiceLabels : list Label :=
  [AuditReturns 0 "t1" audited; MkdirDone 0; RenameDone 0; CloseDone 0;
   AuditReturns 0 "t2" audited; MkdirDone 0; RenameDone 0; CloseDone 0;
   WorkersSettled "t3"; Yield; Yield; Yield; Yield; Yield; Return].

Definition twiceEnd : Pool := endOf twiceLabels twiceStart.

End PoolExamples.


Module CollectorExamples.

Import JS DataCollector.

(** A catalog reading: alternatives longer than 80 code units are too
    long, [image] is a generic alternative, [lire la suite] a generic
    link label and [home] a generic title. *)
Definition jsLength (s : string) : Z := Z.of_nat (String.length s).
Definition genericAltTest (s : string) : bool :=
  AsciiText.toLowerCase s =? "image".
Definition altMaxLength : Z := 80.
Definition genericLabels : list string := ["lire la suite"].
Definition genericTitles : list string := ["home"].

Definition collect : RawPage -> CollectedData :=
  collectAll AsciiText.toLowerCase AsciiText.trim jsLength genericAltTest
             altMaxLength genericLabels genericTitles.

(** A document whose headings go from level 1 to level 3, back to level
    2, and then to level 4. *)
Definition skippingPage : RawPage :=
  {| rawImages :=
       [{| ri_selector := "img.logo"; ri_tagName := "img";
           ri_src := "/logo.png"; altAttribute := None;
           ariaLabel := None; ariaLabelledby := None;
           rolePresentation := false; surroundingText := "";
           parentFigcaption := None; isInLink := false;
           linkHref := None; linkText := None |}];
     rawLinks :=
       [{| rl_selector := "a#more"; rl_tagName := "a";
           rl_accessibleLabel := Some "Lire la suite";
           rl_href := Some "/article-1";
           opensNewWindow := false; hasNewWindowWarning := false |}];
     rawData :=
       {| raw_documentTitle := "Accueil";
          raw_headings :=
            [{| rh_level := 1; rh_text := "Accueil"; rh_selector := "h1" |};
             {| rh_level := 3; rh_text := "Contact";
                rh_selector := "h3#contact" |};
             {| rh_level := 2; rh_text := "Plan"; rh_selector := "h2" |};
             {| rh_level := 4; rh_text := "Note";
                rh_selector := "h4#note" |}] |} |}.

End CollectorExamples.

Module LabelExamples.

Import JS Mapper Examples.

(** The same label on two pages, leading to the same destination. *)
Definition sameDestination : list CollectedEntry :=
  [{| entry_url := url1; collectedData := Some collected1 |};
   {| entry_url := url2; collectedData := Some collected1 |}].

End LabelExamples.

Module FailureExamples.

Import JS Analyzer PoolExamples.

(** Three workers; the save of the session fails for [/b]. *)
Definition failingLabels : list Label :=
  [AuditReturns 1 "t1" audited; MkdirDone 1; SaveFails 1].

Definition failedPool : Pool := endOf failingLabels threeStart.

(** The other workers go on and the consumer reads. *)
Definition laterLabels : list Label :=
  [CloseDone 1; AuditReturns 0 "t2" audited; MkdirDone 0; RenameDone 0;
   CloseDone 0; Yield; Yield; Yield; Yield].

Definition laterPool : Pool := endOf laterLabels failedPool.

End FailureExamples.

(* ------------------------------------------------------------------ *)
(** ** Facts about the built-ins *)
(* ------------------------------------------------------------------ *)

Module JSFacts.

Import JS.

Lemma includes_In (arr : list string) (x : string) :
    includes arr x = true <-> In x arr.
Proof.
    unfold includes. rewrite existsb_exists. split.
    - intros (y & Hy & Heq). apply String.eqb_eq in Heq. now subst.
    - intros H. exists x. split; [assumption | apply String.eqb_refl].
Qed.

Lemma includes_false (arr : list string) (x : string) :
    includes arr x = false <-> ~ In x arr.
Proof.
    rewrite <- includes_In. destruct (includes arr x); split; congruence.
Qed.

Lemma positive_length {A} (l : list A) :
    (0 <? List.length l)%nat = true <-> l <> [].
Proof.
    destruct l; cbn; split; congruence.
Qed.

Lemma filter_nonempty {A} (f : A -> bool) (l : list A) :
    (0 <? List.length (filter f l))%nat = existsb f l.
Proof.
    induction l as [|a l IH]; cbn; [reflexivity|].
    destruct (f a); cbn; [reflexivity | exact IH].
Qed.

Section Omap.

Context {V : Type}.
Implicit Types (m : omap V) (k : string) (v : V).

Lemma get_set_same m k v : get (set m k v) k = Some v.
Proof.
      induction m as [|[k' v'] m IH]; cbn.
      - now rewrite String.eqb_refl.
      - destruct (k' =? k) eqn:E; cbn; rewrite E; [reflexivity | exact IH].
Qed.

Lemma get_set_other m k k' v :
      k' <> k -> get (set m k v) k' = get m k'.
Proof.
      intros Hne. induction m as [|[k0 v0] m IH]; cbn.
      - destruct (k =? k') eqn:E; [|reflexivity].
        apply String.eqb_eq in E. congruence.
      - destruct (k0 =? k) eqn:E; cbn.
        + apply String.eqb_eq in E. subst k0.
          destruct (k =? k') eqn:E'; [|reflexivity].
          apply String.eqb_eq in E'. congruence.
        + now rewrite IH.
Qed.

Lemma get_In m k v : get m k = Some v -> In (k, v) m.
Proof.
      induction m as [|[k' v'] m IH]; cbn; [discriminate|].
      destruct (k' =? k) eqn:E.
      - apply String.eqb_eq in E. intros [= ->]. left. now subst.
      - intros H. right. now apply IH.
Qed.

Lemma get_None_keys m k : get m k = None <-> ~ In k (keys m).
Proof.
      unfold keys.
      induction m as [|[k' v'] m IH]; cbn.
      - tauto.
      - destruct (k' =? k) eqn:E.
        + apply String.eqb_eq in E. split; [discriminate | tauto].
        + apply String.eqb_neq in E. rewrite IH. tauto.
Qed.

Lemma has_keys m k : has m k = true <-> In k (keys m).
Proof.
      unfold has. destruct (get m k) eqn:E.
      - split; [intros _ | reflexivity].
        apply get_In in E. apply (in_map fst) in E. exact E.
      - apply get_None_keys in E. split; [discriminate | tauto].
Qed.

Lemma keys_set m k v :
      keys (set m k v) = if has m k then keys m else keys m ++ [k].
Proof.
      unfold keys, has.
      induction m as [|[k' v'] m IH]; cbn; [reflexivity|].
      destruct (k' =? k) eqn:E; cbn; [reflexivity|].
      rewrite IH. now destruct (get m k).
Qed.

Lemma In_set m k v k' v' :
      NoDup (keys m) ->
      In (k', v') (set m k v) ->
      (k' = k /\ v' = v) \/ (k' <> k /\ In (k', v') m).
Proof.
      unfold keys.
      induction m as [|[k0 v0] m IH]; cbn; intros Hnd Hin.
      - destruct Hin as [[= <- <-]|[]]. now left.
      - inversion Hnd as [|? ? Hnotin Hnd']; subst.
        destruct (k0 =? k) eqn:E.
        + apply String.eqb_eq in E. subst k0.
          destruct Hin as [[= <- <-]|Hin]; [now left|].
          right. split; [|now right].
          intros ->. apply Hnotin. now apply (in_map fst) in Hin.
        + apply String.eqb_neq in E.
          destruct Hin as [[= <- <-]|Hin].
          * right. split; [assumption | now left].
          * destruct (IH Hnd' Hin) as [?|[? ?]]; [now left|].
            right. split; [assumption | now right].
Qed.

Lemma NoDup_keys_set m k v : NoDup (keys m) -> NoDup (keys (set m k v)).
Proof.
      intros Hnd. rewrite keys_set. destruct (has m k) eqn:E; [assumption|].
      apply NoDup_app; [assumption | repeat constructor; intros [] | ].
      intros x Hx [<-|[]].
      apply has_keys in Hx. congruence.
Qed.

Lemma In_get m k v : NoDup (keys m) -> In (k, v) m -> get m k = Some v.
Proof.
      unfold keys.
      induction m as [|[k0 v0] m IH]; cbn; intros Hnd Hin; [contradiction|].
      inversion Hnd as [|? ? Hnotin Hnd']; subst.
      destruct Hin as [[= -> ->]|Hin].
      - now rewrite String.eqb_refl.
      - destruct (k0 =? k) eqn:E.
        + apply String.eqb_eq in E. subst k0.
          exfalso. apply Hnotin. now apply (in_map fst) in Hin.
        + now apply IH.
Qed.

End Omap.

Section Assign.

Context {V : Type}.
Implicit Types (o : omap V) (k : string) (v : V).

Lemma insertIndex_perm n k v o :
  Permutation (insertIndex n k v o) (o ++ [(k, v)]).
Proof.
  induction o as [|[k' v'] o IH]; cbn [insertIndex app]; [reflexivity|].
  assert (H : Permutation ((k, v) :: (k', v') :: o)
                          ((k', v') :: o ++ [(k, v)])).
  { change ((k', v') :: o ++ [(k, v)]) with (((k', v') :: o) ++ [(k, v)]).
    apply Permutation_cons_append. }
  destruct (arrayIndex k') as [n'|]; [|exact H].
  destruct (n' <? n)%N; [|exact H].
  now constructor.
Qed.

Lemma get_insertIndex_same n k v o :
  get o k = None -> get (insertIndex n k v o) k = Some v.
Proof.
  induction o as [|[k' v'] o IH]; cbn [insertIndex get]; intros H.
  - now rewrite String.eqb_refl.
  - destruct (k' =? k) eqn:E; [discriminate|].
    destruct (arrayIndex k') as [n'|];
      [destruct (n' <? n)%N|]; cbn [get];
      rewrite ?E, ?String.eqb_refl; auto.
Qed.

Lemma get_insertIndex_other n k k' v o :
  k' <> k -> get (insertIndex n k v o) k' = get o k'.
Proof.
  intros Hne. apply not_eq_sym, String.eqb_neq in Hne.
  induction o as [|[k0 v0] o IH]; cbn [insertIndex get].
  - now rewrite Hne.
  - destruct (arrayIndex k0) as [n'|];
      [destruct (n' <? n)%N|]; cbn [get]; rewrite ?Hne, ?IH; reflexivity.
Qed.

Lemma assign_proto o v : assign o "__proto__" v = o.
Proof. reflexivity. Qed.

Lemma assign_plain o k v :
  k <> "__proto__" -> arrayIndex k = None -> assign o k v = set o k v.
Proof.
  intros Hk Hi. unfold assign. apply String.eqb_neq in Hk.
  now rewrite Hk, Hi.
Qed.

Lemma get_assign_same o k v :
  k <> "__proto__" -> get (assign o k v) k = Some v.
Proof.
  intros Hk. unfold assign. apply String.eqb_neq in Hk. rewrite Hk.
  destruct (arrayIndex k) as [n|]; [|apply get_set_same].
  unfold has. destruct (get o k) eqn:E; [apply get_set_same|].
  now apply get_insertIndex_same.
Qed.

Lemma get_assign_other o k k' v :
  k' <> k -> get (assign o k v) k' = get o k'.
Proof.
  intros Hne. unfold assign. destruct (k =? "__proto__"); [reflexivity|].
  destruct (arrayIndex k) as [n|]; [|now apply get_set_other].
  destruct (has o k); [now apply get_set_other|].
  now apply get_insertIndex_other.
Qed.

Lemma set_absent o k v : get o k = None -> set o k v = o ++ [(k, v)].
Proof.
  induction o as [|[k' v'] o IH]; cbn; intros H; [reflexivity|].
  destruct (k' =? k); [discriminate|]. now rewrite IH.
Qed.

(** A new key other than [__proto__] adds one entry. *)
Lemma assign_absent_perm o k v :
  k <> "__proto__" -> get o k = None ->
  Permutation (assign o k v) (o ++ [(k, v)]).
Proof.
  intros Hk Hg. unfold assign. apply String.eqb_neq in Hk. rewrite Hk.
  unfold has. rewrite Hg.
  destruct (arrayIndex k) as [n|].
  - apply insertIndex_perm.
  - now rewrite set_absent.
Qed.

(** A new key that is no array index comes last. *)
Lemma assign_absent_last o k v :
  k <> "__proto__" -> arrayIndex k = None -> get o k = None ->
  assign o k v = o ++ [(k, v)].
Proof.
  intros Hk Hi Hg. rewrite assign_plain by assumption. now apply set_absent.
Qed.

Lemma In_assign o k v k' v' :
  In (k', v') (assign o k v) -> (k' = k /\ v' = v) \/ In (k', v') o.
Proof.
  unfold assign. destruct (k =? "__proto__"); [now right|].
  assert (Hset : In (k', v') (set o k v) ->
                 (k' = k /\ v' = v) \/ In (k', v') o).
  { clear. induction o as [|[k0 v0] o IH]; cbn.
    - intros [[= <- <-]|[]]. now left.
    - destruct (k0 =? k) eqn:E.
      + apply String.eqb_eq in E. subst k0.
        intros [[= <- <-]|H]; [now left | right; now right].
      + intros [H|H]; [right; now left|].
        destruct (IH H) as [?|?]; [now left | right; now right]. }
  destruct (arrayIndex k) as [n|]; [|exact Hset].
  destruct (has o k); [exact Hset|].
  intros H. apply (Permutation_in _ (insertIndex_perm n k v o)) in H.
  apply in_app_or in H. destruct H as [H|[[= <- <-]|[]]];
    [now right | now left].
Qed.

Lemma keys_assign o k v x :
  In x (keys (assign o k v)) -> x = k \/ In x (keys o).
Proof.
  unfold keys. intros H. apply in_map_iff in H.
  destruct H as ([k' v'] & <- & H). cbn.
  apply In_assign in H. destruct H as [[-> _]|H]; [now left|].
  right. now apply (in_map fst) in H.
Qed.

Lemma NoDup_keys_assign o k v :
  NoDup (keys o) -> NoDup (keys (assign o k v)).
Proof.
  intros Hnd. unfold assign. destruct (k =? "__proto__"); [assumption|].
  destruct (arrayIndex k) as [n|]; [|now apply NoDup_keys_set].
  destruct (has o k) eqn:E; [now apply NoDup_keys_set|].
  assert (Hk : ~ In k (keys o)).
  { intros H. apply has_keys in H. congruence. }
  unfold keys in *.
  apply (Permutation_NoDup
           (Permutation_map fst
              (Permutation_sym (insertIndex_perm n k v o)))).
  rewrite map_app. cbn.
  apply NoDup_app; [assumption | repeat constructor; intros [] |].
  intros x Hx [<-|[]]. now apply Hk.
Qed.

Lemma assign_Forall (P : string * V -> Prop) o k v :
  Forall P o -> P (k, v) -> Forall P (assign o k v).
Proof.
  intros H Hk. apply Forall_forall. intros [k' v'] Hin.
  apply In_assign in Hin. destruct Hin as [[-> ->]|Hin]; [assumption|].
  now apply (proj1 (Forall_forall _ _) H).
Qed.

End Assign.

(** *** Numbers *)

Lemma ofZ_ltb a b : num_ltb (ofZ a) (ofZ b) = (a <? b)%Z.
Proof.
  unfold num_ltb, ofZ, QArith_base.Qle_bool. cbn.
  rewrite !Z.mul_1_r. now rewrite Z.ltb_antisym.
Qed.

Lemma ofZ_leb a b : num_leb (ofZ a) (ofZ b) = (a <=? b)%Z.
Proof.
  unfold num_leb, ofZ, QArith_base.Qle_bool. cbn.
  now rewrite !Z.mul_1_r.
Qed.

Lemma finite_ltb a n d :
  num_ltb (ofZ a) (Finite (QArith_base.Qmake n d)) = (a * Z.pos d <? n)%Z.
Proof.
  unfold num_ltb, ofZ, QArith_base.Qle_bool. cbn.
  now rewrite Z.mul_1_r, Z.ltb_antisym.
Qed.

(** [<] is downward closed on the left, over the integers. *)
Lemma num_ltb_below a b c :
  (a <= b)%Z -> num_ltb (ofZ b) c = true -> num_ltb (ofZ a) c = true.
Proof.
  intros Hab. destruct c as [| | |[n d]]; try (cbn; congruence).
  rewrite !finite_ltb, !Z.ltb_lt. nia.
Qed.

Lemma math_min_ofZ x y :
  math_min x (ofZ y)
  = match x with
    | NaN => NaN
    | _ => if num_ltb (ofZ y) x then ofZ y else x
    end.
Proof. now destruct x. Qed.

(** Below the minimum is below both. *)
Lemma num_ltb_min a x y :
  num_ltb (ofZ a) (math_min x (ofZ y))
  = num_ltb (ofZ a) x && (a <? y)%Z.
Proof.
  rewrite math_min_ofZ.
  destruct x as [| | |[n d]]; try reflexivity.
  - change (num_ltb (ofZ y) Infinity) with true. cbn [andb].
    change (num_ltb (ofZ a) Infinity) with true. apply ofZ_ltb.
  - rewrite !finite_ltb.
    destruct (y * Z.pos d <? n)%Z eqn:E; rewrite ?ofZ_ltb, ?finite_ltb.
    + apply Z.ltb_lt in E.
      destruct (a <? y)%Z eqn:E2; [|now rewrite andb_false_r].
      rewrite andb_true_r. symmetry. apply Z.ltb_lt in E2.
      apply Z.ltb_lt. nia.
    + apply Z.ltb_ge in E.
      destruct (a * Z.pos d <? n)%Z eqn:E2; [|reflexivity].
      cbn [andb]. symmetry. apply Z.ltb_lt in E2. apply Z.ltb_lt. nia.
Qed.

Lemma num_leb_ltb a b c :
  (a < b)%Z -> num_leb (ofZ b) c = true -> num_ltb (ofZ a) c = true.
Proof.
  intros Hab. destruct c as [| | |[n d]]; try (cbn; congruence).
  rewrite finite_ltb. unfold num_leb, ofZ, QArith_base.Qle_bool. cbn.
  rewrite Z.mul_1_r, Z.leb_le, Z.ltb_lt. nia.
Qed.

Lemma num_eqb_ltb a z c :
  num_eqb c (ofZ z) = true -> num_ltb (ofZ a) c = (a <? z)%Z.
Proof.
  destruct c as [| | |[n d]]; try (cbn; congruence).
  rewrite finite_ltb. unfold num_eqb, ofZ, QArith_base.Qeq_bool. cbn.
  rewrite Z.mul_1_r. intros H. apply Z.eqb_eq in H. subst n.
  destruct (a <? z)%Z eqn:E.
  - apply Z.ltb_lt in E. apply Z.ltb_lt. nia.
  - apply Z.ltb_ge in E. apply Z.ltb_ge. nia.
Qed.

End JSFacts.

(* ------------------------------------------------------------------ *)
(** ** The criterion evaluator *)
(* ------------------------------------------------------------------ *)

Module EvaluatorFacts.

Import JS Mapper MapperSpec JSFacts.

Lemma extractFlagged_matches criterion sel fl :
  Forall (matchesFlagSet criterion)
         (extractFlagged (dataCollectorFlags criterion) sel fl).
Proof.
  unfold extractFlagged.
  destruct (filter (includes (dataCollectorFlags criterion)) fl)
    as [|f fs] eqn:E; constructor; [|constructor].
  split; cbn; [discriminate|].
  intros x Hx. rewrite <- E in Hx. apply filter_In in Hx.
  now apply includes_In.
Qed.

Lemma extractHeading_matches criterion heading :
  Forall (matchesFlagSet criterion)
         (extractHeading (dataCollectorFlags criterion) heading).
Proof.
  unfold extractHeading. apply Forall_flat_map, Forall_forall.
  intros flag _.
  destruct (includes (dataCollectorFlags criterion) (flagName flag)) eqn:E;
    constructor; [|constructor].
  split; cbn; [discriminate|].
  intros x [<-|[]]. now apply includes_In.
Qed.

Lemma extractPageFlag_matches criterion elems flag :
  Forall (matchesFlagSet criterion) elems ->
  Forall (matchesFlagSet criterion)
         (extractPageFlag (dataCollectorFlags criterion) elems flag).
Proof.
  intros H. unfold extractPageFlag.
  destruct (includes (dataCollectorFlags criterion) flag) eqn:E; [|exact H].
  destruct (existsb _ elems); [exact H|].
  apply Forall_app. split; [exact H|]. constructor; [|constructor].
  split; cbn; [discriminate|].
  intros x [<-|[]]. now apply includes_In.
Qed.

(** Evidence collection is total, and every element it attaches carries
    only flags of the criterion's flag set, at least one. *)
Lemma extractElements_matches criterion collected :
  Forall (matchesFlagSet criterion) (extractElements criterion collected).
Proof.
  destruct collected as [cd|]; cbn; [|constructor].
  assert (Hfold : forall fl elems,
             Forall (matchesFlagSet criterion) elems ->
             Forall (matchesFlagSet criterion)
                    (fold_left
                       (extractPageFlag (dataCollectorFlags criterion))
                       fl elems)).
  { induction fl as [|f fl IH]; cbn; intros elems H; [exact H|].
    apply IH. now apply extractPageFlag_matches. }
  apply Hfold. rewrite !Forall_app. repeat split.
  - apply Forall_flat_map, Forall_forall. intros img _.
    apply extractFlagged_matches.
  - apply Forall_flat_map, Forall_forall. intros link _.
    apply extractFlagged_matches.
  - apply Forall_flat_map, Forall_forall. intros h _.
    apply extractHeading_matches.
Qed.

(** *** The evidence is attached in full *)

Lemma extractFlagged_matching criterion sel fl :
  extractFlagged (dataCollectorFlags criterion) sel fl
  = match matching criterion fl with
    | [] => []
    | _ :: _ => [{| selector := sel; flags := matching criterion fl |}]
    end.
Proof. reflexivity. Qed.

Lemma extractFlagged_In criterion sel fl e :
  In e (extractFlagged (dataCollectorFlags criterion) sel fl) <->
  matching criterion fl <> [] /\
  e = {| selector := sel; flags := matching criterion fl |}.
Proof.
  rewrite extractFlagged_matching.
  destruct (matching criterion fl) as [|f fs]; cbn.
  - split; [intros [] | intros [H _]; now apply H].
  - split.
    + intros [<-|[]]. split; [discriminate | reflexivity].
    + intros [_ ->]. now left.
Qed.

Lemma extractHeading_In criterion heading e :
  In e (extractHeading (dataCollectorFlags criterion) heading) <->
  exists flag,
    In flag (h_flags heading) /\
    In (flagName flag) (dataCollectorFlags criterion) /\
    e = {| selector := h_selector heading; flags := [flagName flag] |}.
Proof.
  unfold extractHeading. rewrite in_flat_map. split.
  - intros (flag & Hf & He).
    destruct (includes (dataCollectorFlags criterion) (flagName flag)) eqn:E;
      [|destruct He].
    destruct He as [<-|[]]. exists flag. repeat split; [assumption|].
    now apply includes_In.
  - intros (flag & Hf & Hr & ->). exists flag. split; [assumption|].
    apply includes_In in Hr. rewrite Hr. now left.
Qed.

Lemma extractPageFlag_keeps relevant elems flag e :
  In e elems -> In e (extractPageFlag relevant elems flag).
Proof.
  intros H. unfold extractPageFlag.
  destruct (includes relevant flag); [|assumption].
  destruct (existsb _ elems); [assumption|].
  apply in_or_app. now left.
Qed.

Lemma extractPageFlags_keep relevant fl : forall elems e,
  In e elems -> In e (fold_left (extractPageFlag relevant) fl elems).
Proof.
  induction fl as [|f fl IH]; cbn [fold_left]; intros elems e H;
    [assumption|].
  apply IH. now apply extractPageFlag_keeps.
Qed.

Lemma extractPageFlag_carries relevant elems flag :
  includes relevant flag = true ->
  exists e, In e (extractPageFlag relevant elems flag) /\ In flag (flags e).
Proof.
  intros Hr. unfold extractPageFlag. rewrite Hr.
  destruct (existsb _ elems) eqn:E.
  - apply existsb_exists in E. destruct E as (e & He & Hf).
    exists e. split; [assumption | now apply includes_In].
  - exists {| selector := "document"; flags := [flag] |}. split.
    + apply in_or_app. right. now left.
    + now left.
Qed.

Lemma extractPageFlags_carry relevant fl : forall elems flag,
  In flag fl -> includes relevant flag = true ->
  exists e, In e (fold_left (extractPageFlag relevant) fl elems) /\
            In flag (flags e).
Proof.
  induction fl as [|f fl IH]; cbn [fold_left]; intros elems flag H Hr;
    [destruct H|].
  destruct H as [<-|H].
  - destruct (extractPageFlag_carries relevant elems f Hr) as (e & He & Hf).
    exists e. split; [now apply extractPageFlags_keep | assumption].
  - now apply IH.
Qed.

Lemma extractPageFlags_origin relevant fl : forall elems e,
  In e (fold_left (extractPageFlag relevant) fl elems) ->
  In e elems \/
  exists flag, In flag fl /\ includes relevant flag = true /\
               e = {| selector := "document"; flags := [flag] |}.
Proof.
  induction fl as [|f fl IH]; cbn [fold_left]; intros elems e H;
    [now left|].
  apply IH in H. destruct H as [H|(flag & Hf & Hr & ->)].
  - unfold extractPageFlag in H.
    destruct (includes relevant f) eqn:Hr; [|now left].
    destruct (existsb _ elems); [now left|].
    apply in_app_or in H. destruct H as [H|[<-|[]]]; [now left|].
    right. exists f. repeat split; [now left | assumption].
  - right. exists flag. repeat split; [now right | assumption].
Qed.

(** What [extractElements] attaches is the evidence of the criterion, all
    of it and nothing else. *)
Lemma extractElements_attached criterion collected :
  attached criterion collected (extractElements criterion collected).
Proof.
  destruct collected as [cd|]; [|reflexivity].
  unfold attached, extractElements. cbv zeta.
  set (relevant := dataCollectorFlags criterion).
  set (base := _ ++ _ ++ _).
  assert (Himg : forall img,
             In img (images cd) ->
             matching criterion (img_flags img) <> [] ->
             In {| selector := img_selector img;
                   flags := matching criterion (img_flags img) |} base).
  { intros img Hin Hm. unfold base. apply in_or_app. left.
    apply in_flat_map. exists img. split; [assumption|].
    now apply extractFlagged_In. }
  assert (Hlink : forall link,
             In link (links cd) ->
             matching criterion (link_flags link) <> [] ->
             In {| selector := link_selector link;
                   flags := matching criterion (link_flags link) |} base).
  { intros link Hin Hm. unfold base. apply in_or_app. right.
    apply in_or_app. left.
    apply in_flat_map. exists link. split; [assumption|].
    now apply extractFlagged_In. }
  assert (Hhead : forall heading flag,
             In heading (tree_headings (headings cd)) ->
             In flag (h_flags heading) ->
             In (flagName flag) (dataCollectorFlags criterion) ->
             In {| selector := h_selector heading;
                   flags := [flagName flag] |} base).
  { intros heading flag Hin Hf Hr. unfold base. apply in_or_app. right.
    apply in_or_app. right.
    apply in_flat_map. exists heading. split; [assumption|].
    apply extractHeading_In. now exists flag. }
  split; [|split; [|split; [|split]]].
  - intros e He. apply extractPageFlags_origin in He.
    destruct He as [He|(flag & Hf & Hr & ->)].
    + unfold base in He. apply in_app_or in He. destruct He as [He|He].
      * apply in_flat_map in He. destruct He as (img & Hin & He).
        apply extractFlagged_In in He. destruct He as [Hm ->].
        now constructor.
      * apply in_app_or in He. destruct He as [He|He].
        -- apply in_flat_map in He. destruct He as (link & Hin & He).
           apply extractFlagged_In in He. destruct He as [Hm ->].
           now constructor.
        -- apply in_flat_map in He. destruct He as (heading & Hin & He).
           apply extractHeading_In in He.
           destruct He as (flag & Hf & Hr & ->).
           now constructor.
    + apply evidence_page; [assumption | now apply includes_In].
  - intros img Hin Hm. now apply extractPageFlags_keep, Himg.
  - intros link Hin Hm. now apply extractPageFlags_keep, Hlink.
  - intros heading flag Hin Hf Hr.
    now apply extractPageFlags_keep, Hhead.
  - intros flag Hf Hr. apply extractPageFlags_carry; [assumption|].
    now apply includes_In.
Qed.

Lemma manualResult_withBase criterion collected :
  manualResult criterion collected
    (withBase criterion manual [] [] (extractElements criterion collected)).
Proof.
  unfold manualResult; cbn. repeat split.
  - apply extractElements_matches.
  - apply extractElements_attached.
Qed.

Lemma mapCriterion_manualOnly criterion axe collected :
  evaluationStrategy criterion = "MANUAL_ONLY" ->
  mapCriterion criterion axe collected
  = Returns (withBase criterion manual [] []
                      (extractElements criterion collected)).
Proof.
  intros H. unfold mapCriterion. now rewrite H.
Qed.

Lemma mapCriterion_noEvidence criterion collected :
  mapCriterion criterion None collected
  = Returns (withBase criterion manual [] []
                      (extractElements criterion collected)).
Proof.
  unfold mapCriterion. cbn.
  now destruct (evaluationStrategy criterion =? "MANUAL_ONLY").
Qed.

Lemma mapPageResults_noEvidence mapping collected u :
  mapPageResults mapping None collected u
  = Returns {| url := u;
               criteria :=
                 map (fun c => withBase c manual [] []
                                        (extractElements c collected))
                     (mapping_criteria mapping) |}.
Proof.
  unfold mapPageResults.
  assert (H : forall cs,
             mapM (fun criterion => mapCriterion criterion None collected) cs
             = Returns (map (fun c => withBase c manual [] []
                                        (extractElements c collected)) cs)).
  { induction cs as [|c cs IH]; cbn; [reflexivity|].
    rewrite mapCriterion_noEvidence. cbn. now rewrite IH. }
  now rewrite H.
Qed.

(** C4. The per-page evaluator returns (it does not throw) a [manual]
    classification, with the evidence elements that match the criterion's
    flag set attached (the element of every image, link and heading that
    carries a flag of the set, every page-level flag of the set on some
    element, and nothing else), (1) for a criterion whose strategy is
    [MANUAL_ONLY], whatever the evidence, and (2) for a criterion of any
    strategy when the rule-engine result is absent; in case (2) the whole
    page maps to one [manual] entry per catalog criterion. *)
Theorem evaluator_manual_fallback
    (mapping : RgaaMapping) (criterion : RgaaCriterion)
    (axe : option AnalyzeResult) (collected : option CollectedData)
    (u : string) :
  evaluationStrategy criterion = "MANUAL_ONLY" \/ axe = None ->
  (exists mc, mapCriterion criterion axe collected = Returns mc /\
              manualResult criterion collected mc) /\
  (exists page, mapPageResults mapping None collected u = Returns page /\
                url page = u /\
                Forall2 (fun c mc => manualResult c collected mc)
                        (mapping_criteria mapping) (criteria page)).
Proof.
  intros H. split.
  - exists (withBase criterion manual [] []
                     (extractElements criterion collected)).
    split; [|apply manualResult_withBase].
    destruct H as [H| ->].
    + now apply mapCriterion_manualOnly.
    + apply mapCriterion_noEvidence.
  - eexists. split; [apply mapPageResults_noEvidence|]. cbn.
    split; [reflexivity|].
    induction (mapping_criteria mapping) as [|c cs IH]; cbn; constructor.
    + apply manualResult_withBase.
    + exact IH.
Qed.

Lemma reportsViolation_existsb criterion vs :
  existsb (fun v => includes (axeRules criterion) (v_rule v)) vs = true
  <-> reportsViolation criterion vs.
Proof.
  rewrite existsb_exists. unfold reportsViolation.
  split; intros (v & Hv & Hr); exists v; split; try assumption;
    now apply includes_In.
Qed.

Lemma reportsIncomplete_existsb criterion incs :
  existsb (fun i => includes (axeRules criterion) (i_rule i)) incs = true
  <-> reportsIncomplete criterion incs.
Proof.
  rewrite existsb_exists. unfold reportsIncomplete.
  split; intros (v & Hv & Hr); exists v; split; try assumption;
    now apply includes_In.
Qed.

Lemma allRulesPass_forallb criterion ps :
  forallb (includes (map p_rule ps)) (axeRules criterion) = true
  <-> allRulesPass criterion ps.
Proof.
  rewrite forallb_forall. unfold allRulesPass.
  split; intros H rule Hr.
  - apply H, includes_In, in_map_iff in Hr.
    destruct Hr as (p & Hp & Hin). now exists p.
  - apply includes_In, in_map_iff.
    destruct (H rule Hr) as (p & Hin & Hp). now exists p.
Qed.

Lemma mapAnyViolation_status criterion vs ps incs els :
  mapAnyViolation criterion (EngineResult vs ps incs) els
  = Returns
      (withBase criterion
         (if existsb (fun v => includes (axeRules criterion) (v_rule v)) vs
          then violation
          else if existsb (fun i => includes (axeRules criterion) (i_rule i))
                          incs
               then incomplete else pass)
         (matchedViolations criterion vs)
         (matchedIncompletes criterion incs) els).
Proof.
  unfold mapAnyViolation, matchedViolations, matchedIncompletes.
  now rewrite !filter_nonempty.
Qed.

Lemma mapAllPass_status criterion vs ps incs els :
  exists vs',
    mapAllPass criterion (EngineResult vs ps incs) els
    = Returns
        (withBase criterion
           (if existsb (fun v => includes (axeRules criterion) (v_rule v)) vs
            then violation
            else if forallb (includes (map p_rule ps)) (axeRules criterion)
                 then pass else incomplete)
           vs' (matchedIncompletes criterion incs) els).
Proof.
  unfold mapAllPass, matchedViolations. rewrite filter_nonempty.
  destruct (existsb _ vs); [eexists; reflexivity|].
  destruct (forallb _ (axeRules criterion)); eexists; reflexivity.
Qed.

Lemma mapCriterion_anyViolation criterion r collected :
  evaluationStrategy criterion = "ANY_VIOLATION" ->
  noAxeResults (Some r) = false ->
  mapCriterion criterion (Some r) collected
  = mapAnyViolation criterion r (extractElements criterion collected).
Proof.
  intros Hs Hr. unfold mapCriterion. rewrite Hs, Hr. reflexivity.
Qed.

Lemma mapCriterion_allPass criterion r collected :
  evaluationStrategy criterion = "ALL_PASS" ->
  noAxeResults (Some r) = false ->
  mapCriterion criterion (Some r) collected
  = mapAllPass criterion r (extractElements criterion collected).
Proof.
  intros Hs Hr. unfold mapCriterion. rewrite Hs, Hr. reflexivity.
Qed.

(** C5. For a criterion with strategy [ANY_VIOLATION] and a present
    rule-engine result, the classification is [violation] iff some reported
    violation's rule id belongs to the criterion's rule set, otherwise
    [incomplete] iff some incomplete finding's rule id belongs to it,
    otherwise [pass]; in particular [pass] when no rule id of the set
    appears among the violations or the incomplete findings. *)
Theorem anyViolation_classification
    (criterion : RgaaCriterion) (vs : list AxeViolation)
    (ps : list AxePass) (incs : list AxeIncomplete)
    (collected : option CollectedData) :
  evaluationStrategy criterion = "ANY_VIOLATION" ->
  exists mc,
    mapCriterion criterion (Some (EngineResult vs ps incs)) collected
    = Returns mc /\
    (status mc = violation <-> reportsViolation criterion vs) /\
    (status mc = incomplete <->
       ~ reportsViolation criterion vs /\ reportsIncomplete criterion incs) /\
    (status mc = pass <->
       ~ reportsViolation criterion vs /\ ~ reportsIncomplete criterion incs) /\
    ((forall rule, In rule (axeRules criterion) ->
                   ~ In rule (map v_rule vs) /\ ~ In rule (map i_rule incs)) ->
     status mc = pass).
Proof.
  intros Hs.
  rewrite (mapCriterion_anyViolation _ (EngineResult vs ps incs) collected Hs eq_refl).
  rewrite mapAnyViolation_status.
  eexists. split; [reflexivity|]. cbn [status withBase].
  pose proof (reportsViolation_existsb criterion vs) as HV.
  pose proof (reportsIncomplete_existsb criterion incs) as HI.
  assert (Hnone :
            (forall rule, In rule (axeRules criterion) ->
                          ~ In rule (map v_rule vs) /\
                          ~ In rule (map i_rule incs)) ->
            ~ reportsViolation criterion vs /\
            ~ reportsIncomplete criterion incs).
  { intros H. split; intros (x & Hx & Hr); destruct (H _ Hr) as [H1 H2].
    - apply H1. now apply in_map.
    - apply H2. now apply in_map. }
  destruct (existsb _ vs); destruct (existsb _ incs);
    intuition congruence.
Qed.

(** C6. For a criterion with strategy [ALL_PASS] and a present rule-engine
    result, the classification is [violation] if some reported violation's
    rule id belongs to the criterion's rule set; otherwise [pass] iff every
    rule id of the set appears among the passing findings; otherwise
    [incomplete]. *)
Theorem allPass_classification
    (criterion : RgaaCriterion) (vs : list AxeViolation)
    (ps : list AxePass) (incs : list AxeIncomplete)
    (collected : option CollectedData) :
  evaluationStrategy criterion = "ALL_PASS" ->
  exists mc,
    mapCriterion criterion (Some (EngineResult vs ps incs)) collected
    = Returns mc /\
    (reportsViolation criterion vs -> status mc = violation) /\
    (~ reportsViolation criterion vs ->
       (status mc = pass <-> allRulesPass criterion ps)) /\
    (~ reportsViolation criterion vs -> ~ allRulesPass criterion ps ->
       status mc = incomplete).
Proof.
  intros Hs.
  rewrite (mapCriterion_allPass _ (EngineResult vs ps incs) collected Hs eq_refl).
  destruct (mapAllPass_status criterion vs ps incs
              (extractElements criterion collected)) as (vs' & ->).
  eexists. split; [reflexivity|]. cbn [status withBase].
  pose proof (reportsViolation_existsb criterion vs) as HV.
  pose proof (allRulesPass_forallb criterion ps) as HP.
  destruct (existsb _ vs); destruct (forallb _ (axeRules criterion));
    intuition congruence.
Qed.

End EvaluatorFacts.

(* ------------------------------------------------------------------ *)
(** ** The cross-page aggregator: folding and final status *)
(* ------------------------------------------------------------------ *)

Module AggregatorFacts.

Import JS Mapper MapperSpec JSFacts.

Lemma contributions_app st id es1 es2 :
  contributions st id (es1 ++ es2)
  = contributions st id es1 ++ contributions st id es2.
Proof. unfold contributions. apply flat_map_app. Qed.

Lemma contributes_other st id u c :
  rgaaId c <> id -> contributes st id (u, c) = [].
Proof.
  intros H. unfold contributes. cbn.
  apply String.eqb_neq in H. now rewrite H.
Qed.

Lemma foldPage_entries m page :
  foldPage m page
  = fold_left (fun m uc => foldCriterion (fst uc) m (snd uc))
              (entriesOf page) m.
Proof.
  unfold foldPage, entriesOf.
  generalize (url page) as u. intros u. revert m.
  induction (criteria page) as [|c cs IH]; cbn; intros m; [reflexivity|].
  apply IH.
Qed.

Lemma foldPages_entries pages m :
  fold_left foldPage pages m
  = fold_left (fun m uc => foldCriterion (fst uc) m (snd uc))
              (flat_map entriesOf pages) m.
Proof.
  revert m. induction pages as [|p ps IH]; cbn; intros m; [reflexivity|].
  now rewrite fold_left_app, IH, foldPage_entries.
Qed.

Lemma pushPage_tracks es u c agg :
  tracks es (rgaaId c, agg) ->
  tracks (es ++ [(u, c)]) (rgaaId c, pushPage u (status c) agg).
Proof.
  unfold tracks. cbn [fst snd].
  intros (Hid & Hv & Hp & Hm & Hi).
  rewrite !contributions_app. unfold contributions at 2 4 6 8. cbn.
  unfold contributes. cbn [fst snd]. rewrite String.eqb_refl.
  rewrite Hid, <- Hv, <- Hp, <- Hm, <- Hi.
  destruct (status c); cbn; rewrite ?app_nil_r; repeat split; reflexivity.
Qed.

Lemma other_tracks es u c k agg :
  rgaaId c <> k ->
  tracks es (k, agg) -> tracks (es ++ [(u, c)]) (k, agg).
Proof.
  unfold tracks. cbn [fst snd]. intros Hne H.
  rewrite !contributions_app. unfold contributions at 2 4 6 8. cbn.
  rewrite !contributes_other by assumption. cbn. now rewrite !app_nil_r.
Qed.

Lemma foldCriterion_tracks es u c m :
  NoDup (keys m) -> Forall (tracks es) m ->
  keys (foldCriterion u m c) = keys m /\
  Forall (tracks (es ++ [(u, c)])) (foldCriterion u m c).
Proof.
  intros Hnd Hall. unfold foldCriterion.
  destruct (get m (rgaaId c)) as [agg|] eqn:G.
  - split.
    + rewrite keys_set. unfold has. now rewrite G.
    + apply Forall_forall. intros [k v] Hin.
      apply In_set in Hin; [|assumption].
      destruct Hin as [[-> ->]|[Hne Hin]].
      * apply pushPage_tracks.
        apply get_In in G. now apply (proj1 (Forall_forall _ _) Hall) in G.
      * apply other_tracks; [congruence|].
        now apply (proj1 (Forall_forall _ _) Hall) in Hin.
  - split; [reflexivity|].
    apply Forall_forall. intros [k v] Hin.
    apply other_tracks.
    + intros E. rewrite E in G. apply get_None_keys in G. apply G.
      now apply (in_map fst) in Hin.
    + now apply (proj1 (Forall_forall _ _) Hall) in Hin.
Qed.

Lemma foldEntries_tracks es2 : forall es1 m,
  NoDup (keys m) -> Forall (tracks es1) m ->
  keys (fold_left (fun m uc => foldCriterion (fst uc) m (snd uc)) es2 m)
  = keys m /\
  Forall (tracks (es1 ++ es2))
         (fold_left (fun m uc => foldCriterion (fst uc) m (snd uc)) es2 m).
Proof.
  induction es2 as [|[u c] es2 IH]; cbn; intros es1 m Hnd Hall.
  - now rewrite app_nil_r.
  - destruct (foldCriterion_tracks u c Hnd Hall) as [Hk Hall'].
    destruct (IH (es1 ++ [(u, c)]) (foldCriterion u m c)) as [Hk' Hall''].
    + now rewrite Hk.
    + exact Hall'.
    + split; [congruence|]. now rewrite <- app_assoc in Hall''.
Qed.

Lemma has_includes {V} (m : omap V) k : has m k = includes (keys m) k.
Proof.
  destruct (has m k) eqn:H; symmetry.
  - now apply includes_In, has_keys.
  - apply includes_false. intros Hin. apply has_keys in Hin. congruence.
Qed.

Lemma initFold_keys cs : forall m,
  keys (fold_left (fun m criterion =>
                     set m (rgaa_id criterion) (initialAggregate criterion))
                  cs m)
  = fold_left (fun acc id => set_add id acc) (map rgaa_id cs) (keys m).
Proof.
  induction cs as [|c cs IH]; cbn; intros m; [reflexivity|].
  rewrite IH, keys_set, has_includes. reflexivity.
Qed.

Lemma initFold_tracks cs : forall m,
  NoDup (keys m) -> Forall (tracks []) m ->
  NoDup (keys (fold_left (fun m criterion =>
                            set m (rgaa_id criterion)
                                (initialAggregate criterion)) cs m)) /\
  Forall (tracks [])
         (fold_left (fun m criterion =>
                       set m (rgaa_id criterion) (initialAggregate criterion))
                    cs m).
Proof.
  induction cs as [|c cs IH]; cbn; intros m Hnd Hall; [now split|].
  apply IH.
  - now apply NoDup_keys_set.
  - apply Forall_forall. intros [k v] Hin.
    apply In_set in Hin; [|assumption].
    destruct Hin as [[-> ->]|[_ Hin]].
    + unfold tracks. cbn. repeat split.
    + now apply (proj1 (Forall_forall _ _) Hall) in Hin.
Qed.

Lemma initCriteriaMap_keys mapping :
  keys (initCriteriaMap mapping)
  = firstOccurrences (map rgaa_id (mapping_criteria mapping)).
Proof. unfold initCriteriaMap. now rewrite initFold_keys. Qed.

Lemma initCriteriaMap_tracks mapping :
  NoDup (keys (initCriteriaMap mapping)) /\
  Forall (tracks []) (initCriteriaMap mapping).
Proof.
  unfold initCriteriaMap. apply initFold_tracks; constructor.
Qed.

(** After the fold over the pages, every aggregate holds the contributions
    of all pages, and the keys are those of the catalog. *)
Lemma folded_tracks mapping pages :
  keys (fold_left foldPage pages (initCriteriaMap mapping))
  = keys (initCriteriaMap mapping) /\
  Forall (tracks (flat_map entriesOf pages))
         (fold_left foldPage pages (initCriteriaMap mapping)).
Proof.
  rewrite foldPages_entries.
  destruct (initCriteriaMap_tracks mapping) as [Hnd Hall].
  apply (@foldEntries_tracks (flat_map entriesOf pages) []); assumption.
Qed.

Lemma firstOccurrences_NoDup_gen l : forall acc,
  NoDup (acc ++ l) ->
  fold_left (fun acc id => set_add id acc) l acc = acc ++ l.
Proof.
  induction l as [|x l IH]; cbn; intros acc H.
  - now rewrite app_nil_r.
  - unfold set_add at 2.
    assert (Hx : includes acc x = false).
    { apply includes_false. intros Hin.
      apply NoDup_remove_2 in H. apply H, in_or_app. now left. }
    rewrite Hx, IH; rewrite <- app_assoc; [reflexivity | exact H].
Qed.

Lemma firstOccurrences_NoDup l : NoDup l -> firstOccurrences l = l.
Proof. intros H. now apply (firstOccurrences_NoDup_gen l []). Qed.

Lemma firstOccurrences_In_gen l : forall acc x,
  In x (fold_left (fun acc id => set_add id acc) l acc) <->
  In x acc \/ In x l.
Proof.
  induction l as [|y l IH]; cbn [fold_left]; intros acc x.
  - cbn. tauto.
  - rewrite IH. unfold set_add. destruct (includes acc y) eqn:E.
    + apply includes_In in E. cbn. split; [tauto|].
      intros [H|[<-|H]]; tauto.
    + rewrite in_app_iff. cbn. tauto.
Qed.

Lemma firstOccurrences_In l x : In x (firstOccurrences l) <-> In x l.
Proof.
  unfold firstOccurrences. rewrite firstOccurrences_In_gen. cbn. tauto.
Qed.

Lemma positive_app (a b : nat) :
  (0 <? a + b)%nat = (0 <? a)%nat || (0 <? b)%nat.
Proof. destruct a, b; reflexivity. Qed.

Lemma pageHas_contributions st id page :
  pageHas st id page
  = (0 <? List.length (contributions st id (entriesOf page)))%nat.
Proof.
  unfold pageHas, entriesOf, contributions.
  induction (criteria page) as [|c cs IH]; cbn [existsb map flat_map];
    [reflexivity|].
  rewrite length_app, positive_app, IH. f_equal.
  unfold contributes. cbn [fst snd].
  now destruct ((rgaaId c =? id) && status_eqb (status c) st).
Qed.

Lemma anyPage_contributions st id pages :
  anyPage st id pages
  = (0 <? List.length (contributions st id (flat_map entriesOf pages)))%nat.
Proof.
  unfold anyPage.
  induction pages as [|p ps IH]; cbn [existsb flat_map]; [reflexivity|].
  now rewrite contributions_app, length_app, positive_app, IH,
    pageHas_contributions.
Qed.

(** Some page classifies [id] as [st]: reading of [anyPage]. *)
Lemma anyPage_spec st id pages :
  anyPage st id pages = true <->
  exists page c, In page pages /\ In c (criteria page) /\
                 rgaaId c = id /\ status c = st.
Proof.
  unfold anyPage, pageHas. rewrite existsb_exists. split.
  - intros (page & Hp & H). apply existsb_exists in H.
    destruct H as (c & Hc & H). apply andb_prop in H. destruct H as [H1 H2].
    exists page, c. repeat split; try assumption.
    + now apply String.eqb_eq.
    + destruct (status c), st; cbn in H2; congruence.
  - intros (page & c & Hp & Hc & <- & <-). exists page. split; [assumption|].
    apply existsb_exists. exists c. split; [assumption|].
    rewrite String.eqb_refl. now destruct (status c).
Qed.

Lemma finalStatus_precedence pages k agg :
  tracks (flat_map entriesOf pages) (k, agg) ->
  finalStatus agg = precedence k pages.
Proof.
  unfold tracks, finalStatus, precedence. cbn [fst snd].
  intros (_ & -> & -> & -> & ->).
  rewrite !anyPage_contributions.
  destruct (contributions pass k (flat_map entriesOf pages)); reflexivity.
Qed.

Section WithBuiltins.

Variables toLowerCase trim : string -> string.

Lemma aggregate_criteria mapping pages all :
  sum_criteria (fst (aggregateResults toLowerCase trim mapping pages all))
  = map (fun kv => resolveStatus (snd kv))
        (fold_left foldPage pages (initCriteriaMap mapping)).
Proof.
  unfold aggregateResults. cbn. unfold values. now rewrite map_map.
Qed.

Lemma aggregate_ids mapping pages all :
  map agg_rgaaId
      (sum_criteria
         (fst (aggregateResults toLowerCase trim mapping pages all)))
  = firstOccurrences (map rgaa_id (mapping_criteria mapping)).
Proof.
  rewrite aggregate_criteria, map_map. cbn.
  destruct (folded_tracks mapping pages) as [Hk Hall].
  rewrite <- initCriteriaMap_keys, <- Hk. unfold keys.
  apply map_ext_in. intros [k agg] Hin.
  apply (proj1 (Forall_forall _ _) Hall) in Hin. now destruct Hin.
Qed.

Lemma aggregate_statuses mapping pages all :
  Forall (fun agg => agg_status agg = precedence (agg_rgaaId agg) pages)
         (sum_criteria
            (fst (aggregateResults toLowerCase trim mapping pages all))).
Proof.
  rewrite aggregate_criteria.
  destruct (folded_tracks mapping pages) as [_ Hall].
  apply Forall_map, Forall_forall. intros [k agg] Hin. cbn.
  apply (proj1 (Forall_forall _ _) Hall) in Hin.
  rewrite (finalStatus_precedence pages Hin).
  destruct Hin as (Hid & _). cbn in Hid. now rewrite Hid.
Qed.

(** C3. Whatever the per-page classifications, the summary has one
    aggregated entry for every criterion id of the catalog, in catalog
    order, and the final status of each follows the precedence: violation
    if some page violates it, else incomplete if some page is incomplete,
    else manual if some page is manual and none passes, else pass if some
    page passes, else manual. *)
Theorem aggregate_status_precedence
    (mapping : RgaaMapping) (pages : list MappedPage)
    (all : option (list CollectedEntry)) :
  let cs := sum_criteria
              (fst (aggregateResults toLowerCase trim mapping pages all)) in
  map (fun agg => (agg_rgaaId agg, agg_status agg)) cs
  = map (fun id => (id, precedence id pages))
        (firstOccurrences (map rgaa_id (mapping_criteria mapping))) /\
  (forall criterion,
      In criterion (mapping_criteria mapping) ->
      exists agg,
        In agg cs /\ agg_rgaaId agg = rgaa_id criterion /\
        agg_status agg = precedence (rgaa_id criterion) pages) /\
  Forall (fun agg => agg_status agg = precedence (agg_rgaaId agg) pages) cs.
Proof.
  cbv zeta.
  pose proof (aggregate_ids mapping pages all) as Hids.
  pose proof (aggregate_statuses mapping pages all) as Hst.
  set (cs := sum_criteria _) in *.
  assert (Hpairs : map (fun agg => (agg_rgaaId agg, agg_status agg)) cs
                   = map (fun id => (id, precedence id pages))
                         (map agg_rgaaId cs)).
  { rewrite map_map. apply map_ext_in. intros agg Hin.
    now rewrite (proj1 (Forall_forall _ _) Hst agg Hin). }
  split; [now rewrite Hpairs, Hids|]. split; [|exact Hst].
  intros criterion Hin.
  assert (Hid : In (rgaa_id criterion) (map agg_rgaaId cs)).
  { rewrite Hids. apply firstOccurrences_In. now apply in_map. }
  apply in_map_iff in Hid. destruct Hid as (agg & Hid & Hagg).
  exists agg. split; [assumption|]. split; [assumption|].
  rewrite <- Hid. exact (proj1 (Forall_forall _ _) Hst agg Hagg).
Qed.

(** C2, as the code has it. Over zero pages the result has one aggregated
    entry per catalog criterion id, in catalog order (so one per criterion
    when the ids are distinct), no page is recorded anywhere, and every
    entry's final status is [manual]. *)
Theorem aggregate_zero_pages
    (mapping : RgaaMapping) (all : option (list CollectedEntry)) :
  let cs := sum_criteria
              (fst (aggregateResults toLowerCase trim mapping [] all)) in
  map agg_rgaaId cs
  = firstOccurrences (map rgaa_id (mapping_criteria mapping)) /\
  (NoDup (map rgaa_id (mapping_criteria mapping)) ->
   map agg_rgaaId cs = map rgaa_id (mapping_criteria mapping)) /\
  Forall (fun agg => agg_status agg = manual /\ untouched agg) cs.
Proof.
  cbv zeta. split; [apply aggregate_ids|]. split.
  - intros Hnd. rewrite aggregate_ids. now apply firstOccurrences_NoDup.
  - rewrite aggregate_criteria.
    destruct (folded_tracks mapping []) as [_ Hall].
    apply Forall_map, Forall_forall. intros [k agg] Hin.
    apply (proj1 (Forall_forall _ _) Hall) in Hin.
    destruct Hin as (_ & Hv & Hp & Hm & Hi). cbn in *.
    unfold untouched, finalStatus. cbn. rewrite Hv, Hp, Hm, Hi.
    repeat split.
Qed.

End WithBuiltins.

End AggregatorFacts.

(* ------------------------------------------------------------------ *)
(** ** The cross-page aggregator: duplicate labels *)
(* ------------------------------------------------------------------ *)

Module DuplicateFacts.

Import JS Mapper MapperSpec JSFacts.

Lemma set_add_keeps x y s : In y s -> In y (set_add x s).
Proof.
  intros H. unfold set_add. destruct (includes s x); [assumption|].
  apply in_or_app. now left.
Qed.

Lemma set_add_In x s : In x (set_add x s).
Proof.
  unfold set_add. destruct (includes s x) eqn:E.
  - now apply includes_In.
  - apply in_or_app. right. now left.
Qed.

Lemma two_members {A} (a b : A) (l : list A) :
  In a l -> In b l -> a <> b -> (1 <? List.length l)%nat = true.
Proof.
  intros Ha Hb Hne. destruct l as [|x [|y l]]; cbn in *; try tauto.
  destruct Ha as [<-|[]]. destruct Hb as [<-|[]]. congruence.
Qed.

Lemma find_replaceFirst {A} (p : A -> bool) (a' : A) (l : list A) :
  p a' = true -> (exists a, find p l = Some a) ->
  find p (replaceFirst p a' l) = Some a'.
Proof.
  intros Hp. unfold find.
  induction l as [|a l IH]; cbn; intros (x & Hx); [discriminate|].
  destruct (p a) eqn:E; cbn.
  - now rewrite Hp.
  - rewrite E. apply IH. now exists x.
Qed.

Lemma find_holds {A} (p : A -> bool) (l : list A) (a : A) :
  find p l = Some a -> p a = true.
Proof. unfold find. intros H. now apply find_some in H. Qed.

Section WithBuiltins.

Variables toLowerCase trim : string -> string.

#[local] Abbreviation normalizeLabel := (normalizeLabel toLowerCase trim).
#[local] Abbreviation recordLink := (recordLink toLowerCase trim).
#[local] Abbreviation flagLink := (flagLink toLowerCase trim).

(** *** The label map only grows *)

Lemma recordLink_keeps m link k h :
  knows m k h -> knows (recordLink m link) k h.
Proof.
  intros (urls & Hget & Hin). unfold Mapper.recordLink.
  destruct (accessibleLabel link) as [label|]; [|now exists urls].
  destruct (negb (truthy label) || (trim label =? "")); [now exists urls|].
  set (n := normalizeLabel label).
  set (m1 := if has m n then m else set m n []).
  assert (H1 : get m1 k = Some urls).
  { unfold m1. destruct (has m n) eqn:E; [assumption|].
    rewrite get_set_other; [assumption|].
    intros ->. unfold has in E. now rewrite Hget in E. }
  destruct (href link) as [h'|]; [|now exists urls].
  destruct (truthy h'); [|now exists urls].
  destruct (String.eqb n k) eqn:E.
  - apply String.eqb_eq in E. subst k.
    exists (set_add h' urls). rewrite H1. cbn. split.
    + apply get_set_same.
    + now apply set_add_keeps.
  - apply String.eqb_neq in E. exists urls. split; [|assumption].
    rewrite get_set_other; [assumption | congruence].
Qed.

Lemma recordLink_adds m link lab h :
  accessibleLabel link = Some lab -> truthy lab = true ->
  trim lab <> "" -> href link = Some h -> truthy h = true ->
  knows (recordLink m link) (normalizeLabel lab) h.
Proof.
  intros Hl Ht Hb Hh Hth. unfold Mapper.recordLink.
  rewrite Hl, Ht, Hh, Hth. cbn.
  apply String.eqb_neq in Hb. rewrite Hb.
  eexists. split; [apply get_set_same | apply set_add_In].
Qed.

Lemma recordLinks_keep ls : forall m k h,
  knows m k h -> knows (fold_left recordLink ls m) k h.
Proof.
  induction ls as [|l ls IH]; cbn; intros m k h H; [assumption|].
  apply IH. now apply recordLink_keeps.
Qed.

Lemma recordLinks_add ls : forall m link lab h,
  In link ls ->
  accessibleLabel link = Some lab -> truthy lab = true ->
  trim lab <> "" -> href link = Some h -> truthy h = true ->
  knows (fold_left recordLink ls m) (normalizeLabel lab) h.
Proof.
  induction ls as [|l ls IH]; cbn; intros m link lab h Hin Hl Ht Hb Hh Hth;
    [contradiction|].
  destruct Hin as [->|Hin].
  - apply recordLinks_keep. now apply recordLink_adds.
  - now apply IH with (link := link).
Qed.

Lemma recordEntries_keep es : forall m k h,
  knows m k h ->
  knows (fold_left (recordEntry toLowerCase trim) es m) k h.
Proof.
  induction es as [|e es IH]; cbn; intros m k h H; [assumption|].
  apply IH. unfold recordEntry.
  destruct (collectedData e); [|assumption].
  now apply recordLinks_keep.
Qed.

Lemma buildLabelMap_knows all entry cd link lab h :
  In entry all -> collectedData entry = Some cd -> In link (links cd) ->
  accessibleLabel link = Some lab -> truthy lab = true ->
  trim lab <> "" -> href link = Some h -> truthy h = true ->
  knows (buildLabelMap toLowerCase trim all) (normalizeLabel lab) h.
Proof.
  unfold buildLabelMap. generalize (@nil (string * list string)) as m.
  induction all as [|e es IH]; cbn; intros m Hin Hcd Hl Hlab Ht Hb Hh Hth;
    [contradiction|].
  destruct Hin as [->|Hin].
  - apply recordEntries_keep. unfold recordEntry. rewrite Hcd.
    now apply recordLinks_add with (link := link).
  - now apply IH.
Qed.

(** *** Labels with two destinations are duplicates *)

Lemma duplicateLabelsOf_In (m : omap (list string)) k urls :
  In (k, urls) m -> (1 <? List.length urls)%nat = true ->
  In k (duplicateLabelsOf m).
Proof.
  unfold duplicateLabelsOf. generalize (@nil string) as dups.
  assert (Hkeep : forall (m' : omap (list string)) dups,
             In k dups ->
             In k (fold_left
                     (fun dups entry =>
                        if (1 <? List.length (snd entry))%nat
                        then set_add (fst entry) dups else dups) m' dups)).
  { induction m' as [|e m' IH]; cbn [fold_left]; intros dups H;
      [assumption|].
    apply IH. destruct (1 <? List.length (snd e))%nat; [|assumption].
    now apply set_add_keeps. }
  induction m as [|e m IH]; cbn [fold_left In]; intros dups Hin Hlen;
    [contradiction|].
  destruct Hin as [->|Hin].
  - apply Hkeep. cbn [fst snd]. rewrite Hlen. apply set_add_In.
  - now apply IH.
Qed.

Lemma knows_two_duplicate m k h1 h2 :
  knows m k h1 -> knows m k h2 -> h1 <> h2 ->
  In k (duplicateLabelsOf m).
Proof.
  intros (urls & Hget & H1) (urls' & Hget' & H2) Hne.
  rewrite Hget in Hget'. injection Hget' as <-.
  apply duplicateLabelsOf_In with (urls := urls).
  - now apply get_In.
  - now apply two_members with (a := h1) (b := h2).
Qed.

(** *** Flagging the links of a page *)

Lemma addDuplicateFlag_flags sel els :
  exists e, In e (addDuplicateFlag sel els) /\ selector e = sel /\
            In DUPLICATE_LABEL (flags e).
Proof.
  induction els as [|e els IH]; cbn.
  - eexists. split; [now left|]. cbn. split; [reflexivity | now left].
  - destruct (selector e =? sel) eqn:E.
    + apply String.eqb_eq in E.
      destruct (includes (flags e) DUPLICATE_LABEL) eqn:I.
      * exists e. split; [now left|]. split; [assumption|].
        now apply includes_In.
      * eexists. split; [now left|]. cbn. split; [assumption|].
        apply in_or_app. right. now left.
    + destruct IH as (x & Hin & Hs & Hf). exists x. split; [now right|].
      now split.
Qed.

Lemma addDuplicateFlag_keeps sel s els :
  (exists e, In e els /\ selector e = s /\ In DUPLICATE_LABEL (flags e)) ->
  exists e, In e (addDuplicateFlag sel els) /\ selector e = s /\
            In DUPLICATE_LABEL (flags e).
Proof.
  induction els as [|e els IH]; cbn; intros (x & Hin & Hs & Hf);
    [contradiction|].
  destruct (selector e =? sel) eqn:E.
  - destruct Hin as [->|Hin].
    + destruct (includes (flags x) DUPLICATE_LABEL) eqn:I.
      * exists x. split; [now left | now split].
      * eexists. split; [now left|]. cbn. split; [assumption|].
        apply in_or_app. now left.
    + exists x. split; [now right | now split].
  - destruct Hin as [->|Hin].
    + exists x. split; [now left | now split].
    + destruct IH as (y & Hy & Hys & Hyf); [now exists x|].
      exists y. split; [now right | now split].
Qed.

Lemma upgraded_idem st : upgraded (upgraded st) = upgraded st.
Proof. now destruct st. Qed.

Lemma flagCriterion_status sel c :
  status (flagCriterion sel c) = upgraded (status c).
Proof. unfold flagCriterion. cbn. now destruct (status c). Qed.

Lemma flagLink_rgaaId dups c link : rgaaId (flagLink dups c link) = rgaaId c.
Proof.
  unfold Mapper.flagLink. destruct (accessibleLabel link); [|reflexivity].
  destruct (negb (truthy s)); [reflexivity|].
  now destruct (includes dups _).
Qed.

Lemma flagLink_status dups c link st0 :
  status c = st0 \/ status c = upgraded st0 ->
  status (flagLink dups c link) = st0 \/
  status (flagLink dups c link) = upgraded st0.
Proof.
  intros H. unfold Mapper.flagLink.
  destruct (accessibleLabel link); [|assumption].
  destruct (negb (truthy s)); [assumption|].
  destruct (includes dups _); [|assumption].
  right. rewrite flagCriterion_status.
  destruct H as [->| ->]; [reflexivity | apply upgraded_idem].
Qed.

Lemma flagLink_keeps dups c link sel st0 :
  flaggedFor sel c /\ status c = upgraded st0 ->
  flaggedFor sel (flagLink dups c link) /\
  status (flagLink dups c link) = upgraded st0.
Proof.
  intros [Hf Hs]. unfold Mapper.flagLink.
  destruct (accessibleLabel link); [|now split].
  destruct (negb (truthy s)); [now split|].
  destruct (includes dups _); [|now split].
  split.
  - unfold flaggedFor. cbn. now apply addDuplicateFlag_keeps.
  - rewrite flagCriterion_status, Hs. apply upgraded_idem.
Qed.

Lemma flagLink_flags dups c link lab st0 :
  accessibleLabel link = Some lab -> truthy lab = true ->
  In (normalizeLabel lab) dups ->
  status c = st0 \/ status c = upgraded st0 ->
  flaggedFor (link_selector link) (flagLink dups c link) /\
  status (flagLink dups c link) = upgraded st0.
Proof.
  intros Hl Ht Hd Hs. unfold Mapper.flagLink. rewrite Hl, Ht. cbn.
  apply includes_In in Hd. rewrite Hd. split.
  - unfold flaggedFor. cbn. apply addDuplicateFlag_flags.
  - rewrite flagCriterion_status.
    destruct Hs as [->| ->]; [reflexivity | apply upgraded_idem].
Qed.

Lemma flagLinks_flag dups ls : forall c link lab,
  In link ls ->
  accessibleLabel link = Some lab -> truthy lab = true ->
  In (normalizeLabel lab) dups ->
  flaggedFor (link_selector link) (fold_left (flagLink dups) ls c) /\
  status (fold_left (flagLink dups) ls c) = upgraded (status c) /\
  rgaaId (fold_left (flagLink dups) ls c) = rgaaId c.
Proof.
  intros c link lab Hin Hl Ht Hd.
  apply in_split in Hin. destruct Hin as (l1 & l2 & ->).
  rewrite fold_left_app. cbn.
  assert (H1 : forall l c1,
             (status c1 = status c \/ status c1 = upgraded (status c)) /\
             rgaaId c1 = rgaaId c ->
             (status (fold_left (flagLink dups) l c1) = status c \/
              status (fold_left (flagLink dups) l c1) = upgraded (status c))
             /\ rgaaId (fold_left (flagLink dups) l c1) = rgaaId c).
  { induction l as [|x l IH]; cbn; intros c1 [Hs Hid]; [now split|].
    apply IH. split; [now apply flagLink_status|].
    now rewrite flagLink_rgaaId. }
  assert (H2 : forall l c1,
             (flaggedFor (link_selector link) c1 /\
              status c1 = upgraded (status c)) /\ rgaaId c1 = rgaaId c ->
             (flaggedFor (link_selector link)
                         (fold_left (flagLink dups) l c1) /\
              status (fold_left (flagLink dups) l c1) = upgraded (status c))
             /\ rgaaId (fold_left (flagLink dups) l c1) = rgaaId c).
  { induction l as [|x l IH]; cbn; intros c1 [Hs Hid]; [now split|].
    apply IH. split; [now apply flagLink_keeps|].
    now rewrite flagLink_rgaaId. }
  destruct (H1 l1 c) as [Hs1 Hid1]; [split; [now left | reflexivity]|].
  destruct (H2 l2 (flagLink dups (fold_left (flagLink dups) l1 c) link))
    as [[Hf Hs] Hid].
  { split.
    - now apply flagLink_flags with (lab := lab).
    - now rewrite flagLink_rgaaId. }
  now repeat split.
Qed.

Lemma flagPage_flags dups all page link lab h :
  auditedLink trim all page link lab h ->
  In (normalizeLabel lab) dups ->
  carriesDuplicateFlag page (flagPage toLowerCase trim dups all page) link.
Proof.
  intros ((c & Hc) & (pageData & cd & Hfind & Hcd & Hin) & Hl & Ht & _) Hd.
  unfold flagPage. rewrite Hc, Hfind, Hcd.
  split; [reflexivity|]. cbn.
  destruct (flagLinks_flag dups (links cd) c link Hin Hl Ht Hd)
    as (Hf & Hs & Hid).
  exists c. eexists. split; [assumption|]. split.
  - apply find_replaceFirst; [|now exists c].
    unfold is61. rewrite Hid. exact (find_holds _ _ Hc).
  - now split.
Qed.

Lemma auditedLink_known all page link lab h :
  auditedLink trim all page link lab h ->
  knows (buildLabelMap toLowerCase trim all) (normalizeLabel lab) h.
Proof.
  intros (_ & (pageData & cd & Hfind & Hcd & Hin) & Hl & Ht & Hb & Hh & Hth).
  unfold find in Hfind. apply find_some in Hfind. destruct Hfind as [He _].
  now apply buildLabelMap_knows with (entry := pageData) (cd := cd)
                                     (link := link).
Qed.

(** A label met with two different destinations anywhere in the evidence
    is flagged on every audited link that carries it. *)
Lemma detect_flags pages all i page link lab h lab1 h1 lab2 h2 p1 l1 p2 l2 :
  auditedLink trim all p1 l1 lab1 h1 ->
  auditedLink trim all p2 l2 lab2 h2 ->
  normalizeLabel lab1 = normalizeLabel lab2 -> h1 <> h2 ->
  nth_error pages i = Some page ->
  auditedLink trim all page link lab h ->
  normalizeLabel lab = normalizeLabel lab1 ->
  exists page',
    nth_error (detectDuplicateLabels toLowerCase trim pages all) i
    = Some page' /\
    carriesDuplicateFlag page page' link.
Proof.
  intros A1 A2 Hn Hne Hnth A Hlab.
  assert (Hd : In (normalizeLabel lab)
                  (duplicateLabelsOf (buildLabelMap toLowerCase trim all))).
  { rewrite Hlab. apply knows_two_duplicate with (h1 := h1) (h2 := h2).
    - now apply auditedLink_known with (page := p1) (link := l1).
    - rewrite Hn. now apply auditedLink_known with (page := p2) (link := l2).
    - assumption. }
  unfold detectDuplicateLabels.
  destruct (duplicateLabelsOf (buildLabelMap toLowerCase trim all))
    as [|d ds] eqn:E; [contradiction|].
  cbn [List.length Nat.eqb].
  exists (flagPage toLowerCase trim (d :: ds) all page). split.
  - now apply map_nth_error.
  - now apply flagPage_flags with (lab := lab) (h := h).
Qed.

(** X24. When the per-page evidence is supplied and two audited pages each
    contain a link with the same normalized label (not blank) and
    different destinations (not empty), then on both pages the entry of
    the owning criterion (6.1) carries the duplicate-label flag on an
    element for that link, and the status of that per-page entry is
    [violation] if it was [pass] (it is unchanged otherwise). *)
Theorem duplicate_labels_flagged
    (mapping : RgaaMapping) (pages : list MappedPage)
    (all : list CollectedEntry)
    (i1 i2 : nat) (page1 page2 : MappedPage) (link1 link2 : LinkData)
    (lab1 lab2 h1 h2 : string) :
  nth_error pages i1 = Some page1 ->
  nth_error pages i2 = Some page2 ->
  auditedLink trim all page1 link1 lab1 h1 ->
  auditedLink trim all page2 link2 lab2 h2 ->
  normalizeLabel lab1 = normalizeLabel lab2 ->
  h1 <> h2 ->
  let pages' :=
    snd (aggregateResults toLowerCase trim mapping pages (Some all)) in
  exists page1' page2',
    nth_error pages' i1 = Some page1' /\
    nth_error pages' i2 = Some page2' /\
    carriesDuplicateFlag page1 page1' link1 /\
    carriesDuplicateFlag page2 page2' link2.
Proof.
  intros Hn1 Hn2 A1 A2 Hlab Hne pages'.
  unfold pages', aggregateResults. cbn [snd].
  destruct (detect_flags pages i1 A1 A2 Hlab Hne Hn1 A1 eq_refl)
    as (p1' & H1 & F1).
  destruct (detect_flags pages i2 A1 A2 Hlab Hne Hn2 A2 (eq_sym Hlab))
    as (p2' & H2 & F2).
  exists p1', p2'. split; [exact H1|]. split; [exact H2|]. split; assumption.
Qed.

End WithBuiltins.

End DuplicateFacts.

(* ------------------------------------------------------------------ *)
(** ** The mapper on the worked data *)
(* ------------------------------------------------------------------ *)

Module MapperExamples.

Import JS Mapper MapperSpec Examples.

(** Criterion 8.6 is [MANUAL_ONLY]: the rule engine lets the title pass,
    the answer is the manual fallback, and the generic title of the page
    is attached as an element. *)
Lemma evaluator_manual_fallback_witness :
  (evaluationStrategy criterion86 = "MANUAL_ONLY" \/
   Some titlePasses = None) /\
  exists mc,
    mapCriterion criterion86 (Some titlePasses) (Some collectedGenericTitle)
    = Returns mc /\
    status mc = manual /\
    exists e, In e (elements mc) /\ In "TITLE_GENERIC" (flags e).
Proof.
  assert (H : evaluationStrategy criterion86 = "MANUAL_ONLY" \/
              Some titlePasses = None) by (left; reflexivity).
  split; [exact H|].
  destruct (@EvaluatorFacts.evaluator_manual_fallback
              exampleMapping criterion86 (Some titlePasses)
              (Some collectedGenericTitle) url1 H)
    as [(mc & Hmc & _ & Hst & _ & _ & _ & _ & Hatt) _].
  exists mc. split; [exact Hmc|]. split; [exact Hst|].
  destruct Hatt as (_ & _ & _ & _ & Hpage).
  apply (Hpage "TITLE_GENERIC"); [left; reflexivity | right; left; reflexivity].
Defined.

Example manual_only_title_element :
  mapCriterion criterion86 (Some titlePasses) (Some collectedGenericTitle)
  = Returns (withBase criterion86 manual [] []
               [{| selector := "document"; flags := ["TITLE_GENERIC"] |}]).
Proof. reflexivity. Qed.

(** One violation of [image-alt] classifies criterion 1.1 as a violation. *)
Lemma anyViolation_classification_witness :
  evaluationStrategy criterion11 = "ANY_VIOLATION" /\
  exists mc,
    mapCriterion criterion11
                 (Some (EngineResult [imageAltViolation] [] [])) None
    = Returns mc /\
    (status mc = violation <->
       reportsViolation criterion11 [imageAltViolation]) /\
    (status mc = incomplete <->
       ~ reportsViolation criterion11 [imageAltViolation] /\
       reportsIncomplete criterion11 []) /\
    (status mc = pass <->
       ~ reportsViolation criterion11 [imageAltViolation] /\
       ~ reportsIncomplete criterion11 []) /\
    ((forall rule, In rule (axeRules criterion11) ->
                   ~ In rule (map v_rule [imageAltViolation]) /\
                   ~ In rule (map i_rule [])) ->
     status mc = pass).
Proof.
  split.
  - reflexivity.
  - apply (@EvaluatorFacts.anyViolation_classification
             criterion11 [imageAltViolation] [] [] None).
    reflexivity.
Defined.

Example image_alt_violation :
  mapCriterion criterion11
               (Some (EngineResult [imageAltViolation] [] [])) None
  = Returns (withBase criterion11 violation [imageAltViolation] [] []).
Proof. reflexivity. Qed.

Example image_alt_only_in_passes :
  mapCriterion criterion11
    (Some (EngineResult []
             [{| p_rule := "image-alt"; p_description := "ok" |}] []))
    None
  = Returns (withBase criterion11 pass [] [] []).
Proof. reflexivity. Qed.

Example no_matching_rule_passes :
  mapCriterion criterion11 (Some noFinding) None
  = Returns (withBase criterion11 pass [] [] []).
Proof. reflexivity. Qed.

(** An [EngineError] whose message is empty is not recognised as an error
    page, and reading its findings throws. *)
Example empty_error_message_throws :
  mapCriterion criterion11 (Some (EngineError "")) None = Throws typeError.
Proof. reflexivity. Qed.

(** Criterion 9.1 is [ALL_PASS]; without findings not all its rules pass. *)
Lemma allPass_classification_witness :
  evaluationStrategy criterion91 = "ALL_PASS" /\
  exists mc,
    mapCriterion criterion91 (Some noFinding) None = Returns mc /\
    (reportsViolation criterion91 [] -> status mc = violation) /\
    (~ reportsViolation criterion91 [] ->
       (status mc = pass <-> allRulesPass criterion91 [])) /\
    (~ reportsViolation criterion91 [] -> ~ allRulesPass criterion91 [] ->
       status mc = incomplete).
Proof.
  split.
  - reflexivity.
  - apply (@EvaluatorFacts.allPass_classification criterion91 [] [] [] None).
    reflexivity.
Defined.

Example all_rules_pass :
  mapCriterion criterion91
    (Some (EngineResult []
             [{| p_rule := "heading-order"; p_description := "ok" |};
              {| p_rule := "page-has-heading-one"; p_description := "ok" |};
              {| p_rule := "empty-heading"; p_description := "ok" |}] []))
    None
  = Returns (withBase criterion91 pass [] [] []).
Proof. reflexivity. Qed.

(** C2 fails as stated: over zero pages the entries are not [pass]. *)
Lemma aggregate_zero_pages_not_pass :
  ~ Forall (fun agg => agg_status agg = pass)
           (sum_criteria
              (fst (aggregateResults AsciiText.toLowerCase AsciiText.trim
                                     exampleMapping [] None))).
Proof.
  intros H. vm_compute in H. inversion H as [|? ? H1 _]. discriminate H1.
Qed.

Example aggregate_zero_pages_example :
  map (fun agg => (agg_rgaaId agg, agg_status agg))
      (sum_criteria
         (fst (aggregateResults AsciiText.toLowerCase AsciiText.trim
                                exampleMapping [] None)))
  = [("1.1", manual); ("6.1", manual); ("8.6", manual); ("9.1", manual)].
Proof. reflexivity. Qed.

Lemma audited_link1 :
  auditedLink AsciiText.trim allCollected page1 link1
              "Lire la suite" "/article-1".
Proof.
  unfold auditedLink. split; [eexists; reflexivity|]. split.
  - exists {| entry_url := url1; collectedData := Some collected1 |}, collected1.
    split; [reflexivity|]. split; [reflexivity|]. now left.
  - repeat split. discriminate.
Defined.

Lemma audited_link2 :
  auditedLink AsciiText.trim allCollected page2 link2
              " lire la SUITE " "/article-2".
Proof.
  unfold auditedLink. split; [eexists; reflexivity|]. split.
  - exists {| entry_url := url2; collectedData := Some collected2 |}, collected2.
    split; [reflexivity|]. split; [reflexivity|]. now left.
  - repeat split. discriminate.
Defined.

Lemma hrefs_differ : "/article-1" <> "/article-2".
Proof. discriminate. Defined.

(** The two pages of the repository's duplicate-label test, here with no
    rule-engine finding: both per-page entries of 6.1 are flagged. *)
Lemma duplicate_labels_flagged_witness :
  exists page1' page2',
    nth_error
      (snd (aggregateResults AsciiText.toLowerCase AsciiText.trim
                             exampleMapping [page1; page2]
                             (Some allCollected))) 0 = Some page1' /\
    nth_error
      (snd (aggregateResults AsciiText.toLowerCase AsciiText.trim
                             exampleMapping [page1; page2]
                             (Some allCollected))) 1 = Some page2' /\
    carriesDuplicateFlag page1 page1' link1 /\
    carriesDuplicateFlag page2 page2' link2.
Proof.
  apply (@DuplicateFacts.duplicate_labels_flagged
           AsciiText.toLowerCase AsciiText.trim exampleMapping
           [page1; page2] allCollected 0 1 page1 page2 link1 link2
           "Lire la suite" " lire la SUITE " "/article-1" "/article-2"
           eq_refl eq_refl audited_link1 audited_link2 eq_refl hrefs_differ).
Defined.

(** C1. On the two pages of the repository's duplicate-label test, with no
    rule-engine finding, the code does not do what C1 says: each page has
    a link with the same normalized label and another destination, both
    pages pass criterion 6.1 on their own, and the aggregated entry of 6.1
    still says [pass]. [detectDuplicateLabels] sets the status of the
    per-page entries to [violation], but [aggregateResults] calls it after
    it has resolved the aggregated statuses. *)
Lemma duplicate_labels_aggregate_not_upgraded :
  auditedLink AsciiText.trim allCollected page1 link1
              "Lire la suite" "/article-1" /\
  auditedLink AsciiText.trim allCollected page2 link2
              " lire la SUITE " "/article-2" /\
  normalizeLabel AsciiText.toLowerCase AsciiText.trim "Lire la suite"
  = normalizeLabel AsciiText.toLowerCase AsciiText.trim " lire la SUITE " /\
  "/article-1" <> "/article-2" /\
  map status (filter is61 (criteria page1)) = [pass] /\
  map status (filter is61 (criteria page2)) = [pass] /\
  ~ aggregateUpgraded
      (fst (aggregateResults AsciiText.toLowerCase AsciiText.trim
                             exampleMapping [page1; page2]
                             (Some allCollected))).
Proof.
  split; [exact audited_link1|]. split; [exact audited_link2|].
  split; [reflexivity|]. split; [exact hrefs_differ|].
  split; [reflexivity|]. split; [reflexivity|].
  intros H.
  specialize (H {| agg_rgaaId := "6.1"; agg_title := "Liens";
                   agg_theme := "Liens"; agg_status := pass;
                   pagesViolating := [];
                   pagesPass := [url1; url2];
                   pagesManual := []; pagesIncomplete := [] |}).
  cbn [agg_rgaaId agg_status] in H.
  assert (Hv : pass = violation); [|discriminate Hv].
  apply H; [|reflexivity].
  vm_compute. right. left. reflexivity.
Qed.

(** Two pages, one of them violating criterion 1.1: four entries, each
    with the status the precedence gives. *)
Lemma aggregate_status_precedence_witness :
  map (fun agg => (agg_rgaaId agg, agg_status agg))
      (sum_criteria
         (fst (aggregateResults AsciiText.toLowerCase AsciiText.trim
                                exampleMapping [page1; pageViolating]
                                None)))
  = [("1.1", violation); ("6.1", pass); ("8.6", manual);
     ("9.1", incomplete)].
Proof.
  exact (proj1 (@AggregatorFacts.aggregate_status_precedence
                  AsciiText.toLowerCase AsciiText.trim exampleMapping
                  [page1; pageViolating] None)).
Defined.

Example aggregate_two_pages_example :
  map (fun agg => (agg_rgaaId agg, agg_status agg))
      (sum_criteria
         (fst (aggregateResults AsciiText.toLowerCase AsciiText.trim
                                exampleMapping [page1; page2]
                                (Some allCollected))))
  = [("1.1", pass); ("6.1", pass); ("8.6", manual); ("9.1", incomplete)].
Proof. reflexivity. Qed.

End MapperExamples.

(* ------------------------------------------------------------------ *)
(** ** The worker pool: transitions *)
(* ------------------------------------------------------------------ *)

Module PoolFacts.

Import JS Analyzer AnalyzerSpec JSFacts.

#[local] Unset Implicit Arguments.

Lemma setWorker_split ws : forall w x y,
  nth_error ws w = Some x ->
  exists l1 l2, ws = l1 ++ x :: l2 /\ setWorker ws w y = l1 ++ y :: l2.
Proof.
  induction ws as [|a ws IH]; intros [|w] x y H; cbn in *; try discriminate.
  - injection H as ->. now exists [], ws.
  - destruct (IH w x y H) as (l1 & l2 & -> & ->).
    now exists (a :: l1), l2.
Qed.

Lemma setWorker_length ws : forall w x,
  List.length (setWorker ws w x) = List.length ws.
Proof.
  induction ws as [|a ws IH]; intros [|w] x; cbn; try reflexivity.
  now rewrite IH.
Qed.

Lemma startUrls_app a b : startUrls (a ++ b) = startUrls a ++ startUrls b.
Proof. apply flat_map_app. Qed.

Lemma terminalUrls_app a b :
  terminalUrls (a ++ b) = terminalUrls a ++ terminalUrls b.
Proof. apply flat_map_app. Qed.

Lemma countAuditComplete_app a b :
  countAuditComplete (a ++ b)
  = (countAuditComplete a + countAuditComplete b)%nat.
Proof. unfold countAuditComplete. now rewrite filter_app, length_app. Qed.

Lemma auditingUrls_app a b :
  auditingUrls (a ++ b) = auditingUrls a ++ auditingUrls b.
Proof. apply flat_map_app. Qed.

Lemma savingUrls_app a b : savingUrls (a ++ b) = savingUrls a ++ savingUrls b.
Proof. apply flat_map_app. Qed.

Lemma terminalEvent_url u r : terminalFor (terminalEvent u r) = Some u.
Proof. unfold terminalEvent. now destruct (hasError r). Qed.

Lemma terminalEvent_start u r : startUrls [terminalEvent u r] = [].
Proof. unfold terminalEvent. now destruct (hasError r). Qed.

Lemma terminalEvent_terminal u r : terminalUrls [terminalEvent u r] = [u].
Proof. unfold terminalEvent. now destruct (hasError r). Qed.

Lemma terminalEvent_notComplete u r :
  countAuditComplete [terminalEvent u r] = 0%nat.
Proof. unfold terminalEvent. now destruct (hasError r). Qed.

(** Case analysis on a transition: the label, the state of the worker it
    names, and the head of the queue or of the buffer. *)
Ltac step_cases H :=
  match type of H with
  | step ?l ?p = Some ?p' =>
      destruct l; cbn [step] in H;
      try (match type of H with
           | context [workerHead ?q] =>
               unfold workerHead in H; destruct (urlQueue q) eqn:?
           end);
      repeat (match type of H with
              | context [match ?x with _ => _ end] => destruct x eqn:?
              end; cbv beta iota in H);
      try discriminate H; injection H as H; subst p';
      repeat match goal with
             | E : ?v = _ |- _ =>
                 is_var v;
                 match type of v with
                 | WorkerState => subst v
                 | bool => subst v
                 end
             end
  end.

Lemma step_workers_length l p p' :
  step l p = Some p' ->
  List.length (workers p') = List.length (workers p).
Proof.
  intros H. step_cases H; cbn; rewrite ?setWorker_length; reflexivity.
Qed.

Lemma count_app (a b : list string) u :
  count (a ++ b) u = (count a u + count b u)%nat.
Proof. apply count_occ_app. Qed.

Lemma forallb_isResolved_split l1 x l2 :
  forallb isResolved (l1 ++ x :: l2) = true -> isResolved x = true.
Proof.
  rewrite forallb_app. cbn. intros H.
  apply andb_prop in H. destruct H as [_ H].
  apply andb_prop in H. now destruct H.
Qed.

Lemma noFailure_split l1 x l2 :
  forallb (fun w => negb (hasFailed w)) (l1 ++ x :: l2)
  = forallb (fun w => negb (hasFailed w)) l1
    && (negb (hasFailed x)
        && forallb (fun w => negb (hasFailed w)) l2).
Proof. now rewrite forallb_app. Qed.

Lemma existsb_isResolved_split l1 x l2 :
  existsb isResolved (l1 ++ x :: l2)
  = existsb isResolved l1 || (isResolved x || existsb isResolved l2).
Proof. now rewrite existsb_app. Qed.


Lemma busy_not_done urls p l1 x l2 :
  streamInv urls p -> workers p = l1 ++ x :: l2 -> isResolved x = false ->
  allDone p = false /\ returned p = false.
Proof.
  intros (_ & _ & _ & _ & I5 & I6) Hws Hx.
  assert (Hd : allDone p = false).
  { destruct (allDone p); [|reflexivity].
    destruct (I5 eq_refl) as [Hr _]. rewrite Hws in Hr.
    apply forallb_isResolved_split in Hr. congruence. }
  split; [assumption|].
  destruct (returned p); [|reflexivity].
  destruct (I6 eq_refl) as [Hr _]. congruence.
Qed.

Ltac norm :=
  rewrite ?startUrls_app, ?terminalUrls_app, ?auditingUrls_app,
    ?countAuditComplete_app, ?count_app, ?terminalEvent_start,
    ?terminalEvent_terminal, ?terminalEvent_notComplete,
    ?forallb_app, ?existsb_app;
  cbn [startUrls terminalUrls auditingUrls flat_map app countAuditComplete
       filter isAuditComplete List.length forallb existsb hasFailed
       isResolved negb andb orb].

Lemma streamInv_step urls l p p' :
  streamInv urls p -> step l p = Some p' -> streamInv urls p'.
Proof.
  intros I H. pose proof I as (I1 & I2 & I3 & I4 & I5 & I6).
  step_cases H.
  all: try (match goal with
            | E : nth_error (workers _) _ = Some ?x
              |- context [setWorker _ _ ?y] =>
                destruct (setWorker_split _ _ _ y E) as (l1 & l2 & Hws & Hset);
                destruct (busy_not_done urls p l1 x l2 I Hws eq_refl)
                  as [Hnd Hnr]
            end).
  all: clear I.
  all: unfold streamInv, pushed, noFailure in *.
  all: cbn [urlQueue state eventBuffer workers allDone yielded returned durable trace withWorkers pushEvent].
  all: try rewrite Hset; try rewrite Hws in *.
  all: try rewrite Hnd in *; try rewrite Hnr in *.
  all: try match goal with Hq : urlQueue _ = _ |- _ => rewrite Hq in * end.
  all: try match goal with Hb : eventBuffer _ = _ |- _ => rewrite Hb in * end.
  all: try match goal with
           | Hc : _ && _ = true |- _ =>
               apply andb_prop in Hc; destruct Hc as [Hc1 Hc2];
               try apply negb_true_iff in Hc1;
               try apply negb_true_iff in Hc2
           end.
  all: rewrite <- ?app_assoc; cbn [app]; rewrite ?app_nil_r.
  all: repeat match goal with |- _ /\ _ => split end.
  all: try assumption.
  all: try (intros; discriminate).
  all: try (intros; reflexivity).
  all: try rewrite ?startUrls_app in I1.
  all: try rewrite ?startUrls_app, ?terminalUrls_app in I2.
  all: try rewrite ?countAuditComplete_app in I4.
  (* I1 *)
  all: try solve [rewrite <- I1; norm; rewrite <- ?app_assoc; cbn [app];
                  rewrite ?app_nil_r; reflexivity].
  (* I4 *)
  all: try solve [intros Hd; norm; rewrite ?app_nil_r; rewrite <- (I4 Hd);
                  cbn; lia].
  (* I3 *)
  all: try solve [intros Hex; apply I3; revert Hex; norm; auto].
  all: try solve [intros Hex; exfalso;
                  match type of I3 with
                  | _ -> ?a = ?b =>
                      assert (Hq' : a = b);
                      [apply I3; revert Hex; norm; auto | discriminate]
                  end].
  (* I2 *)
  all: try solve [intros Hnf u; revert Hnf; norm;
                  rewrite ?andb_false_r; try discriminate;
                  intros Hnf; revert I2; norm; intros I2;
                  specialize (I2 Hnf u); revert I2; norm;
                  cbn [count_occ]; rewrite ?app_nil_r;
                  repeat match goal with
                         | |- context [string_dec ?a ?b] =>
                             destruct (string_dec a b)
                         end; lia].
  - intros _. split; [assumption|].
    eexists (yielded p ++ eventBuffer p), _. split.
    + now rewrite app_assoc.
    + rewrite countAuditComplete_app. now apply I4.
  - intros Hr. destruct (I6 Hr) as [Hd _]. congruence.
  - intros Hd. destruct (I5 Hd) as [Hr (body & s & Heq & Hc)].
    rewrite app_nil_r in Heq. eauto.
  - intros _. now split.
Qed.

Lemma streamInv_run urls ls : forall p p',
  streamInv urls p -> run ls p = Some p' -> streamInv urls p'.
Proof.
  induction ls as [|l ls IH]; cbn; intros p p' I H.
  - now injection H as <-.
  - destruct (step l p) as [p1|] eqn:E; [|discriminate].
    apply (IH p1 p'); [|assumption]. now apply (streamInv_step urls l p).
Qed.

Lemma streamInv_spawn urls n : forall p,
  streamInv urls p -> allDone p = false -> returned p = false ->
  streamInv urls (spawn n p).
Proof.
  induction n as [|n IH]; cbn [spawn]; intros p I Hd Hr; [assumption|].
  unfold workerHead. destruct (urlQueue p) as [|u rest] eqn:Hq.
  - apply IH; [|assumption|assumption].
    destruct I as (I1 & I2 & I3 & I4 & I5 & I6).
    unfold streamInv, pushed, noFailure in *.
    cbn [urlQueue state eventBuffer workers allDone yielded returned
         withWorkers].
    rewrite Hq, Hd, Hr in *.
    repeat match goal with |- _ /\ _ => split end;
      try assumption; try (intros; discriminate); try reflexivity.
    intros Hnf u. rewrite forallb_app in Hnf.
    apply andb_prop in Hnf. destruct Hnf as [Hnf _].
    rewrite auditingUrls_app. cbn. rewrite app_nil_r. now apply I2.
  - apply IH; [|assumption|assumption].
    destruct I as (I1 & I2 & I3 & I4 & I5 & I6).
    unfold streamInv, pushed, noFailure in *.
    cbn [urlQueue state eventBuffer workers allDone yielded returned
         withWorkers pushEvent].
    rewrite Hq, Hd, Hr in *.
    repeat match goal with |- _ /\ _ => split end;
      try (intros; discriminate).
    + rewrite <- I1. rewrite !startUrls_app. cbn.
      now rewrite <- !app_assoc.
    + intros Hnf v. rewrite forallb_app in Hnf.
      apply andb_prop in Hnf. destruct Hnf as [Hnf _].
      specialize (I2 Hnf v). revert I2. norm. cbn [count_occ].
      rewrite ?app_nil_r. destruct (string_dec u v); lia.
    + intros Hex. rewrite existsb_app in Hex. cbn in Hex.
      rewrite !orb_false_r in Hex. specialize (I3 Hex). discriminate.
    + intros _. norm. pose proof (I4 eq_refl) as H4.
      rewrite countAuditComplete_app in H4. lia.
Qed.

Lemma streamInv_init urls options now :
  streamInv urls (auditPages urls options now).
Proof.
  unfold auditPages. apply streamInv_spawn; try reflexivity.
  unfold streamInv, pushed, noFailure. cbn.
  repeat split; try discriminate; try reflexivity.
Qed.

Lemma spawn_workers n : forall p,
  List.length (workers (spawn n p)) = (List.length (workers p) + n)%nat.
Proof.
  induction n as [|n IH]; cbn [spawn]; intros p; [lia|].
  unfold workerHead. destruct (urlQueue p); rewrite IH; cbn;
    rewrite length_app; cbn; lia.
Qed.

Lemma auditPages_workers urls options now :
  List.length (workers (auditPages urls options now)) = contexts options.
Proof. unfold auditPages. now rewrite spawn_workers. Qed.

Lemma run_workers_length ls : forall p p',
  run ls p = Some p' ->
  List.length (workers p') = List.length (workers p).
Proof.
  induction ls as [|l ls IH]; cbn; intros p p' H.
  - now injection H as <-.
  - destruct (step l p) as [p1|] eqn:E; [|discriminate].
    rewrite (IH p1 p' H). now apply (step_workers_length l).
Qed.

Lemma allResolved_quiet ws :
  forallb isResolved ws = true ->
  forallb (fun w => negb (hasFailed w)) ws = true /\ auditingUrls ws = [].
Proof.
  unfold auditingUrls.
  induction ws as [|w ws IH]; cbn [forallb flat_map]; [now split|].
  intros H. apply andb_prop in H. destruct H as [Hw H].
  destruct (IH H) as [-> ->]. now destruct w.
Qed.

Lemma allResolved_some ws :
  (1 <= List.length ws)%nat -> forallb isResolved ws = true ->
  existsb isResolved ws = true.
Proof.
  destruct ws as [|w ws]; cbn; [lia|].
  intros _ H. apply andb_prop in H. destruct H as [-> _]. reflexivity.
Qed.

(** The stream of a run that has returned, with at least one worker. *)
Lemma returned_stream urls p :
  streamInv urls p -> (1 <= List.length (workers p))%nat ->
  returned p = true -> completeStream urls (yielded p).
Proof.
  intros (I1 & I2 & I3 & I4 & I5 & I6) Hn Hr.
  destruct (I6 Hr) as [Hd Hb].
  destruct (I5 Hd) as [Hres (body & s & Hp & Hc)].
  unfold pushed in *. rewrite Hb, app_nil_r in *.
  destruct (allResolved_quiet _ Hres) as [Hnf Ha].
  rewrite (I3 (allResolved_some _ Hn Hres)), app_nil_r in I1.
  assert (Hperm : Permutation (terminalUrls (yielded p)) urls).
  { rewrite <- I1. apply (Permutation_count_occ string_dec). intros u.
    specialize (I2 Hnf u). rewrite Ha in I2. cbn in I2. lia. }
  unfold completeStream. repeat split.
  - assumption.
  - assumption.
  - now rewrite I1.
  - now apply Permutation_length.
  - rewrite Hp, countAuditComplete_app, Hc. reflexivity.
  - now exists body, s.
Qed.

(** *** Termination: every transition lowers the measure *)

Lemma weight_split l1 x l2 :
  list_sum (map weight (l1 ++ x :: l2))
  = (list_sum (map weight l1) + weight x + list_sum (map weight l2))%nat.
Proof.
  rewrite map_app, list_sum_app. cbn [map]. unfold list_sum.
  cbn [fold_right]. lia.
Qed.

Lemma step_measure l p p' :
  step l p = Some p' -> (measure p' < measure p)%nat.
Proof.
  intros H. step_cases H.
  all: try (match goal with
            | E : nth_error (workers _) _ = Some ?x
              |- context [setWorker _ _ ?y] =>
                destruct (setWorker_split _ _ _ y E) as (l1 & l2 & Hws & Hset)
            end).
  all: unfold measure.
  all: cbn [urlQueue state eventBuffer workers allDone yielded returned
            durable trace withWorkers pushEvent].
  all: try rewrite Hset; try rewrite Hws.
  all: try match goal with Hq : urlQueue _ = _ |- _ => rewrite Hq end.
  all: try match goal with Hb : eventBuffer _ = _ |- _ => rewrite Hb end.
  all: try match goal with
           | Hc : _ && _ = true |- _ =>
               apply andb_prop in Hc; destruct Hc as [Hc1 Hc2];
               try apply negb_true_iff in Hc1;
               try apply negb_true_iff in Hc2
           end.
  all: rewrite ?weight_split, ?length_app; cbn [weight List.length].
  all: try match goal with Hd : allDone _ = _ |- _ => rewrite Hd end.
  all: try match goal with Hd : returned _ = _ |- _ => rewrite Hd end.
  all: repeat match goal with
              | |- context [if ?b then _ else _] => destruct b
              end; lia.
Qed.

Lemma run_measure ls : forall p p',
  run ls p = Some p' -> (List.length ls + measure p' <= measure p)%nat.
Proof.
  induction ls as [|l ls IH]; cbn [run List.length]; intros p p' H.
  - injection H as <-. lia.
  - destruct (step l p) as [p1|] eqn:E; [|discriminate].
    specialize (IH p1 p' H). apply step_measure in E. lia.
Qed.

Lemma spawn_measure n : forall p, measure (spawn n p) = measure p.
Proof.
  induction n as [|n IH]; cbn [spawn]; intros p; [reflexivity|].
  unfold workerHead. destruct (urlQueue p) as [|u rest] eqn:Hq; rewrite IH;
    unfold measure;
    cbn [urlQueue state eventBuffer workers allDone yielded returned
         withWorkers pushEvent];
    rewrite ?Hq, map_app, list_sum_app, ?length_app; cbn; lia.
Qed.

Lemma auditPages_measure urls options now :
  measure (auditPages urls options now) = runBound urls.
Proof.
  unfold auditPages. rewrite spawn_measure. unfold measure, runBound. cbn. lia.
Qed.

(** *** Progress: a run that has not failed can always go on *)

Lemma find_busy ws :
  forallb isResolved ws = true \/
  exists w x, nth_error ws w = Some x /\ isResolved x = false.
Proof.
  induction ws as [|a ws IH]; cbn; [now left|].
  destruct (isResolved a) eqn:Ea.
  - destruct IH as [->|(w & x & Hw & Hx)]; [now left|].
    right. now exists (S w), x.
  - right. now exists 0%nat, a.
Qed.

Lemma noFailure_set p l1 x y l2 :
  workers p = l1 ++ x :: l2 -> noFailure p = true -> hasFailed y = false ->
  forallb (fun w => negb (hasFailed w)) (l1 ++ y :: l2) = true.
Proof.
  unfold noFailure. intros -> H Hy. rewrite forallb_app in *. cbn in *.
  apply andb_prop in H. destruct H as [-> H].
  apply andb_prop in H. destruct H as [_ ->]. now rewrite Hy.
Qed.

Lemma noFailure_at p l1 x l2 :
  workers p = l1 ++ x :: l2 -> noFailure p = true -> hasFailed x = false.
Proof.
  unfold noFailure. intros -> H. rewrite forallb_app in H. cbn in H.
  apply andb_prop in H. destruct H as [_ H].
  apply andb_prop in H. destruct H as [H _]. now apply negb_true_iff in H.
Qed.

Ltac close_progress Hw p x :=
  split; [reflexivity|]; unfold noFailure;
  cbn [workers withWorkers pushEvent];
  match goal with
  | |- context [setWorker _ _ ?y] =>
      let l1 := fresh "l" in
      let l2 := fresh "l" in
      let E := fresh "E" in
      destruct (setWorker_split _ _ _ y Hw) as (l1 & l2 & E & ->);
      now apply (noFailure_set p l1 x _ l2)
  end.

Lemma progress p :
  noFailure p = true -> returned p = false ->
  exists l p', step l p = Some p' /\ noFailure p' = true.
Proof.
  intros Hnf Hr.
  destruct (find_busy (workers p)) as [Hres|(w & x & Hw & Hx)].
  - destruct (allDone p) eqn:Hd.
    + destruct (eventBuffer p) as [|ev rest] eqn:Hb.
      * exists Return. eexists. cbn. rewrite Hr, Hd, Hb. cbn.
        split; [reflexivity | exact Hnf].
      * exists Yield. eexists. cbn. rewrite Hr, Hb.
        split; [reflexivity | exact Hnf].
    + exists (WorkersSettled ""). eexists. cbn. rewrite Hres, Hd. cbn.
      split; [reflexivity | exact Hnf].
  - destruct (setWorker_split _ _ _ Resolved Hw) as (l1 & l2 & Hws & _).
    pose proof (noFailure_at p l1 x l2 Hws Hnf) as Hx'.
    destruct x as [u|u r|u r snap|[|]| |]; try discriminate.
    + exists (AuditReturns w "" (AuditThrew "")). eexists.
      cbn [step]. rewrite Hw. close_progress Hw p (Auditing u).
    + exists (MkdirDone w). eexists.
      cbn [step]. rewrite Hw. close_progress Hw p (Saving u r).
    + exists (RenameDone w). eexists.
      cbn [step]. rewrite Hw. close_progress Hw p (Writing u r snap).
    + exists (CloseDone w). cbn [step]. rewrite Hw. unfold workerHead.
      destruct (urlQueue p) as [|u rest]; eexists;
        close_progress Hw p (Closing false).
Qed.

Lemma completes n : forall p,
  (measure p <= n)%nat -> noFailure p = true ->
  exists ls p', run ls p = Some p' /\ returned p' = true.
Proof.
  induction n as [|n IH]; intros p Hm Hnf.
  - exists [], p. split; [reflexivity|].
    unfold measure in Hm. destruct (returned p); [reflexivity | lia].
  - destruct (returned p) eqn:Hr; [now exists [], p|].
    destruct (progress p Hnf Hr) as (l & p1 & Hs & Hnf1).
    pose proof (step_measure l p p1 Hs) as Hlt.
    destruct (IH p1) as (ls & p' & Hrun & Hret); [lia | assumption|].
    exists (l :: ls), p'. cbn. now rewrite Hs.
Qed.

Lemma spawn_noFailure n : forall p,
  noFailure p = true -> noFailure (spawn n p) = true.
Proof.
  induction n as [|n IH]; cbn [spawn]; intros p H; [assumption|].
  unfold workerHead. destruct (urlQueue p); apply IH; unfold noFailure in *;
    cbn; rewrite forallb_app, H; reflexivity.
Qed.

Lemma auditPages_completes urls options now :
  exists ls p,
    run ls (auditPages urls options now) = Some p /\ returned p = true.
Proof.
  apply (completes (measure (auditPages urls options now))); [lia|].
  unfold auditPages. now apply spawn_noFailure.
Qed.

(** *** The contexts created *)

Lemma concurrency_below options (i : Z) :
  num_ltb (ofZ i) (concurrency options)
  = num_ltb (ofZ i) (requested options) && (i <? 3)%Z.
Proof. unfold concurrency. apply num_ltb_min. Qed.

Lemma pushContexts_le bound : forall rounds i,
  (pushContexts rounds i bound <= rounds)%nat.
Proof.
  induction rounds as [|rounds IH]; intros i; cbn [pushContexts]; [lia|].
  destruct (num_ltb (ofZ i) bound); [|lia].
  specialize (IH (i + 1)%Z). lia.
Qed.

Lemma contexts_at_most options : (contexts options <= 3)%nat.
Proof. apply pushContexts_le. Qed.

(** What the three rounds give, by the integers below the request. *)
Lemma contexts_rounds options :
  contexts options
  = if num_ltb (ofZ 0) (requested options) then
      S (if num_ltb (ofZ 1) (requested options) then
           S (if num_ltb (ofZ 2) (requested options) then 1 else 0)
         else 0)
    else 0.
Proof.
  unfold contexts. cbn [pushContexts Z.add Pos.add Pos.succ].
  rewrite !concurrency_below. cbn [Z.ltb Z.compare Pos.compare
    Pos.compare_cont]. now rewrite !andb_true_r.
Qed.

(** The contexts are counted by the integers from 0 that are below the
    requested concurrency, and below 3. *)
Lemma contexts_below options (i : nat) :
  (i < contexts options)%nat <->
  num_ltb (ofZ (Z.of_nat i)) (requested options) = true /\ (i < 3)%nat.
Proof.
  rewrite contexts_rounds.
  pose proof (@num_ltb_below 0 1 (requested options) ltac:(lia)) as H10.
  pose proof (@num_ltb_below 1 2 (requested options) ltac:(lia)) as H21.
  destruct i as [|[|[|i]]]; cbn [Z.of_nat Pos.of_succ_nat Pos.succ];
    destruct (num_ltb (ofZ 0) (requested options)),
             (num_ltb (ofZ 1) (requested options)),
             (num_ltb (ofZ 2) (requested options));
    try (specialize (H10 eq_refl)); try (specialize (H21 eq_refl));
    try discriminate; split; intros H; try lia;
    try (split; [reflexivity | lia]);
    try (destruct H as [H _]; discriminate H);
    try (destruct H; lia).
Qed.


Lemma contexts_integer options z :
  num_eqb (requested options) (ofZ z) = true ->
  contexts options = Z.to_nat (Z.min z 3).
Proof.
  intros H. rewrite contexts_rounds.
  rewrite !(fun a => @num_eqb_ltb a z (requested options) H).
  destruct (0 <? z)%Z eqn:E0; [apply Z.ltb_lt in E0 | apply Z.ltb_ge in E0];
    [|lia].
  destruct (1 <? z)%Z eqn:E1; [apply Z.ltb_lt in E1 | apply Z.ltb_ge in E1];
    [|lia].
  destruct (2 <? z)%Z eqn:E2; [apply Z.ltb_lt in E2 | apply Z.ltb_ge in E2];
    lia.
Qed.

Lemma contexts_positive options :
  atLeast 1 options -> (1 <= contexts options)%nat.
Proof.
  intros H. apply (contexts_below options 0). split; [|lia].
  now apply (@num_leb_ltb 0 1).
Qed.

(** C7, as the code has it. When the requested concurrency is at least 1
    (or left at its default), the stream of every run that returns has one
    [page_start] per input url, in input order, one terminal page event
    ([page_complete] or [page_error]) per input url, so both counts equal
    the input length, and exactly one [audit_complete], its last element.
    Such a run exists, no run takes more than [runBound urls] transitions,
    and a run in which nothing failed can go on until it returns. *)
Theorem event_stream_complete
    (urls : list string) (options : AuditPagesOptions) (now : string) :
  atLeast 1 options ->
  let p0 := auditPages urls options now in
  (forall ls p, run ls p0 = Some p -> returned p = true ->
                completeStream urls (yielded p)) /\
  (forall ls p, run ls p0 = Some p ->
                (List.length ls <= runBound urls)%nat) /\
  (forall ls p, run ls p0 = Some p ->
                noFailure p = true -> returned p = false ->
                exists l p', step l p = Some p') /\
  (exists ls p, run ls p0 = Some p /\ returned p = true).
Proof.
  intros Hreq p0. split; [|split; [|split]].
  - intros ls p Hrun Hret.
    apply returned_stream; [|
      rewrite (run_workers_length ls p0 p Hrun); unfold p0;
      rewrite auditPages_workers; now apply contexts_positive | assumption].
    apply (streamInv_run urls ls p0 p); [apply streamInv_init | assumption].
  - intros ls p Hrun. apply run_measure in Hrun. unfold p0 in Hrun.
    rewrite auditPages_measure in Hrun. lia.
  - intros ls p _ Hnf Hr.
    destruct (progress p Hnf Hr) as (l & p' & Hs & _). now exists l, p'.
  - apply auditPages_completes.
Qed.



(** *** The session *)

Lemma auditingUrls_cons x l :
  auditingUrls (x :: l)
  = match x with Auditing u => [u] | _ => [] end ++ auditingUrls l.
Proof. reflexivity. Qed.

Lemma filter_absent (u : string) (l : list string) :
  ~ In u l -> filter (fun x => negb (x =? u)) l = l.
Proof.
  induction l as [|b l IH]; cbn; intros Hna; [reflexivity|].
  destruct (b =? u) eqn:E.
  - apply String.eqb_eq in E. subst. exfalso. apply Hna. now left.
  - cbn. f_equal. apply IH. intros H. apply Hna. now right.
Qed.

Lemma filter_other_perm (u : string) (l : list string) :
  NoDup l -> In u l ->
  Permutation l (u :: filter (fun x => negb (x =? u)) l).
Proof.
  induction l as [|a l IH]; intros Hnd Hin; [contradiction|].
  inversion Hnd as [|? ? Hna Hnd']; subst. cbn.
  destruct Hin as [->|Hin].
  - rewrite String.eqb_refl. cbn. constructor.
    now rewrite filter_absent.
  - destruct (a =? u) eqn:E.
    + apply String.eqb_eq in E. subst. contradiction.
    + cbn. rewrite perm_swap. constructor. now apply IH.
Qed.

Lemma take_perm (A1 A2 Q : list string) (u : string) :
  Permutation ((A1 ++ A2) ++ u :: Q) ((A1 ++ u :: A2) ++ Q).
Proof.
  rewrite <- !app_assoc. cbn. apply Permutation_app_head.
  symmetry. apply Permutation_middle.
Qed.

Lemma recordResult_invariant urls u r s :
  NoDup urls -> sessionInvariantOwn urls s -> In u (pendingPages s) ->
  sessionInvariantOwn urls (recordResult u r s).
Proof.
  intros Hnd (HP & HN & HR) Hin. unfold sessionInvariantOwn. cbn.
  assert (HNp : NoDup (pendingPages s)) by now apply NoDup_app_remove_l in HN.
  assert (Hperm : Permutation
                    ((completedPages s ++ [u])
                     ++ filter (fun x => negb (x =? u)) (pendingPages s))
                    urls).
  { rewrite <- HP, <- app_assoc. cbn. apply Permutation_app_head.
    symmetry. now apply filter_other_perm. }
  split; [assumption|]. split.
  - apply (Permutation_NoDup (l := urls)); [now symmetry | assumption].
  - intros x Hx Hproto. apply in_app_or in Hx.
    destruct Hx as [Hx|[<-|[]]].
    + destruct (HR x Hx Hproto) as (r0 & Hr0).
      destruct (String.eqb u x) eqn:E.
      * apply String.eqb_eq in E. subst. exists r.
        now apply get_assign_same.
      * apply String.eqb_neq in E. exists r0.
        rewrite get_assign_other; [assumption | congruence].
    + exists r. now apply get_assign_same.
Qed.

Lemma sessInv_step urls l p p' :
  NoDup urls ->
  sessInv urls p -> step l p = Some p' -> sessInv urls p'.
Proof.
  intros Hnd (K1 & K2 & K3) H.
  step_cases H.
  all: try (match goal with
            | E : nth_error (workers _) _ = Some ?x
              |- context [setWorker _ _ ?y] =>
                destruct (setWorker_split _ _ _ y E) as (l1 & l2 & Hws & Hset)
            end).
  all: unfold sessInv.
  all: cbn [urlQueue state eventBuffer workers allDone yielded returned
            durable trace withWorkers pushEvent].
  all: try rewrite Hset; try rewrite Hws in *.
  all: try match goal with Hq : urlQueue _ = _ |- _ => rewrite Hq in * end.
  all: rewrite ?auditingUrls_app, ?auditingUrls_cons in *; cbn [app] in *.
  all: repeat match goal with |- _ /\ _ => split end.
  all: try assumption.
  (* a url leaves the workers *)
  all: try solve [rewrite <- app_assoc in *; cbn [app] in *;
                  now apply NoDup_remove_1 in K2].
  all: try solve [intros x Hx; apply K3; rewrite <- app_assoc in *;
                  cbn [app]; apply in_app_or in Hx; apply in_or_app;
                  destruct Hx as [Hx|Hx]; [now left | right; now right]].
  (* a url is taken from the queue *)
  all: try solve [apply (Permutation_NoDup (take_perm _ _ _ _)); assumption].
  all: try solve [intros x Hx; apply K3;
                  apply (Permutation_in x (Permutation_sym (take_perm _ _ _ _)));
                  assumption].
  - (* the session after a page *)
    apply recordResult_invariant; [assumption | assumption |].
    apply K3. apply in_or_app. left. apply in_or_app. right. now left.
  - intros x Hx. cbn. apply filter_In. split.
    + apply K3. rewrite <- app_assoc in *. cbn [app].
      apply in_app_or in Hx. apply in_or_app.
      destruct Hx as [Hx|Hx]; [now left | right; now right].
    + rewrite <- app_assoc in K2. cbn [app] in K2.
      apply NoDup_remove_2 in K2. apply negb_true_iff, String.eqb_neq.
      intros ->. apply K2. now rewrite <- app_assoc in Hx.
Qed.

Lemma sessInv_run urls ls : forall p p',
  NoDup urls -> sessInv urls p -> run ls p = Some p' -> sessInv urls p'.
Proof.
  induction ls as [|l ls IH]; cbn [run]; intros p p' Hnd I H.
  - now injection H as <-.
  - destruct (step l p) as [p1|] eqn:E; [|discriminate].
    apply (IH p1 p'); [assumption| |assumption].
    now apply (sessInv_step urls l p).
Qed.

Lemma sessInv_spawn urls n : forall p,
  sessInv urls p -> sessInv urls (spawn n p).
Proof.
  induction n as [|n IH]; cbn [spawn]; intros p I; [assumption|].
  unfold workerHead. destruct (urlQueue p) as [|u rest] eqn:Hq; apply IH.
  - destruct I as (K1 & K2 & K3). unfold sessInv.
    cbn [urlQueue state workers durable withWorkers].
    rewrite Hq in *. rewrite auditingUrls_app, auditingUrls_cons. cbn.
    rewrite !app_nil_r in *.
    exact (conj K1 (conj K2 K3)).
  - destruct I as (K1 & K2 & K3). unfold sessInv.
    cbn [urlQueue state workers durable withWorkers pushEvent].
    rewrite Hq in *. rewrite auditingUrls_app, auditingUrls_cons. cbn.
    rewrite <- app_assoc. cbn.
    exact (conj K1 (conj K2 K3)).
Qed.

Lemma sessInv_init urls options now :
  NoDup urls -> sessInv urls (auditPages urls options now).
Proof.
  intros Hnd. unfold auditPages. apply sessInv_spawn.
  unfold sessInv, sessionInvariantOwn. cbn.
  repeat split; try assumption; try reflexivity; try constructor;
    try (intros ? []); try discriminate; try apply incl_refl.
Qed.

(** C10, as the code has it. When the input urls are pairwise distinct, in
    every state of an audit run [completedPages] and [pendingPages]
    together hold each input url exactly once (a permutation of the input
    without duplicates), and [results] has an entry for every url of
    [completedPages] other than [__proto__]: for every url of
    [completedPages] when no input url is [__proto__]. *)
Theorem session_invariant
    (urls : list string) (options : AuditPagesOptions) (now : string)
    (ls : list Label) (p : Pool) :
  NoDup urls ->
  run ls (auditPages urls options now) = Some p ->
  sessionInvariantOwn urls (state p) /\
  (~ In "__proto__" urls -> sessionInvariant urls (state p)).
Proof.
  intros Hnd Hrun.
  destruct (sessInv_run urls ls _ p Hnd (sessInv_init urls options now Hnd)
              Hrun) as ((K1 & K2 & K3) & _).
  split; [exact (conj K1 (conj K2 K3))|].
  intros Hproto. split; [assumption|]. split; [assumption|].
  intros u Hu. apply K3; [assumption|].
  intros ->. apply Hproto.
  apply (Permutation_in _ K1). apply in_or_app. now left.
Qed.


(** *** The order of effects *)

Lemma persistedUrls_app a b :
  persistedUrls (a ++ b) = persistedUrls a ++ persistedUrls b.
Proof. apply flat_map_app. Qed.

Lemma pushedOf_app a b : pushedOf (a ++ b) = pushedOf a ++ pushedOf b.
Proof. apply flat_map_app. Qed.

Lemma emittedUrls_app a b :
  emittedUrls (a ++ b) = emittedUrls a ++ emittedUrls b.
Proof. unfold emittedUrls. now rewrite pushedOf_app, terminalUrls_app. Qed.

Lemma savingUrls_cons x l :
  savingUrls (x :: l)
  = match x with Saving u _ | Writing u _ _ => [u] | _ => [] end
    ++ savingUrls l.
Proof. reflexivity. Qed.

Lemma snoc_split {A} (tr : list A) a : forall t1 b t2,
  tr ++ [a] = t1 ++ b :: t2 ->
  (t1 = tr /\ b = a /\ t2 = []) \/
  (exists t2', tr = t1 ++ b :: t2' /\ t2 = t2' ++ [a]).
Proof.
  induction tr as [|x tr IH]; intros [|y t1] b t2 H; cbn in H.
  - injection H as <- <-. now left.
  - injection H as _ H. now destruct t1.
  - injection H as <- <-. right. now exists tr.
  - injection H as <- H. destruct (IH t1 b t2 H) as [(-> & -> & ->)|(t & -> & ->)].
    + now left.
    + right. now exists t.
Qed.

Lemma emitInBlock_other tr a :
  emitInBlock tr ->
  (forall ev u, a = Pushed ev -> terminalFor ev = Some u -> False) ->
  emitInBlock (tr ++ [a]).
Proof.
  intros H Ha t1 ev t2 u Heq Hev.
  apply snoc_split in Heq. destruct Heq as [(-> & Hb & ->)|(t2' & -> & ->)].
  - exfalso. now apply (Ha ev u).
  - now apply (H t1 ev t2' u).
Qed.

Lemma emitInBlock_emit tr u ev :
  emitInBlock tr -> terminalFor ev = Some u ->
  emitInBlock ((tr ++ [Moved u; Stored u]) ++ [Pushed ev]).
Proof.
  intros H Hev t1 ev' t2 u' Heq Hev'.
  apply snoc_split in Heq. destruct Heq as [(-> & [= ->] & ->)|(t2' & Heq & ->)].
  - exists tr. congruence.
  - revert t1 ev' t2' u' Heq Hev'.
    change (emitInBlock (tr ++ [Moved u; Stored u])).
    replace (tr ++ [Moved u; Stored u])
      with ((tr ++ [Moved u]) ++ [Stored u]) by now rewrite <- app_assoc.
    apply emitInBlock_other; [apply emitInBlock_other|]; try assumption;
      discriminate.
Qed.

Lemma persistAfterEmit_other tr a :
  persistAfterEmit tr ->
  (forall u snap, a <> Persisted u snap) ->
  persistAfterEmit (tr ++ [a]).
Proof.
  intros H Ha t1 u snap t2 Heq.
  apply snoc_split in Heq. destruct Heq as [(-> & Hb & ->)|(t2' & -> & ->)].
  - exfalso. now apply (Ha u snap).
  - now apply (H t1 u snap t2').
Qed.

Lemma persistAfterEmit_persist tr u snap :
  persistAfterEmit tr ->
  (count (persistedUrls tr) u < count (emittedUrls tr) u)%nat ->
  persistAfterEmit (tr ++ [Persisted u snap]).
Proof.
  intros H Hlt t1 u' snap' t2 Heq.
  apply snoc_split in Heq.
  destruct Heq as [(-> & [= -> ->] & ->)|(t2' & -> & ->)].
  - assumption.
  - now apply (H t1 u' snap' t2').
Qed.

Lemma persistAfterEmit_emit tr u ev :
  persistAfterEmit tr ->
  persistAfterEmit ((tr ++ [Moved u; Stored u]) ++ [Pushed ev]).
Proof.
  intros H.
  replace (tr ++ [Moved u; Stored u])
    with ((tr ++ [Moved u]) ++ [Stored u]) by now rewrite <- app_assoc.
  repeat (apply persistAfterEmit_other; [|discriminate]). assumption.
Qed.

Lemma emittedUrls_emit u r : emittedUrls [Pushed (terminalEvent u r)] = [u].
Proof. unfold emittedUrls. cbn. apply terminalEvent_terminal. Qed.

Lemma pushedOf_snoc tr ev : pushedOf (tr ++ [Pushed ev]) = pushedOf tr ++ [ev].
Proof. now rewrite pushedOf_app. Qed.

Lemma savingUrls_nil : savingUrls [] = [].
Proof. reflexivity. Qed.

Ltac tnorm :=
  rewrite ?persistedUrls_app, ?emittedUrls_app, ?pushedOf_app,
    ?savingUrls_app, ?savingUrls_cons, ?savingUrls_nil, ?count_app,
    ?forallb_app, ?emittedUrls_emit;
  cbn [persistedUrls emittedUrls pushedOf terminalUrls flat_map app
       forallb hasFailed negb andb count_occ].

Ltac decide_urls :=
  repeat match goal with
         | |- context [string_dec ?a ?b] =>
             destruct (string_dec a b); try (exfalso; congruence)
         end.

Lemma traceInv_step l p p' :
  traceInv p -> step l p = Some p' -> traceInv p'.
Proof.
  intros (T0 & T1 & T2 & T3 & T4) H.
  step_cases H.
  all: try (match goal with
            | E : nth_error (workers _) _ = Some ?x
              |- context [setWorker _ _ ?y] =>
                destruct (setWorker_split _ _ _ y E) as (l1 & l2 & Hws & Hset)
            end).
  all: unfold traceInv, pushed, noFailure in *.
  all: cbn [urlQueue state eventBuffer workers allDone yielded returned
            durable trace withWorkers pushEvent].
  all: try rewrite Hset; try rewrite Hws in *.
  all: try match goal with Hb : eventBuffer _ = _ |- _ => rewrite Hb in * end.
  all: rewrite ?app_assoc.
  all: repeat match goal with |- _ /\ _ => split end.
  all: try assumption.
  (* T0 *)
  all: try solve [rewrite !pushedOf_app; cbn [pushedOf flat_map app];
                  rewrite T0, ?app_nil_r, <- ?app_assoc; reflexivity].
  (* T1 *)
  all: try solve [apply emitInBlock_other; [assumption | discriminate]].
  all: try solve [apply emitInBlock_emit;
                  [assumption | apply terminalEvent_url]].
  all: try solve [apply emitInBlock_other; [assumption|];
                  intros ev u [= <-]; discriminate].
  (* T2 *)
  all: try solve [apply persistAfterEmit_other; [assumption | discriminate]].
  all: try solve [now apply persistAfterEmit_emit].
  all: try solve [match goal with
                  | |- persistAfterEmit (_ ++ [Persisted ?u _]) =>
                      apply persistAfterEmit_persist; [assumption|];
                      specialize (T3 u); revert T3; tnorm; decide_urls; lia
                  end].
  (* T3 *)
  all: try solve [intros u; specialize (T3 u); revert T3; tnorm;
                  decide_urls; lia].
  (* T4 *)
  all: try solve [intros Hnf u; revert Hnf; tnorm;
                  rewrite ?andb_false_r; try discriminate;
                  intros Hnf; revert T4; tnorm; intros T4;
                  specialize (T4 Hnf u); revert T4; tnorm;
                  decide_urls; lia].
Qed.

Lemma traceInv_run ls : forall p p',
  traceInv p -> run ls p = Some p' -> traceInv p'.
Proof.
  induction ls as [|l ls IH]; cbn [run]; intros p p' I H.
  - now injection H as <-.
  - destruct (step l p) as [p1|] eqn:E; [|discriminate].
    apply (IH p1 p'); [|assumption]. now apply (traceInv_step l p).
Qed.

Lemma emitInBlock_nil : emitInBlock [].
Proof. intros [|a t1] ev t2 u H; discriminate. Qed.

Lemma persistAfterEmit_nil : persistAfterEmit [].
Proof. intros [|a t1] u s t2 H; discriminate. Qed.

Lemma traceInv_spawn n : forall p,
  traceInv p -> traceInv (spawn n p).
Proof.
  induction n as [|n IH]; cbn [spawn]; intros p I; [assumption|].
  unfold workerHead. destruct (urlQueue p) as [|u rest] eqn:Hq; apply IH.
  - destruct I as (T0 & T1 & T2 & T3 & T4).
    unfold traceInv, pushed, noFailure in *.
    cbn [urlQueue state eventBuffer workers yielded trace withWorkers].
    refine (conj T0 (conj T1 (conj T2 (conj _ _)))).
    + intros v. specialize (T3 v). revert T3. tnorm. lia.
    + intros Hnf v. revert Hnf. tnorm. intros Hnf.
      apply andb_prop in Hnf. destruct Hnf as [Hnf _].
      specialize (T4 Hnf v). revert T4. tnorm. lia.
  - destruct I as (T0 & T1 & T2 & T3 & T4).
    unfold traceInv, pushed, noFailure in *.
    cbn [urlQueue state eventBuffer workers yielded trace withWorkers
         pushEvent].
    repeat match goal with |- _ /\ _ => split end.
    + rewrite pushedOf_snoc, T0. now rewrite app_assoc.
    + apply emitInBlock_other; [assumption|].
      intros ev v [= <-]; discriminate.
    + apply persistAfterEmit_other; [assumption | discriminate].
    + intros v. specialize (T3 v). revert T3. tnorm. lia.
    + intros Hnf v. revert Hnf. tnorm. intros Hnf.
      apply andb_prop in Hnf. destruct Hnf as [Hnf _].
      specialize (T4 Hnf v). revert T4. tnorm. lia.
Qed.

Lemma traceInv_init urls options now :
  traceInv (auditPages urls options now).
Proof.
  unfold auditPages. apply traceInv_spawn.
  unfold traceInv, pushed, noFailure. cbn.
  repeat split; try reflexivity; try lia.
  - apply emitInBlock_nil.
  - apply persistAfterEmit_nil.
Qed.



End PoolFacts.
(* ------------------------------------------------------------------ *)
(** ** The worker pool on the worked runs *)
(* ------------------------------------------------------------------ *)

Module PoolRuns.

Import JS Analyzer AnalyzerSpec PoolExamples.

Lemma requested_four : atLeast 1 (optionsFor 4).
Proof. reflexivity. Defined.

Lemma requested_one : atLeast 1 (optionsFor 1).
Proof. reflexivity. Defined.

Lemma three_run :
  run threeLabels (auditPages threeUrls (optionsFor 4) "t0") = Some threeEnd.
Proof. vm_compute. reflexivity. Defined.

Lemma one_run :
  run oneLabels (auditPages ["/a"] (optionsFor 1) "t0") = Some oneEnd.
Proof. vm_compute. reflexivity. Defined.

Lemma three_returned : returned threeEnd = true.
Proof. vm_compute. reflexivity. Defined.

Lemma one_returned : returned oneEnd = true.
Proof. vm_compute. reflexivity. Defined.

Lemma threeUrls_distinct : NoDup threeUrls.
Proof.
  unfold threeUrls.
  repeat (constructor; [cbn; intuition discriminate|]). constructor.
Defined.

(** Three urls with three workers: the stream is complete, and the run is
    within the bound. *)
Lemma event_stream_complete_witness :
  atLeast 1 (optionsFor 4) /\
  completeStream threeUrls (yielded threeEnd) /\
  (List.length threeLabels <= runBound threeUrls)%nat.
Proof.
  split; [exact requested_four|].
  destruct (PoolFacts.event_stream_complete threeUrls (optionsFor 4) "t0"
              requested_four) as (Hstream & Hbound & _ & _).
  split.
  - exact (Hstream threeLabels threeEnd three_run three_returned).
  - exact (Hbound threeLabels threeEnd three_run).
Defined.

Example three_stream :
  startUrls (yielded threeEnd) = ["/a"; "/b"; "/c"] /\
  terminalUrls (yielded threeEnd) = ["/b"; "/a"; "/c"] /\
  countAuditComplete (yielded threeEnd) = 1%nat.
Proof. vm_compute. repeat split. Qed.

(** C7 fails as stated: with a requested concurrency of 0 no worker is
    created, and the stream of the non-empty list [["/a"]] is the single
    [audit_complete] event. *)
Lemma event_stream_without_worker :
  run idleLabels (auditPages ["/a"] (optionsFor 0) "t0") = Some idleEnd /\
  returned idleEnd = true /\
  startUrls (yielded idleEnd) = [] /\
  terminalUrls (yielded idleEnd) = [] /\
  ~ completeStream ["/a"] (yielded idleEnd).
Proof.
  split; [vm_compute; reflexivity|]. split; [vm_compute; reflexivity|].
  split; [vm_compute; reflexivity|]. split; [vm_compute; reflexivity|].
  intros (Hs & _). vm_compute in Hs. discriminate Hs.
Qed.


Example three_workers :
  contexts (optionsFor 4) = 3%nat /\
  workers threeStart = [Auditing "/a"; Auditing "/b"; Auditing "/c"] /\
  List.length (terminalUrls (yielded threeEnd)) = 3%nat.
Proof. vm_compute. repeat split. Qed.


Example fractional_request :
  contexts fractional = 2%nat /\
  workers (auditPages ["/a"; "/b"; "/c"] fractional "t0")
  = [Auditing "/a"; Auditing "/b"].
Proof. vm_compute. split; reflexivity. Qed.

Example request_not_a_number :
  contexts {| maxConcurrent := Some NaN; opt_sessionId := "session" |}
  = 0%nat /\
  contexts {| maxConcurrent := Some Infinity; opt_sessionId := "session" |}
  = 3%nat /\
  contexts {| maxConcurrent := None; opt_sessionId := "session" |} = 2%nat.
Proof. vm_compute. repeat split. Qed.



Lemma threeUrls_plain : ~ In "__proto__" threeUrls.
Proof. cbn. intuition discriminate. Defined.

(** Three distinct urls: the session invariant at the end of the run. *)
Lemma session_invariant_witness :
  NoDup threeUrls /\
  run threeLabels (auditPages threeUrls (optionsFor 4) "t0") = Some threeEnd /\
  sessionInvariantOwn threeUrls (state threeEnd) /\
  sessionInvariant threeUrls (state threeEnd).
Proof.
  split; [exact threeUrls_distinct|]. split; [exact three_run|].
  destruct (PoolFacts.session_invariant threeUrls (optionsFor 4) "t0"
              threeLabels threeEnd threeUrls_distinct three_run)
    as [Hown Hall].
  split; [exact Hown | exact (Hall threeUrls_plain)].
Defined.

(** C10 fails as stated: when the input names a url twice, after its first
    page the url is in [completedPages] and no longer in [pendingPages]
    although its second occurrence is still queued, and at the end it is
    twice in [completedPages]. *)
Lemma session_invariant_duplicates :
  run twiceLabels (auditPages twiceUrls (optionsFor 1) "t0") = Some twiceEnd /\
  completedPages (state (endOf (firstn 1 twiceLabels) twiceStart)) = ["/a"] /\
  pendingPages (state (endOf (firstn 1 twiceLabels) twiceStart)) = [] /\
  urlQueue (endOf (firstn 1 twiceLabels) twiceStart) = ["/a"] /\
  ~ sessionInvariant twiceUrls
      (state (endOf (firstn 1 twiceLabels) twiceStart)) /\
  completedPages (state twiceEnd) = ["/a"; "/a"] /\
  ~ sessionInvariant twiceUrls (state twiceEnd).
Proof.
  split; [vm_compute; reflexivity|].
  split; [vm_compute; reflexivity|]. split; [vm_compute; reflexivity|].
  split; [vm_compute; reflexivity|].
  split; [|split; [vm_compute; reflexivity|]].
  - intros (Hperm & _). apply Permutation_length in Hperm.
    vm_compute in Hperm. discriminate Hperm.
  - intros (_ & Hnd & _). vm_compute in Hnd.
    inversion Hnd as [|? ? Hnotin _]. apply Hnotin. now left.
Qed.

(** Two distinct urls, one of them [__proto__], whose page fails to load:
    the url is completed, its [page_error] is in the stream, and [results]
    has no entry for it, so the summary counts no failed page. *)
Example session_results_proto :
  NoDup protoUrls /\
  run protoLabels (auditPages protoUrls (optionsFor 1) "t0") = Some protoEnd /\
  returned protoEnd = true /\
  completedPages (state protoEnd) = ["/a"; "__proto__"] /\
  keys (results (state protoEnd)) = ["/a"] /\
  get (results (state protoEnd)) "__proto__" = None /\
  ~ sessionInvariant protoUrls (state protoEnd) /\
  map (fun ev => match ev with
                 | page_error u _ => u
                 | _ => ""
                 end) (yielded protoEnd)
  = [""; ""; ""; "__proto__"; ""] /\
  map (fun ev => match ev with
                 | audit_complete summary => Some (failedPages summary)
                 | _ => None
                 end) (yielded protoEnd)
  = [None; None; None; None; Some 0%nat].
Proof.
  split; [repeat constructor; cbn; intuition discriminate|].
  repeat (split; [vm_compute; reflexivity|]).
  split; [|vm_compute; split; reflexivity].
  intros (_ & _ & H).
  destruct (H "__proto__") as (r & Hr); [vm_compute; auto|].
  vm_compute in Hr. discriminate Hr.
Qed.

(** Urls that are array indices are visited first, in ascending order,
    whatever the order of completion. *)
Example session_results_indices :
  run indexLabels (auditPages indexUrls (optionsFor 1) "t0") = Some indexEnd /\
  completedPages (state indexEnd) = ["/b"; "7"; "3"] /\
  keys (results (state indexEnd)) = ["3"; "7"; "/b"].
Proof. vm_compute. repeat split. Qed.

End PoolRuns.


(* ------------------------------------------------------------------ *)
(** ** The per-page evaluator: when it throws, and what it returns *)
(* ------------------------------------------------------------------ *)

Module PageFacts.

Import JS Mapper MapperSpec PageSpec JSFacts EvaluatorFacts.

Lemma mapM_returns {A B} (f : A -> completion B) xs : forall ys,
  mapM f xs = Returns ys -> Forall2 (fun x y => f x = Returns y) xs ys.
Proof.
  induction xs as [|x xs IH]; cbn; intros ys H.
  - injection H as <-. constructor.
  - destruct (f x) as [y|w] eqn:E; cbn in H; [|discriminate].
    destruct (mapM f xs) as [ys'|w] eqn:E'; cbn in H; [|discriminate].
    injection H as <-. constructor; [exact E|]. now apply IH.
Qed.

Lemma mapM_throws {A B} (f : A -> completion B) xs :
  (exists w, mapM f xs = Throws w) <->
  (exists x, In x xs /\ exists w, f x = Throws w).
Proof.
  induction xs as [|x xs IH]; cbn.
  - split; [intros (w & H); discriminate | intros (x & [] & _)].
  - destruct (f x) as [y|w] eqn:E; cbn.
    + destruct (mapM f xs) as [ys|w] eqn:E'; cbn.
      * split; [intros (w & H); discriminate|].
        intros (x' & [<-|Hin] & w & Hw); [congruence|].
        destruct (proj2 IH) as (w' & Hw'); [|discriminate].
        exists x'. split; [assumption|]. now exists w.
      * split; [|intros _; now exists w].
        intros _. destruct (proj1 IH) as (x' & Hin & Hw); [now exists w|].
        exists x'. split; [now right | exact Hw].
    + split; [|intros _; now exists w].
      intros _. exists x. split; [now left|]. now exists w.
Qed.

(** The two strategies that read the rule-engine findings. *)
Lemma mapCriterion_throws criterion axe collected :
  (exists w, mapCriterion criterion axe collected = Throws w) <->
  axe = Some (EngineError "") /\
  (evaluationStrategy criterion = "ANY_VIOLATION" \/
   evaluationStrategy criterion = "ALL_PASS").
Proof.
  unfold mapCriterion.
  destruct (evaluationStrategy criterion =? "MANUAL_ONLY") eqn:EM.
  { apply String.eqb_eq in EM. split.
    - intros (w & H). discriminate.
    - intros (_ & [H|H]); rewrite H in EM; discriminate. }
  destruct axe as [[vs ps incs|e]|]; cbn [noAxeResults].
  - split; [|intros (H & _); discriminate].
    intros (w & H).
    destruct (evaluationStrategy criterion =? "ANY_VIOLATION");
      [cbn in H; discriminate|].
    destruct (evaluationStrategy criterion =? "ALL_PASS"); [|discriminate].
    unfold mapAllPass in H.
    repeat match type of H with
           | context [if ?b then _ else _] => destruct b
           end; discriminate.
  - unfold truthy. destruct (e =? "") eqn:Ee; cbn [negb].
    + apply String.eqb_eq in Ee. subst e.
      destruct (evaluationStrategy criterion =? "ANY_VIOLATION") eqn:EA.
      * apply String.eqb_eq in EA. cbn. split.
        -- intros _. split; [reflexivity | now left].
        -- intros _. now eexists.
      * destruct (evaluationStrategy criterion =? "ALL_PASS") eqn:EP.
        -- apply String.eqb_eq in EP. cbn. split.
           ++ intros _. split; [reflexivity | now right].
           ++ intros _. now eexists.
        -- apply String.eqb_neq in EA, EP. split.
           ++ intros (w & H). discriminate.
           ++ intros (_ & [H|H]); contradiction.
    + apply String.eqb_neq in Ee. split.
      * intros (w & H). discriminate.
      * intros (H & _). congruence.
  - split; [intros (w & H); discriminate | intros (H & _); discriminate].
Qed.

(** X1. [mapPageResults] throws exactly when the rule-engine result is an
    error object whose message is the empty string and the catalog has a
    criterion evaluated by [ANY_VIOLATION] or [ALL_PASS]: the empty message
    is falsy, so the manual fallback is skipped and [.filter] is read off
    the missing [violations]. In every other case it returns. *)
Theorem page_mapping_throws_iff
    (mapping : RgaaMapping) (axe : option AnalyzeResult)
    (collected : option CollectedData) (u : string) :
  ((exists w, mapPageResults mapping axe collected u = Throws w) <->
   axe = Some (EngineError "") /\
   exists criterion,
     In criterion (mapping_criteria mapping) /\
     (evaluationStrategy criterion = "ANY_VIOLATION" \/
      evaluationStrategy criterion = "ALL_PASS")) /\
  ((exists page, mapPageResults mapping axe collected u = Returns page) <->
   ~ (axe = Some (EngineError "") /\
      exists criterion,
        In criterion (mapping_criteria mapping) /\
        (evaluationStrategy criterion = "ANY_VIOLATION" \/
         evaluationStrategy criterion = "ALL_PASS"))).
Proof.
  assert (T : (exists w, mapPageResults mapping axe collected u = Throws w) <->
              axe = Some (EngineError "") /\
              exists criterion,
                In criterion (mapping_criteria mapping) /\
                (evaluationStrategy criterion = "ANY_VIOLATION" \/
                 evaluationStrategy criterion = "ALL_PASS")).
  { unfold mapPageResults.
    pose proof (mapM_throws
                  (fun criterion => mapCriterion criterion axe collected)
                  (mapping_criteria mapping)) as M.
    destruct (mapM _ (mapping_criteria mapping)) as [cs|w] eqn:E; cbn.
    - split.
      + intros (w & H). discriminate.
      + intros (Ha & c & Hin & Hs).
        destruct (proj2 M) as (w & Hw); [|discriminate].
        exists c. split; [assumption|].
        apply mapCriterion_throws. now split.
    - split; [|intros _; now exists w].
      intros _. destruct (proj1 M) as (c & Hin & Hw); [now exists w|].
      apply mapCriterion_throws in Hw. destruct Hw as [Ha Hs].
      split; [assumption|]. now exists c. }
  split; [exact T|].
  destruct (mapPageResults mapping axe collected u) as [page|w] eqn:E.
  - split; [|intros _; now exists page].
    intros _ H. apply T in H. destruct H as (w & H). discriminate.
  - split; [intros (page & H); discriminate|].
    intros H. exfalso. apply H, T. now exists w.
Qed.

Ltac branches :=
  repeat match goal with
         | |- context [if ?b then _ else _] => destruct b
         end.

Lemma mapCriterion_fromCatalog criterion axe collected mc :
  mapCriterion criterion axe collected = Returns mc ->
  fromCatalog collected criterion mc.
Proof.
  unfold mapCriterion, mapAnyViolation, mapAllPass, fromCatalog.
  destruct axe as [[vs ps incs|e]|]; branches; intros H;
    try discriminate; injection H as <-; cbn; repeat split.
Qed.

(** X2. A page [mapPageResults] returns carries the url it was given and
    one entry per catalog criterion, in catalog order (also when the
    catalog repeats an id); each entry has the criterion's id, title and
    theme, its limits as notes, its collector flags as manual checks, and
    as elements the evidence [extractElements] finds for it, every element
    with at least one flag, all of them flags of the criterion. *)
Theorem page_mapping_follows_catalog
    (mapping : RgaaMapping) (axe : option AnalyzeResult)
    (collected : option CollectedData) (u : string) (page : MappedPage) :
  mapPageResults mapping axe collected u = Returns page ->
  url page = u /\
  List.length (criteria page) = List.length (mapping_criteria mapping) /\
  map rgaaId (criteria page) = map rgaa_id (mapping_criteria mapping) /\
  Forall2 (fun criterion mc =>
             fromCatalog collected criterion mc /\
             Forall (matchesFlagSet criterion) (elements mc))
          (mapping_criteria mapping) (criteria page).
Proof.
  unfold mapPageResults.
  destruct (mapM _ (mapping_criteria mapping)) as [cs|w] eqn:E; cbn;
    [|discriminate].
  intros H. injection H as <-. cbn.
  apply mapM_returns in E.
  split; [reflexivity|].
  induction E as [|c mc cs mcs Hc _ IH]; cbn.
  - repeat split; constructor.
  - destruct IH as (Hlen & Hids & Hall).
    apply mapCriterion_fromCatalog in Hc.
    split; [now rewrite Hlen|]. split.
    + destruct Hc as (-> & _). now rewrite Hids.
    + constructor; [|exact Hall]. split; [exact Hc|].
      destruct Hc as (_ & _ & _ & _ & _ & ->).
      apply extractElements_matches.
Qed.

(** X3. In an entry [mapCriterion] returns, the status and the findings
    agree: the status is [violation] exactly when the entry lists a
    violation; a [manual] entry lists no finding at all; and every listed
    violation or incomplete finding is one the rule engine reported, under
    a rule of the criterion. *)
Theorem criterion_findings_coherent
    (criterion : RgaaCriterion) (axe : option AnalyzeResult)
    (collected : option CollectedData) (mc : MappedCriterion) :
  mapCriterion criterion axe collected = Returns mc ->
  (status mc = violation <-> violations mc <> []) /\
  (status mc = manual -> violations mc = [] /\ incompletes mc = []) /\
  (status mc = pass -> violations mc = []) /\
  (forall v, In v (violations mc) ->
             In (v_rule v) (axeRules criterion) /\
             exists vs ps incs,
               axe = Some (EngineResult vs ps incs) /\ In v vs) /\
  (forall i, In i (incompletes mc) ->
             In (i_rule i) (axeRules criterion) /\
             exists vs ps incs,
               axe = Some (EngineResult vs ps incs) /\ In i incs).
Proof.
  assert (Vin : forall vs ps incs v,
             axe = Some (EngineResult vs ps incs) ->
             In v (matchedViolations criterion vs) ->
             In (v_rule v) (axeRules criterion) /\
             exists vs ps incs,
               axe = Some (EngineResult vs ps incs) /\ In v vs).
  { intros vs ps incs v Ha Hin. apply filter_In in Hin.
    destruct Hin as [Hin Hr]. split; [now apply includes_In|].
    now exists vs, ps, incs. }
  assert (Iin : forall vs ps incs i,
             axe = Some (EngineResult vs ps incs) ->
             In i (matchedIncompletes criterion incs) ->
             In (i_rule i) (axeRules criterion) /\
             exists vs ps incs,
               axe = Some (EngineResult vs ps incs) /\ In i incs).
  { intros vs ps incs i Ha Hin. apply filter_In in Hin.
    destruct Hin as [Hin Hr]. split; [now apply includes_In|].
    now exists vs, ps, incs. }
  unfold mapCriterion, mapAnyViolation, mapAllPass.
  destruct axe as [[vs ps incs|e]|];
    destruct (matchedViolations criterion vs) as [|v0 vs0] eqn:EV
    || idtac;
    destruct (matchedIncompletes criterion incs) as [|i0 incs0] eqn:EI
    || idtac;
    cbn [List.length Nat.ltb Nat.leb];
    branches; intros H; try discriminate; injection H as <-;
    cbn [status violations incompletes withBase];
    rewrite <- ?EV, <- ?EI;
    (split; [split; [try discriminate; intros _; rewrite ?EV; discriminate
                    | try congruence; intros _; reflexivity]|]);
    (split; [intros Hm; try discriminate Hm; split; reflexivity|]);
    (split; [intros Hp; try discriminate Hp; reflexivity|]);
    (split; [intros v Hv; try (now destruct Hv);
             now apply (Vin vs ps incs v eq_refl)
            |intros i Hi; try (now destruct Hi);
              now apply (Iin vs ps incs i eq_refl)]).
Qed.

End PageFacts.

(* ------------------------------------------------------------------ *)
(** ** The summary: counters, recorded pages, top issues *)
(* ------------------------------------------------------------------ *)

Module SummaryFacts.

Import JS Mapper MapperSpec JSFacts AggregatorFacts SummarySpec.

Lemma countStatus_total cs :
  (countStatus violation cs + countStatus pass cs
   + countStatus manual cs + countStatus incomplete cs
   = List.length cs)%nat.
Proof.
  unfold countStatus.
  induction cs as [|c cs IH]; cbn [filter List.length]; [reflexivity|].
  destruct (agg_status c); cbn [status_eqb List.length]; lia.
Qed.

Lemma automated_manual cs :
  (List.length (filter (fun c => negb (status_eqb (agg_status c) manual)) cs)
   + countStatus manual cs
   = List.length cs)%nat.
Proof.
  unfold countStatus.
  induction cs as [|c cs IH]; cbn [filter List.length]; [reflexivity|].
  destruct (agg_status c); cbn [status_eqb negb List.length]; lia.
Qed.

Lemma set_add_length x s :
  (List.length (set_add x s) <= S (List.length s))%nat.
Proof.
  unfold set_add. destruct (includes s x); [lia|].
  rewrite length_app. cbn. lia.
Qed.

Lemma firstOccurrences_length_gen ids : forall acc,
  (List.length (fold_left (fun acc id => set_add id acc) ids acc)
   <= List.length acc + List.length ids)%nat.
Proof.
  induction ids as [|x ids IH]; cbn; intros acc; [lia|].
  specialize (IH (set_add x acc)).
  pose proof (set_add_length x acc). lia.
Qed.

Lemma firstOccurrences_length ids :
  (List.length (firstOccurrences ids) <= List.length ids)%nat.
Proof. apply (firstOccurrences_length_gen ids []). Qed.

Lemma firstn_In {A} n (l : list A) x : In x (firstn n l) -> In x l.
Proof.
  intros H. rewrite <- (firstn_skipn n l). apply in_or_app. now left.
Qed.

(** *** Sorting *)

Section Sorting.

Variable A : Type.
Variable before : A -> A -> bool.
Hypothesis before_total : forall a b, before a b = true \/ before b a = true.
Hypothesis before_trans :
  forall a b c, before a b = true -> before b c = true -> before a c = true.

Let R (a b : A) : Prop := before a b = true.

Lemma sort_insert_perm x l : Permutation (x :: l) (sort_insert before x l).
Proof.
  induction l as [|y l IH]; cbn; [reflexivity|].
  destruct (before y x); [|reflexivity].
  rewrite perm_swap. now constructor.
Qed.

Lemma sort_insert_sorted x l :
  StronglySorted R l -> StronglySorted R (sort_insert before x l).
Proof.
  induction l as [|y l IH]; cbn; intros H.
  - constructor; constructor.
  - inversion H as [|? ? Hl Hy]; subst.
    destruct (before y x) eqn:E.
    + constructor; [now apply IH|].
      apply Forall_forall. intros z Hz.
      apply (Permutation_in _ (Permutation_sym (sort_insert_perm x l))) in Hz.
      destruct Hz as [<-|Hz]; [exact E|].
      now apply (proj1 (Forall_forall _ _) Hy).
    + assert (Hxy : before x y = true).
      { destruct (before_total x y) as [H1|H1]; [exact H1|congruence]. }
      constructor; [exact H|].
      constructor; [exact Hxy|].
      apply Forall_forall. intros z Hz.
      apply (@before_trans _ _ _ Hxy).
      now apply (proj1 (Forall_forall _ _) Hy).
Qed.

Lemma sort_fold l : forall acc,
  StronglySorted R acc ->
  let r := fold_left (fun acc x => sort_insert before x acc) l acc in
  Permutation (acc ++ l) r /\ StronglySorted R r.
Proof.
  induction l as [|x l IH]; cbn; intros acc H.
  - rewrite app_nil_r. now split.
  - destruct (IH (sort_insert before x acc)) as [P S].
    + now apply sort_insert_sorted.
    + split; [|exact S].
      rewrite <- P. rewrite <- Permutation_middle.
      apply (Permutation_app_tail l (sort_insert_perm x acc)).
Qed.

Lemma sort_spec l :
  Permutation l (sort before l) /\ StronglySorted R (sort before l).
Proof. apply (@sort_fold l []). constructor. Qed.

Lemma firstn_sorted n l :
  StronglySorted R l -> StronglySorted R (firstn n l).
Proof.
  revert l. induction n as [|n IH]; intros [|x l] H; cbn;
    try constructor.
  - inversion H; subst. now apply IH.
  - inversion H as [|? ? _ Hx]; subst.
    apply Forall_forall. intros z Hz.
    apply (proj1 (Forall_forall _ _) Hx).
    now apply firstn_In in Hz.
Qed.

Lemma sorted_split l1 l2 :
  StronglySorted R (l1 ++ l2) ->
  forall a b, In a l1 -> In b l2 -> R a b.
Proof.
  induction l1 as [|x l1 IH]; cbn; intros H a b Ha Hb; [contradiction|].
  inversion H as [|? ? Hs Hx]; subst.
  destruct Ha as [<-|Ha].
  - apply (proj1 (Forall_forall _ _) Hx), in_or_app. now right.
  - now apply IH.
Qed.

End Sorting.

Lemma byPages_total a b : byPages a b = true \/ byPages b a = true.
Proof.
  unfold byPages.
  destruct (Nat.leb_spec (List.length (pagesViolating b))
                         (List.length (pagesViolating a))); [now left|].
  right. apply Nat.leb_le. lia.
Qed.

Lemma byPages_trans a b c :
  byPages a b = true -> byPages b c = true -> byPages a c = true.
Proof. unfold byPages. rewrite !Nat.leb_le. lia. Qed.

Lemma computeTopIssues_eq cs :
  computeTopIssues cs
  = map issueOf
        (firstn 5 (sort byPages
                        (filter (fun c =>
                                   (0 <? List.length (pagesViolating c))%nat)
                                cs))).
Proof. reflexivity. Qed.

Lemma tracked_status pages kv :
  tracks (flat_map entriesOf pages) kv ->
  (agg_status (resolveStatus (snd kv)) = violation
   <-> pagesViolating (snd kv) <> []).
Proof.
  intros _. unfold resolveStatus, finalStatus. cbn.
  destruct (pagesViolating (snd kv)); cbn.
  - split; [|congruence].
    repeat match goal with
           | |- context [if ?b then _ else _] => destruct b
           end; discriminate.
  - split; [discriminate | reflexivity].
Qed.

Lemma contributions_lengths k es :
  (List.length (contributions violation k es)
   + List.length (contributions pass k es)
   + List.length (contributions manual k es)
   + List.length (contributions incomplete k es)
   = List.length (filter (fun uc : string * MappedCriterion =>
                            (rgaaId (snd uc) =? k)%string) es))%nat.
Proof.
  unfold contributions.
  induction es as [|[u c] es IH]; cbn [flat_map filter List.length];
    [reflexivity|].
  rewrite !length_app. unfold contributes at 1 3 5 7. cbn [fst snd].
  destruct (rgaaId c =? k); cbn [andb List.length].
  - destruct (status c); cbn [status_eqb List.length]; lia.
  - lia.
Qed.

Section WithBuiltins.

Variables toLowerCase trim : string -> string.

#[local] Abbreviation aggregate := (aggregateResults toLowerCase trim).

(** X4. The counters of the summary add up: the four status counters
    partition the aggregated criteria, [automated] counts those that are
    not [manual], and [totalCriteria] is the number of distinct criterion
    ids of the catalog (the number of its criteria when no id repeats). *)
Theorem summary_counters_add_up
    (mapping : RgaaMapping) (pages : list MappedPage)
    (all : option (list CollectedEntry)) :
  let s := fst (aggregate mapping pages all) in
  totalCriteria s = List.length (sum_criteria s) /\
  (sum_violations s + sum_passes s + sum_manual s + sum_incomplete s
   = totalCriteria s)%nat /\
  (automated s + sum_manual s = totalCriteria s)%nat /\
  totalCriteria s
  = List.length (firstOccurrences (map rgaa_id (mapping_criteria mapping))) /\
  (totalCriteria s <= List.length (mapping_criteria mapping))%nat /\
  (NoDup (map rgaa_id (mapping_criteria mapping)) ->
   totalCriteria s = List.length (mapping_criteria mapping)).
Proof.
  cbv zeta.
  pose proof (aggregate_ids toLowerCase trim mapping pages all) as Hids.
  apply (f_equal (@List.length string)) in Hids.
  rewrite length_map in Hids.
  pose proof (firstOccurrences_length
                (map rgaa_id (mapping_criteria mapping))) as Hle.
  rewrite length_map in Hle.
  unfold aggregateResults in *. cbn [fst totalCriteria sum_violations
    sum_passes sum_manual sum_incomplete automated sum_criteria] in *.
  split; [reflexivity|].
  split; [apply countStatus_total|].
  split; [apply automated_manual|].
  split; [exact Hids|].
  split; [lia|].
  intros Hnd. rewrite Hids, firstOccurrences_NoDup by assumption.
  apply length_map.
Qed.

(** X5. The page lists of an aggregated criterion record exactly the
    classifications the pages gave it: a url is in the list of a status
    once per page entry that classifies the criterion with that status, in
    page order, and the four lists together have one url per
    classification of the criterion. *)
Theorem pages_recorded_by_status
    (mapping : RgaaMapping) (pages : list MappedPage)
    (all : option (list CollectedEntry)) :
  Forall (fun agg =>
            (forall st,
                pagesOf st agg
                = contributions st (agg_rgaaId agg)
                                (flat_map entriesOf pages)) /\
            (forall st u,
                In u (pagesOf st agg) <->
                exists page c,
                  In page pages /\ url page = u /\ In c (criteria page) /\
                  rgaaId c = agg_rgaaId agg /\ status c = st) /\
            (List.length (pagesViolating agg) + List.length (pagesPass agg)
             + List.length (pagesManual agg)
             + List.length (pagesIncomplete agg)
             = List.length (classificationsOf (agg_rgaaId agg) pages))%nat)
         (sum_criteria (fst (aggregate mapping pages all))).
Proof.
  rewrite aggregate_criteria.
  destruct (folded_tracks mapping pages) as [_ Hall].
  apply Forall_map, Forall_forall. intros [k agg] Hin.
  apply (proj1 (Forall_forall _ _) Hall) in Hin.
  destruct Hin as (Hid & Hv & Hp & Hm & Hi). cbn [fst snd] in *.
  assert (Hof : forall st,
             pagesOf st (resolveStatus agg)
             = contributions st (agg_rgaaId (resolveStatus agg))
                             (flat_map entriesOf pages)).
  { intros st. cbn [resolveStatus agg_rgaaId]. rewrite Hid.
    destruct st; cbn; assumption. }
  split; [exact Hof|]. split.
  - intros st u. rewrite Hof. unfold contributions.
    rewrite in_flat_map. split.
    + intros ([u' c] & Hin & Hc). unfold contributes in Hc. cbn [fst snd] in Hc.
      destruct (rgaaId c =? _) eqn:E1; [|contradiction].
      destruct (status_eqb (status c) st) eqn:E2; [|contradiction].
      destruct Hc as [<-|[]].
      apply in_flat_map in Hin. destruct Hin as (page & Hp' & Hin).
      unfold entriesOf in Hin. apply in_map_iff in Hin.
      destruct Hin as (c' & Hc' & Hin). injection Hc' as <- <-.
      exists page, c'. repeat split; try assumption.
      * now apply String.eqb_eq.
      * destruct (status c'), st; cbn in E2; congruence.
    + intros (page & c & Hp' & <- & Hc & Hr & <-).
      exists (url page, c). split.
      * apply in_flat_map. exists page. split; [assumption|].
        unfold entriesOf. now apply in_map.
      * unfold contributes. cbn [fst snd]. rewrite Hr, String.eqb_refl.
        destruct (status c); cbn; now left.
  - cbn [resolveStatus pagesViolating pagesPass pagesManual pagesIncomplete
         agg_rgaaId].
    rewrite Hid, Hv, Hp, Hm, Hi. apply contributions_lengths.
Qed.

(** X6. The top issues are at most five; each stems from an aggregated
    criterion whose status is [violation] and counts the pages violating
    it, at least one; they are in decreasing order of that count; and a
    violated criterion that is not among them is outranked by five that
    are. *)
Theorem top_issues_ranked
    (mapping : RgaaMapping) (pages : list MappedPage)
    (all : option (list CollectedEntry)) :
  let s := fst (aggregate mapping pages all) in
  (List.length (topIssues s) <= 5)%nat /\
  Forall (fun t =>
            (1 <= pagesAffected t)%nat /\
            exists agg, In agg (sum_criteria s) /\ t = issueOf agg /\
                        agg_status agg = violation)
         (topIssues s) /\
  StronglySorted outranks (topIssues s) /\
  (forall agg, In agg (sum_criteria s) -> agg_status agg = violation ->
               In (issueOf agg) (topIssues s) \/
               (List.length (topIssues s) = 5%nat /\
                Forall (fun t => outranks t (issueOf agg)) (topIssues s))).
Proof.
  cbv zeta.
  assert (Hst : forall agg,
             In agg (sum_criteria (fst (aggregate mapping pages all))) ->
             (agg_status agg = violation <-> pagesViolating agg <> [])).
  { intros agg Hin. rewrite aggregate_criteria in Hin.
    apply in_map_iff in Hin. destruct Hin as ([k a] & <- & Hin).
    destruct (folded_tracks mapping pages) as [_ Hall].
    apply (proj1 (Forall_forall _ _) Hall) in Hin.
    apply (tracked_status pages Hin). }
  unfold aggregateResults in *.
  cbn [fst topIssues sum_criteria] in *.
  set (cs := values _) in *.
  rewrite computeTopIssues_eq.
  set (violated := filter _ cs).
  destruct (sort_spec byPages byPages_total byPages_trans violated)
    as [Hperm Hsorted].
  assert (Hviolated : forall agg,
             In agg violated <-> In agg cs /\ pagesViolating agg <> []).
  { intros agg. unfold violated. rewrite filter_In.
    destruct (pagesViolating agg); cbn; intuition congruence. }
  split; [rewrite length_map; apply firstn_le_length|].
  split; [|split].
  - apply Forall_map, Forall_forall. intros agg Hin.
    apply firstn_In in Hin.
    apply (Permutation_in _ (Permutation_sym Hperm)), Hviolated in Hin.
    destruct Hin as [Hin Hne]. split.
    + cbn. destruct (pagesViolating agg); [congruence | cbn; lia].
    + exists agg. split; [assumption|]. split; [reflexivity|].
      now apply Hst.
  - apply (@firstn_sorted _ byPages 5) in Hsorted.
    induction Hsorted as [|a l _ IH Ha]; cbn; constructor.
    + exact IH.
    + apply Forall_map. revert Ha. apply Forall_impl.
      intros b Hb. unfold outranks. cbn. unfold byPages in Hb.
      now apply Nat.leb_le.
  - intros agg Hin Hv.
    assert (Hin' : In agg (sort byPages violated)).
    { apply (Permutation_in _ Hperm), Hviolated. split; [assumption|].
      now apply Hst. }
    rewrite <- (firstn_skipn 5 (sort byPages violated)) in Hin', Hsorted.
    apply in_app_or in Hin'. destruct Hin' as [H1|H2].
    + left. now apply in_map.
    + right. split.
      * rewrite length_map.
        destruct (Nat.le_gt_cases 5 (List.length (sort byPages violated)))
          as [Hle|Hgt].
        -- now apply firstn_length_le.
        -- rewrite skipn_all2 in H2 by lia. contradiction.
      * apply Forall_map, Forall_forall. intros b Hb.
        pose proof (@sorted_split _ byPages _ _ Hsorted b agg Hb H2) as Hr.
        unfold outranks. cbn. unfold byPages in Hr.
        now apply Nat.leb_le.
Qed.

End WithBuiltins.

End SummaryFacts.

(* ------------------------------------------------------------------ *)
(** ** The duplicate-label detection: what it leaves untouched *)
(* ------------------------------------------------------------------ *)

Module DetectFacts.

Import JS Mapper MapperSpec JSFacts DuplicateFacts DetectSpec.

Lemma grown_refl els : grown els els.
Proof.
  induction els as [|e els IH]; constructor; auto.
Qed.

Lemma addDuplicateFlag_new sel added :
  Forall (fun e => flags e = [DUPLICATE_LABEL]) added ->
  Forall (fun e => flags e = [DUPLICATE_LABEL]) (addDuplicateFlag sel added).
Proof.
  induction added as [|e added IH]; cbn; intros H.
  - constructor; [reflexivity | constructor].
  - inversion H as [|? ? He Hrest]; subst.
    destruct (selector e =? sel).
    + rewrite He. cbn. constructor; assumption.
    + constructor; [assumption | now apply IH].
Qed.

Lemma addDuplicateFlag_grown sel els els1 :
  grown els els1 -> grown els (addDuplicateFlag sel els1).
Proof.
  induction 1 as [added H|e e' els els' Hs Hf Hg IH]; cbn.
  - constructor. now apply addDuplicateFlag_new.
  - destruct (selector e' =? sel).
    + destruct (includes (flags e') DUPLICATE_LABEL) eqn:I.
      * now constructor.
      * constructor; cbn; [assumption| |assumption].
        destruct Hf as [Hf|Hf]; [right; now rewrite Hf|].
        exfalso. rewrite Hf in I.
        assert (Hin : In DUPLICATE_LABEL (flags e ++ [DUPLICATE_LABEL])).
        { apply in_or_app. right. now left. }
        apply includes_In in Hin. congruence.
    + now constructor.
Qed.

Lemma keptCriterion_refl c : keptCriterion c c.
Proof.
  unfold keptCriterion. repeat split; try reflexivity.
  - now left.
  - intros H. now contradiction H.
  - apply grown_refl.
Qed.

Lemma flagCriterion_kept sel c c1 :
  keptCriterion c c1 -> rgaaId c = "6.1" ->
  keptCriterion c (flagCriterion sel c1).
Proof.
  unfold keptCriterion.
  intros (Hid & Ht & Hth & Hv & Hi & Hn & Hm & Hs & Hd & Ho & Hg) H61.
  cbn [flagCriterion rgaaId title theme violations incompletes notes
       manualChecks status elements].
  repeat split; try assumption.
  - destruct Hs as [Hs|[Hp Hs]]; rewrite Hs.
    + destruct (status c); auto.
    + now right.
  - intros _. destruct (addDuplicateFlag_flags sel (elements c1))
      as (e & Hin & _ & Hf). now exists e.
  - intros Hne. contradiction.
  - now apply addDuplicateFlag_grown.
Qed.

Section WithBuiltins.

Variables toLowerCase trim : string -> string.

#[local] Abbreviation normalizeLabel := (normalizeLabel toLowerCase trim).
#[local] Abbreviation recordLink := (recordLink toLowerCase trim).
#[local] Abbreviation recordEntry := (recordEntry toLowerCase trim).
#[local] Abbreviation flagLink := (flagLink toLowerCase trim).
#[local] Abbreviation flagPage := (flagPage toLowerCase trim).
#[local] Abbreviation recorded := (recorded trim).
#[local] Abbreviation justified := (justified toLowerCase trim).
#[local] Abbreviation soundMap := (soundMap toLowerCase trim).

Lemma flagLinks_kept dups ls : forall c c1,
  keptCriterion c c1 -> rgaaId c = "6.1" ->
  keptCriterion c (fold_left (flagLink dups) ls c1).
Proof.
  induction ls as [|l ls IH]; cbn; intros c c1 H H61; [assumption|].
  apply IH; [|assumption]. unfold Mapper.flagLink.
  destruct (accessibleLabel l) as [lab|]; [|assumption].
  destruct (negb (truthy lab)); [assumption|].
  destruct (includes dups _); [|assumption].
  now apply flagCriterion_kept.
Qed.

Lemma replaceFirst_kept c61' cs : forall c61,
  find is61 cs = Some c61 -> keptCriterion c61 c61' ->
  Forall2 keptCriterion cs (replaceFirst is61 c61' cs).
Proof.
  unfold find.
  induction cs as [|c cs IH]; cbn; intros c61 Hfind Hk; [constructor|].
  destruct (is61 c) eqn:E.
  - injection Hfind as <-. constructor; [assumption|].
    clear. induction cs; constructor; auto using keptCriterion_refl.
  - constructor; [apply keptCriterion_refl|]. now apply IH with (c61 := c61).
Qed.

Lemma keptPage_refl page : keptPage page page.
Proof.
  split; [reflexivity|].
  induction (criteria page); constructor; auto using keptCriterion_refl.
Qed.

Lemma flagPage_kept dups all page : keptPage page (flagPage dups all page).
Proof.
  unfold Mapper.flagPage.
  destruct (find is61 (criteria page)) as [c61|] eqn:Hc;
    [|apply keptPage_refl].
  destruct (find _ all) as [pageData|]; [|apply keptPage_refl].
  destruct (collectedData pageData) as [cd|]; [|apply keptPage_refl].
  split; [reflexivity|]. cbn [criteria].
  apply replaceFirst_kept with (c61 := c61); [assumption|].
  apply flagLinks_kept; [apply keptCriterion_refl|].
  apply find_holds in Hc. unfold is61 in Hc. now apply String.eqb_eq.
Qed.

(** X7. Whatever the evidence, the duplicate-label detection leaves every
    page at its place with its url and its criteria in order; an entry
    keeps its id, title, theme, findings, notes and manual checks; its
    status is unchanged or goes from [pass] to [violation], and only when
    one of its elements carries [DUPLICATE_LABEL]; every entry of another
    criterion than 6.1 is untouched; and the elements of an entry are
    never removed, reordered or renamed: their flags are kept, followed at
    most by [DUPLICATE_LABEL], and new elements come last and carry that
    flag only. *)
Theorem duplicate_detection_frame
    (mapping : RgaaMapping) (pages : list MappedPage)
    (all : option (list CollectedEntry)) :
  Forall2 keptPage pages
          (snd (aggregateResults toLowerCase trim mapping pages all)).
Proof.
  unfold aggregateResults. cbn [snd].
  destruct all as [all|].
  - unfold detectDuplicateLabels.
    destruct (List.length _ =? 0)%nat.
    + induction pages; constructor; auto using keptPage_refl.
    + induction pages; cbn; constructor; auto using flagPage_kept.
  - induction pages; constructor; auto using keptPage_refl.
Qed.

(** *** Without an ambiguous label nothing changes *)

Lemma set_add_NoDup x s : NoDup s -> NoDup (set_add x s).
Proof.
  intros H. unfold set_add. destruct (includes s x) eqn:E; [assumption|].
  apply NoDup_app; [assumption | repeat constructor; intros [] | ].
  intros y Hy [<-|[]]. apply includes_In in Hy. congruence.
Qed.

Lemma set_add_inv x y s : In y (set_add x s) -> y = x \/ In y s.
Proof.
  unfold set_add. destruct (includes s x); [now right|].
  intros H. apply in_app_or in H. destruct H as [H|[<-|[]]]; auto.
Qed.

Lemma recordLink_sound all m entry cd link :
  In entry all -> collectedData entry = Some cd -> In link (links cd) ->
  soundMap all m -> soundMap all (recordLink m link).
Proof.
  intros He Hcd Hl [Hnd Hm]. unfold Mapper.recordLink.
  destruct (accessibleLabel link) as [lab|] eqn:Hlab; [|now split].
  destruct (negb (truthy lab)) eqn:Ht; cbn [orb]; [now split|].
  destruct (trim lab =? "") eqn:Hb; [now split|].
  apply negb_false_iff in Ht. apply String.eqb_neq in Hb.
  set (n := normalizeLabel lab).
  set (m1 := if has m n then m else set m n []).
  assert (S1 : soundMap all m1).
  { unfold m1. destruct (has m n) eqn:E; [now split|]. split.
    - now apply NoDup_keys_set.
    - intros k urls Hg. destruct (String.eqb n k) eqn:Ek.
      + apply String.eqb_eq in Ek. subst k. rewrite get_set_same in Hg.
        injection Hg as <-. split; [constructor | intros h []].
      + apply String.eqb_neq in Ek. rewrite get_set_other in Hg by congruence.
        now apply Hm. }
  destruct (href link) as [h|] eqn:Hh; [|assumption].
  destruct (truthy h) eqn:Hth; [|assumption].
  destruct S1 as [Hnd1 Hm1]. split; [now apply NoDup_keys_set|].
  intros k urls Hg. destruct (String.eqb n k) eqn:Ek.
  - apply String.eqb_eq in Ek. subst k. rewrite get_set_same in Hg.
    injection Hg as <-.
    assert (Hold : NoDup (nullish (get m1 n) []) /\
                   forall h', In h' (nullish (get m1 n) []) ->
                              justified all n h').
    { destruct (get m1 n) as [urls0|] eqn:G; cbn.
      - now apply Hm1.
      - split; [constructor | intros h' []]. }
    destruct Hold as [Hnd0 Hj0]. split; [now apply set_add_NoDup|].
    intros h' Hin. apply set_add_inv in Hin. destruct Hin as [->|Hin].
    + exists link, lab. split; [|reflexivity].
      split; [now exists entry, cd|]. now repeat split.
    + now apply Hj0.
  - apply String.eqb_neq in Ek. rewrite get_set_other in Hg by congruence.
    now apply Hm1.
Qed.

Lemma recordLinks_sound all entry cd ls : forall m,
  In entry all -> collectedData entry = Some cd -> incl ls (links cd) ->
  soundMap all m -> soundMap all (fold_left recordLink ls m).
Proof.
  induction ls as [|l ls IH]; cbn; intros m He Hcd Hin S; [assumption|].
  apply IH; try assumption.
  - intros x Hx. apply Hin. now right.
  - apply recordLink_sound with (entry := entry) (cd := cd); try assumption.
    apply Hin. now left.
Qed.

Lemma recordEntries_sound all es : forall m,
  incl es all -> soundMap all m ->
  soundMap all (fold_left recordEntry es m).
Proof.
  induction es as [|e es IH]; cbn; intros m Hin S; [assumption|].
  apply IH; [intros x Hx; apply Hin; now right|].
  unfold Mapper.recordEntry. destruct (collectedData e) as [cd|] eqn:Hcd;
    [|assumption].
  apply recordLinks_sound with (entry := e) (cd := cd); try assumption.
  - apply Hin. now left.
  - apply incl_refl.
Qed.

Lemma buildLabelMap_sound all :
  soundMap all (buildLabelMap toLowerCase trim all).
Proof.
  unfold buildLabelMap. apply recordEntries_sound; [apply incl_refl|].
  split; [constructor | intros k urls H; discriminate].
Qed.

Lemma duplicateLabelsOf_inv (m : omap (list string)) k :
  In k (duplicateLabelsOf m) ->
  exists urls, In (k, urls) m /\ (1 <? List.length urls)%nat = true.
Proof.
  unfold duplicateLabelsOf.
  assert (H : forall (m' : omap (list string)) dups,
             In k (fold_left
                     (fun dups entry =>
                        if (1 <? List.length (snd entry))%nat
                        then set_add (fst entry) dups else dups) m' dups) ->
             In k dups \/
             exists urls, In (k, urls) m' /\
                          (1 <? List.length urls)%nat = true).
  { induction m' as [|[k' urls'] m' IH]; cbn [fold_left fst snd];
      intros dups Hin; [now left|].
    apply IH in Hin. destruct Hin as [Hin|(urls & Hin & Hlen)].
    - destruct (1 <? List.length urls')%nat eqn:E; [|now left].
      apply set_add_inv in Hin. destruct Hin as [->|Hin]; [|now left].
      right. exists urls'. split; [now left | assumption].
    - right. exists urls. split; [now right | assumption]. }
  intros Hin. apply H in Hin. destruct Hin as [[]|Hin]. exact Hin.
Qed.

Lemma two_distinct (l : list string) :
  NoDup l -> (1 <? List.length l)%nat = true ->
  exists a b, In a l /\ In b l /\ a <> b.
Proof.
  intros Hnd Hlen. destruct l as [|a [|b l]]; cbn in Hlen; try discriminate.
  exists a, b. split; [now left|]. split; [right; now left|].
  intros ->. inversion Hnd as [|? ? Hn _]. apply Hn. now left.
Qed.

Lemma unambiguous_no_duplicates all :
  labelsUnambiguous toLowerCase trim all ->
  duplicateLabelsOf (buildLabelMap toLowerCase trim all) = [].
Proof.
  intros Hu.
  destruct (duplicateLabelsOf (buildLabelMap toLowerCase trim all))
    as [|k ks] eqn:E; [reflexivity|].
  exfalso.
  assert (Hin : In k (duplicateLabelsOf (buildLabelMap toLowerCase trim all)))
    by (rewrite E; now left).
  apply duplicateLabelsOf_inv in Hin. destruct Hin as (urls & Hin & Hlen).
  destruct (buildLabelMap_sound all) as [Hnd Hm].
  apply In_get in Hin; [|assumption].
  destruct (Hm k urls Hin) as [Hndu Hj].
  destruct (two_distinct Hndu Hlen) as (a & b & Ha & Hb & Hne).
  destruct (Hj a Ha) as (l1 & lab1 & R1 & N1).
  destruct (Hj b Hb) as (l2 & lab2 & R2 & N2).
  apply Hne. apply (Hu l1 l2 lab1 lab2 a b R1 R2). congruence.
Qed.

(** X8. When no label of the evidence leads to two different destinations
    (labels compared lower-cased and trimmed, blank labels and empty
    destinations left aside), the aggregation returns the mapped pages
    exactly as it received them. *)
Theorem unambiguous_labels_no_change
    (mapping : RgaaMapping) (pages : list MappedPage)
    (all : list CollectedEntry) :
  labelsUnambiguous toLowerCase trim all ->
  snd (aggregateResults toLowerCase trim mapping pages (Some all)) = pages.
Proof.
  intros Hu. unfold aggregateResults. cbn [snd].
  unfold detectDuplicateLabels.
  now rewrite (unambiguous_no_duplicates Hu).
Qed.

End WithBuiltins.

End DetectFacts.

(* ------------------------------------------------------------------ *)
(** ** The event stream: order and pages in flight *)
(* ------------------------------------------------------------------ *)

Module StreamFacts.

Import JS Analyzer AnalyzerSpec JSFacts PoolFacts StreamSpec.

#[local] Unset Implicit Arguments.

Lemma run_invariant (I : Pool -> Prop) :
  (forall l p p', I p -> step l p = Some p' -> I p') ->
  forall ls p p', I p -> run ls p = Some p' -> I p'.
Proof.
  intros Hstep. induction ls as [|l ls IH]; cbn [run]; intros p p' Hi H.
  - now injection H as <-.
  - destruct (step l p) as [p1|] eqn:E; [|discriminate].
    apply (IH p1 p'); [|assumption]. now apply (Hstep l p).
Qed.

Lemma app_snoc_split {A} (l : list A) a l1 l2 :
  l ++ [a] = l1 ++ l2 ->
  (l2 = [] /\ l1 = l ++ [a]) \/ exists l2', l = l1 ++ l2'.
Proof.
  destruct l2 as [|b l2]; intros H.
  - left. rewrite app_nil_r in H. now split.
  - right. apply snoc_split in H.
    destruct H as [(-> & _ & _)|(t & -> & _)].
    + exists []. now rewrite app_nil_r.
    + now exists (b :: t).
Qed.

Lemma everyPrefix_snoc P evs ev :
  everyPrefix P evs -> P (evs ++ [ev]) -> everyPrefix P (evs ++ [ev]).
Proof.
  intros H Hall evs1 evs2 Heq.
  apply app_snoc_split in Heq. destruct Heq as [[_ ->]|(t & ->)].
  - assumption.
  - now apply (H evs1 t).
Qed.

Lemma everyPrefix_whole P evs : everyPrefix P evs -> P evs.
Proof. intros H. apply (H evs []). now rewrite app_nil_r. Qed.

Lemma everyPrefix_nil (P : list ProgressEvent -> Prop) :
  P [] -> everyPrefix P [].
Proof.
  intros H evs1 evs2 Heq. symmetry in Heq. apply app_eq_nil in Heq.
  destruct Heq as [-> _]. assumption.
Qed.

Lemma owed_split l1 x l2 :
  owed (l1 ++ x :: l2) = (owed l1 + owes x + owed l2)%nat.
Proof.
  unfold owed. rewrite map_app, list_sum_app. cbn [map]. unfold list_sum.
  cbn [fold_right]. lia.
Qed.

Lemma owed_length ws : (owed ws <= List.length ws)%nat.
Proof.
  unfold owed. induction ws as [|w ws IH]; [cbn; lia|].
  change (list_sum (map owes (w :: ws)))
    with (owes w + list_sum (map owes ws))%nat.
  cbn [List.length]. destruct w as [| | |[|]| |]; cbn [owes]; lia.
Qed.

Lemma flight_push p ws ev :
  flightInv p ->
  List.length ws = List.length (workers p) ->
  (forall u, (count (terminalUrls (pushed p ++ [ev])) u
              + count (auditingUrls ws) u
              <= count (startUrls (pushed p ++ [ev])) u)%nat) ->
  (List.length (startUrls (pushed p ++ [ev]))
   <= List.length (terminalUrls (pushed p ++ [ev])) + owed ws)%nat ->
  (forall u, (count (terminalUrls (pushed p ++ [ev])) u
              + count (auditingUrls ws) u
              <= count (startUrls (pushed p ++ [ev])) u)%nat) /\
  (List.length (startUrls (pushed p ++ [ev]))
   <= List.length (terminalUrls (pushed p ++ [ev])) + owed ws)%nat /\
  everyPrefix startedFirst (pushed p ++ [ev]) /\
  everyPrefix (inFlightAtMost (List.length ws)) (pushed p ++ [ev]).
Proof.
  intros (_ & _ & F3 & F4) Hlen H1 H2.
  split; [assumption|]. split; [assumption|]. split.
  - apply everyPrefix_snoc; [assumption|].
    intros u. specialize (H1 u). lia.
  - rewrite Hlen. apply everyPrefix_snoc; [assumption|].
    unfold inFlightAtMost. rewrite <- Hlen.
    pose proof (owed_length ws). lia.
Qed.

Lemma flight_quiet p ws :
  flightInv p ->
  List.length ws = List.length (workers p) ->
  (forall u, (count (auditingUrls ws) u
              <= count (auditingUrls (workers p)) u)%nat) ->
  (owed (workers p) <= owed ws)%nat ->
  (forall u, (count (terminalUrls (pushed p)) u
              + count (auditingUrls ws) u
              <= count (startUrls (pushed p)) u)%nat) /\
  (List.length (startUrls (pushed p))
   <= List.length (terminalUrls (pushed p)) + owed ws)%nat /\
  everyPrefix startedFirst (pushed p) /\
  everyPrefix (inFlightAtMost (List.length ws)) (pushed p).
Proof.
  intros (F1 & F2 & F3 & F4) Hlen H1 H2.
  split; [|split; [|split]].
  - intros u. specialize (F1 u). specialize (H1 u). lia.
  - lia.
  - assumption.
  - now rewrite Hlen.
Qed.

Ltac split_worker :=
  match goal with
  | E : nth_error (workers _) _ = Some ?x
    |- context [setWorker _ _ ?y] =>
      destruct (setWorker_split _ _ _ y E) as (l1 & l2 & Hws & Hset)
  end.

Ltac fnorm :=
  rewrite ?startUrls_app, ?terminalUrls_app, ?auditingUrls_app,
    ?count_app, ?length_app, ?terminalEvent_start,
    ?terminalEvent_terminal, ?owed_split, ?auditingUrls_cons;
  cbn [startUrls terminalUrls auditingUrls flat_map app
       List.length owes count_occ].

Lemma flightInv_step l p p' :
  flightInv p -> step l p = Some p' -> flightInv p'.
Proof.
  intros I H. pose proof I as (F1 & F2 & F3 & F4).
  step_cases H.
  all: try split_worker.
  all: unfold flightInv, pushed.
  all: cbn [urlQueue state eventBuffer workers allDone yielded returned
            durable trace withWorkers pushEvent].
  all: try rewrite Hset.
  all: try match goal with
           | Hb : eventBuffer _ = ?ev :: ?rest |- _ =>
               replace ((yielded p ++ [ev]) ++ rest) with (pushed p)
                 by (unfold pushed; rewrite Hb, <- app_assoc; reflexivity)
           | Hb : eventBuffer _ = [] |- _ =>
               replace (yielded p ++ []) with (pushed p)
                 by (unfold pushed; now rewrite Hb)
           end.
  all: rewrite ?app_assoc.
  all: change (yielded p ++ eventBuffer p) with (pushed p).
  all: first [ match goal with
               | |- context [pushed _ ++ [?ev]] =>
                   apply flight_push; [assumption | | | ]
               end
             | apply flight_quiet; [assumption | | | ] ].
  all: try rewrite Hws.
  all: try (rewrite !length_app; cbn [List.length]; reflexivity).
  all: try reflexivity.
  all: try (intros u; specialize (F1 u); revert F1; rewrite ?Hws; fnorm;
            repeat match goal with
                   | |- context [string_dec ?a ?b] => destruct (string_dec a b)
                   end; lia).
  all: try (revert F2; rewrite ?Hws; fnorm; lia).
  all: try (fnorm; lia).
  fnorm. destruct rethrow; lia.
Qed.

Lemma flightInv_spawn n : forall p,
  flightInv p -> flightInv (spawn n p).
Proof.
  induction n as [|n IH]; cbn [spawn]; intros p I; [assumption|].
  pose proof I as (F1 & F2 & F3 & F4).
  unfold workerHead. destruct (urlQueue p) as [|u rest] eqn:Hq; apply IH.
  - unfold flightInv, pushed.
    cbn [urlQueue state eventBuffer workers yielded withWorkers].
    change (yielded p ++ eventBuffer p) with (pushed p).
    split; [|split; [|split]].
    + intros v. specialize (F1 v). revert F1. fnorm. lia.
    + revert F2. unfold owed. rewrite map_app, list_sum_app. cbn. lia.
    + assumption.
    + intros evs1 evs2 Heq. specialize (F4 evs1 evs2 Heq).
      unfold inFlightAtMost in *. rewrite length_app. lia.
  - unfold flightInv, pushed.
    cbn [urlQueue state eventBuffer workers yielded withWorkers pushEvent].
    rewrite ?app_assoc.
    change (yielded p ++ eventBuffer p) with (pushed p).
    assert (G1 : forall v,
               (count (terminalUrls (pushed p ++ [page_start u])) v
                + count (auditingUrls (workers p ++ [Auditing u])) v
                <= count (startUrls (pushed p ++ [page_start u])) v)%nat).
    { intros v. specialize (F1 v). revert F1. fnorm.
      destruct (string_dec u v); lia. }
    assert (G2 : (List.length (startUrls (pushed p ++ [page_start u]))
                  <= List.length (terminalUrls (pushed p ++ [page_start u]))
                     + owed (workers p ++ [Auditing u]))%nat).
    { revert F2. unfold owed. rewrite map_app, list_sum_app. fnorm. cbn. lia. }
    split; [assumption|]. split; [assumption|]. split.
    + apply everyPrefix_snoc; [assumption|].
      intros v. specialize (G1 v). lia.
    + apply everyPrefix_snoc.
      * intros evs1 evs2 Heq. specialize (F4 evs1 evs2 Heq).
        unfold inFlightAtMost in *. rewrite length_app. lia.
      * unfold inFlightAtMost.
        pose proof (owed_length (workers p ++ [Auditing u])). lia.
Qed.

Lemma flightInv_init urls options now :
  flightInv (auditPages urls options now).
Proof.
  unfold auditPages. apply flightInv_spawn.
  unfold flightInv, pushed. cbn.
  split; [intros u; lia|]. split; [lia|].
  split; apply everyPrefix_nil.
  - intros u. cbn. lia.
  - unfold inFlightAtMost. cbn. lia.
Qed.

Lemma contexts_at_most_three options : (contexts options <= 3)%nat.
Proof. apply contexts_at_most. Qed.

(** X9. In the stream of every run, as it stands after each push, a url
    never has more terminal events ([page_complete] or [page_error]) than
    [page_start] events: the terminal event of a page comes after the
    [page_start] of that page. The events handed to the consumer are such
    a prefix. *)
Theorem terminal_event_follows_start
    (urls : list string) (options : AuditPagesOptions) (now : string)
    (ls : list Label) (p : Pool) :
  run ls (auditPages urls options now) = Some p ->
  everyPrefix startedFirst (pushed p) /\ startedFirst (yielded p).
Proof.
  intros Hrun.
  pose proof (run_invariant flightInv flightInv_step ls _ p
                (flightInv_init urls options now) Hrun) as (_ & _ & F3 & _).
  split; [assumption|]. now apply (F3 (yielded p) (eventBuffer p)).
Qed.

(** X10. In the stream of every run, as it stands after each push, the
    pages started and not yet finished are never more than the workers,
    and the workers never more than three, whatever concurrency was
    requested. *)
Theorem pages_in_flight_bounded
    (urls : list string) (options : AuditPagesOptions) (now : string)
    (ls : list Label) (p : Pool) :
  run ls (auditPages urls options now) = Some p ->
  List.length (workers p) = contexts options /\
  (contexts options <= 3)%nat /\
  everyPrefix (inFlightAtMost (contexts options)) (pushed p) /\
  everyPrefix (inFlightAtMost 3) (pushed p) /\
  inFlightAtMost 3 (yielded p).
Proof.
  intros Hrun.
  pose proof (run_invariant flightInv flightInv_step ls _ p
                (flightInv_init urls options now) Hrun) as (_ & _ & _ & F4).
  assert (Hlen : List.length (workers p) = contexts options).
  { rewrite (run_workers_length ls _ p Hrun). apply auditPages_workers. }
  pose proof (contexts_at_most_three options) as H3.
  rewrite Hlen in F4.
  assert (F5 : everyPrefix (inFlightAtMost 3) (pushed p)).
  { intros evs1 evs2 Heq. specialize (F4 evs1 evs2 Heq).
    unfold inFlightAtMost in *. lia. }
  repeat split; try assumption.
  now apply (F5 (yielded p) (eventBuffer p)).
Qed.

End StreamFacts.

(* ------------------------------------------------------------------ *)
(** ** Failures, and the buffer as a queue *)
(* ------------------------------------------------------------------ *)

Module FailureFacts.

Import JS Analyzer AnalyzerSpec JSFacts PoolFacts StreamSpec StreamFacts
  FailureSpec.

#[local] Unset Implicit Arguments.

Lemma failure_persists l p p' :
  step l p = Some p' -> noFailure p = false -> noFailure p' = false.
Proof.
  intros H. step_cases H.
  all: try split_worker.
  all: unfold noFailure.
  all: cbn [urlQueue state eventBuffer workers allDone yielded returned
            durable trace withWorkers pushEvent].
  all: try rewrite Hset; try rewrite Hws.
  all: rewrite ?noFailure_split; cbn [hasFailed negb].
  all: try (intros Hf; exact Hf).
  all: try (intros _; now rewrite andb_false_r).
Qed.

Lemma failure_persists_run ls : forall p p',
  run ls p = Some p' -> noFailure p = false -> noFailure p' = false.
Proof.
  induction ls as [|l ls IH]; cbn [run]; intros p p' H Hf.
  - now injection H as <-.
  - destruct (step l p) as [p1|] eqn:E; [|discriminate].
    apply (IH p1 p' H). now apply (failure_persists l p).
Qed.

(** X11. A failure is final. Once a worker has failed (its [newPage], the
    save of the session, the caller's callback or [page.close()] threw),
    then however the run goes on the [.then] of [Promise.all] never runs:
    [allDone] stays false, no [audit_complete] is ever pushed, and the
    generator does not return. *)
Theorem worker_failure_is_final
    (urls : list string) (options : AuditPagesOptions) (now : string)
    (ls1 ls2 : list Label) (p p' : Pool) :
  run ls1 (auditPages urls options now) = Some p ->
  noFailure p = false ->
  run ls2 p = Some p' ->
  noFailure p' = false /\
  allDone p' = false /\
  countAuditComplete (pushed p') = 0%nat /\
  returned p' = false.
Proof.
  intros Hrun Hf Hrun'.
  pose proof (failure_persists_run ls2 p p' Hrun' Hf) as Hf'.
  pose proof (streamInv_run urls ls1 _ p (streamInv_init urls options now)
                Hrun) as I.
  pose proof (streamInv_run urls ls2 p p' I Hrun')
    as (_ & _ & _ & I4 & I5 & I6).
  assert (Hd : allDone p' = false).
  { destruct (allDone p'); [|reflexivity].
    destruct (I5 eq_refl) as [Hres _].
    destruct (allResolved_quiet _ Hres) as [Hnf _].
    unfold noFailure in Hf'. congruence. }
  split; [assumption|]. split; [assumption|]. split; [now apply I4|].
  destruct (returned p'); [|reflexivity].
  destruct (I6 eq_refl) as [Hd' _]. congruence.
Qed.

(** *** The buffer is a queue *)

Lemma yieldedOf_app a b : yieldedOf (a ++ b) = yieldedOf a ++ yieldedOf b.
Proof. apply flat_map_app. Qed.

Lemma handedInv_step l p p' :
  handedInv p -> step l p = Some p' -> handedInv p'.
Proof.
  unfold handedInv. intros I H. step_cases H.
  all: cbn [urlQueue state eventBuffer workers allDone yielded returned
            durable trace withWorkers pushEvent].
  all: rewrite ?yieldedOf_app; cbn [yieldedOf flat_map app];
    rewrite ?app_nil_r; congruence.
Qed.

Lemma handedInv_spawn n : forall p, handedInv p -> handedInv (spawn n p).
Proof.
  induction n as [|n IH]; cbn [spawn]; intros p I; [assumption|].
  unfold workerHead. destruct (urlQueue p); apply IH; unfold handedInv in *;
    cbn [yielded trace withWorkers pushEvent];
    rewrite ?yieldedOf_app; cbn [yieldedOf flat_map app];
    rewrite ?app_nil_r; assumption.
Qed.

Lemma handedInv_init urls options now :
  handedInv (auditPages urls options now).
Proof. unfold auditPages. now apply handedInv_spawn. Qed.

(** X12. The event buffer is a queue: in every state of a run, the events
    handed to the consumer followed by the events still buffered are the
    events pushed, in the order of the pushes, none lost and none
    repeated; when the generator has returned the buffer is empty, so the
    consumer has received every event pushed. *)
Theorem events_handed_in_push_order
    (urls : list string) (options : AuditPagesOptions) (now : string)
    (ls : list Label) (p : Pool) :
  run ls (auditPages urls options now) = Some p ->
  yieldedOf (trace p) = yielded p /\
  pushedOf (trace p) = yielded p ++ eventBuffer p /\
  (returned p = true -> yielded p = pushedOf (trace p)).
Proof.
  intros Hrun.
  pose proof (run_invariant handedInv handedInv_step ls _ p
                (handedInv_init urls options now) Hrun) as Hh.
  pose proof (traceInv_run ls _ p (traceInv_init urls options now) Hrun)
    as (T0 & _).
  pose proof (streamInv_run urls ls _ p (streamInv_init urls options now) Hrun)
    as (_ & _ & _ & _ & _ & I6).
  split; [exact Hh|]. split; [exact T0|].
  intros Hr. destruct (I6 Hr) as [_ Hb]. rewrite T0. unfold pushed.
  now rewrite Hb, app_nil_r.
Qed.

End FailureFacts.

(* ------------------------------------------------------------------ *)
(** ** The session and the final summary *)
(* ------------------------------------------------------------------ *)

Module SessionFacts.

Import JS Analyzer AnalyzerSpec JSFacts PoolFacts StreamSpec StreamFacts
  FailureSpec FailureFacts SessionSpec.

#[local] Unset Implicit Arguments.

(** *** [recordResult] *)

Lemma recordResult_results u r s :
  (forall x, In x (completedPages s) -> x <> "__proto__" ->
             exists r0, get (results s) x = Some r0) ->
  forall x, In x (completedPages (recordResult u r s)) ->
            x <> "__proto__" ->
            exists r0, get (results (recordResult u r s)) x = Some r0.
Proof.
  intros H x Hx Hproto. cbn in *. apply in_app_or in Hx.
  destruct (String.eqb u x) eqn:E.
  - apply String.eqb_eq in E. subst. exists r. now apply get_assign_same.
  - apply String.eqb_neq in E. destruct Hx as [Hx|[Hx|[]]]; [|congruence].
    destruct (H x Hx Hproto) as (r0 & Hr0). exists r0.
    rewrite get_assign_other; [assumption | congruence].
Qed.

Lemma recordResult_keys u r s :
  NoDup (keys (results s)) /\ incl (keys (results s)) (completedPages s) ->
  NoDup (keys (results (recordResult u r s))) /\
  incl (keys (results (recordResult u r s)))
       (completedPages (recordResult u r s)).
Proof.
  intros [Hnd Hincl]. cbn. split; [now apply NoDup_keys_assign|].
  intros x Hx. apply keys_assign in Hx. apply in_or_app.
  destruct Hx as [->|Hx]; [right; now left | left; now apply Hincl].
Qed.

Lemma filter_incl_other (u : string) (l l1 l2 q : list string) :
  incl l (l1 ++ u :: l2 ++ q) ->
  incl (filter (fun x => negb (x =? u)) l) (l1 ++ l2 ++ q).
Proof.
  intros H x Hx. apply filter_In in Hx. destruct Hx as [Hx Hne].
  apply negb_true_iff, String.eqb_neq in Hne.
  apply H in Hx. apply in_app_or in Hx. apply in_or_app.
  destruct Hx as [Hx|[Hx|Hx]]; [now left | congruence | now right].
Qed.

Ltac unfold_step :=
  unfold pushed, noFailure in *;
  cbn [urlQueue state eventBuffer workers allDone yielded returned
       durable trace withWorkers pushEvent] in *;
  try match goal with Hset : setWorker _ _ _ = _ |- _ => rewrite Hset end;
  try match goal with Hws : workers _ = _ |- _ => rewrite Hws in * end;
  try match goal with Hq : urlQueue _ = _ |- _ => rewrite Hq in * end;
  try match goal with Hb : eventBuffer _ = _ |- _ => rewrite Hb in * end.

Ltac in_apps :=
  rewrite ?in_app_iff in *; cbn [In] in *; intuition congruence.

Lemma trackInv_step urls options now l p p' :
  streamInv urls p -> trackInv urls options now p ->
  step l p = Some p' -> trackInv urls options now p'.
Proof.
  intros I (K1 & (K2a & K2b & K2c) & K3 & K4 & (K5a & K5b) & K7 & K6) H.
  step_cases H.
  all: try split_worker.
  all: try (match goal with
            | Hws : workers _ = ?l1 ++ ?x :: ?l2 |- _ =>
                destruct (busy_not_done urls p l1 x l2 I Hws eq_refl)
                  as [Hnd Hnr]
            end).
  all: clear I.
  all: unfold trackInv.
  all: unfold_step.
  all: try rewrite Hnd in *.
  all: rewrite ?terminalUrls_app, ?terminalEvent_terminal, ?app_assoc,
         ?auditingUrls_app, ?auditingUrls_cons in *;
       cbn [terminalUrls flat_map app] in *;
       rewrite ?app_nil_r in *.
  all: repeat match goal with |- _ /\ _ => split end.
  all: try assumption.
  all: try (intros; discriminate).
  all: try (cbn; now rewrite K1, <- ?app_assoc).
  all: try (now apply recordResult_results).
  all: try (now apply recordResult_keys).
  (* the pending urls *)
  all: try solve [intros Hnf; rewrite ?noFailure_split in *;
                  cbn [hasFailed negb andb] in *;
                  rewrite ?andb_false_r in *; try discriminate;
                  specialize (K4 Hnf); intros x Hx;
                  try (cbn [pendingPages recordResult] in Hx;
                       apply filter_In in Hx; destruct Hx as [Hx Hne];
                       apply negb_true_iff, String.eqb_neq in Hne);
                  apply K4 in Hx; in_apps].
  - cbn [results recordResult]. apply assign_Forall; [assumption|].
    cbn. now destruct o.
  - intros _. exists (yielded p ++ eventBuffer p), now0. now rewrite K2a.
  - intros Hd. destruct (K6 Hd) as (body & now' & Heq). exists body, now'.
    rewrite <- Heq, <- app_assoc. reflexivity.
Qed.

Lemma trackInv_spawn urls options now n : forall p,
  trackInv urls options now p -> allDone p = false ->
  trackInv urls options now (spawn n p).
Proof.
  induction n as [|n IH]; cbn [spawn]; intros p I Hd; [assumption|].
  destruct I as (K1 & (K2a & K2b & K2c) & K3 & K4 & (K5a & K5b) & K7 & K6).
  unfold workerHead. destruct (urlQueue p) as [|u rest] eqn:Hq;
    (apply IH; [|assumption]); unfold trackInv; unfold_step;
    rewrite ?terminalUrls_app, ?app_assoc, ?auditingUrls_app,
      ?auditingUrls_cons, ?forallb_app in *;
    cbn [terminalUrls flat_map app auditingUrls] in *;
    rewrite ?app_nil_r in *;
    (repeat match goal with |- _ /\ _ => split end); try assumption;
    try (rewrite Hd; intros; discriminate).
  - intros Hnf. apply andb_prop in Hnf. destruct Hnf as [Hnf _].
    now apply K4.
  - intros Hnf. apply andb_prop in Hnf. destruct Hnf as [Hnf _].
    specialize (K4 Hnf). intros x Hx. apply K4 in Hx. in_apps.
Qed.

Lemma trackInv_init urls options now :
  trackInv urls options now (auditPages urls options now).
Proof.
  unfold auditPages. apply trackInv_spawn; [|reflexivity].
  unfold trackInv, pushed, noFailure. cbn.
  repeat split; try reflexivity; try discriminate; try constructor.
  - intros u [].
  - intros _. apply incl_refl.
  - intros u [].
Qed.

Lemma tracked urls options now ls p :
  run ls (auditPages urls options now) = Some p ->
  streamInv urls p /\ trackInv urls options now p.
Proof.
  apply (run_invariant
           (fun p => streamInv urls p /\ trackInv urls options now p)).
  - intros l q q' [I K] H. split.
    + now apply (streamInv_step urls l q).
    + now apply (trackInv_step urls options now l q).
  - split; [apply streamInv_init | apply trackInv_init].
Qed.

Lemma workers_positive urls options now ls p :
  atLeast 1 options ->
  run ls (auditPages urls options now) = Some p ->
  (1 <= List.length (workers p))%nat.
Proof.
  intros Hreq Hrun. rewrite (run_workers_length ls _ p Hrun).
  rewrite auditPages_workers. now apply contexts_positive.
Qed.

(** What a returned run leaves: nothing buffered, every worker resolved,
    the queue empty. *)
Lemma returned_quiet urls p :
  streamInv urls p -> (1 <= List.length (workers p))%nat ->
  returned p = true ->
  eventBuffer p = [] /\ allDone p = true /\ noFailure p = true /\
  auditingUrls (workers p) = [] /\ urlQueue p = [].
Proof.
  intros (_ & _ & I3 & _ & I5 & I6) Hn Hr.
  destruct (I6 Hr) as [Hd Hb]. destruct (I5 Hd) as [Hres _].
  destruct (allResolved_quiet _ Hres) as [Hnf Ha].
  repeat split; try assumption.
  apply I3. now apply allResolved_some.
Qed.

(** X13. The session follows the stream: in every state of a run,
    [completedPages] lists the urls of the terminal events pushed so far,
    in their order, [totalPages], [sessionId] and [startedAt] are as set
    at the start, and every stored result carries the url it is stored
    under. When the run has returned (requested concurrency at least 1),
    [pendingPages] is empty, [completedPages] is a permutation of the
    input (also when the input repeats a url), and [results] has an entry
    for every input url other than [__proto__], which names no property
    of its own. *)
Theorem session_follows_stream
    (urls : list string) (options : AuditPagesOptions) (now : string)
    (ls : list Label) (p : Pool) :
  atLeast 1 options ->
  run ls (auditPages urls options now) = Some p ->
  (completedPages (state p) = terminalUrls (pushed p) /\
   totalPages (state p) = List.length urls /\
   sessionId (state p) = opt_sessionId options /\
   startedAt (state p) = now /\
   Forall (fun kv => pr_url (snd kv) = fst kv) (results (state p))) /\
  (returned p = true ->
   pendingPages (state p) = [] /\
   Permutation (completedPages (state p)) urls /\
   forall u, In u urls -> u <> "__proto__" ->
             exists r, get (results (state p)) u = Some r /\ pr_url r = u).
Proof.
  intros Hreq Hrun.
  destruct (tracked urls options now ls p Hrun)
    as [I (K1 & (K2a & K2b & K2c) & K3 & K4 & K5 & K7 & K6)].
  split; [repeat split; assumption|].
  intros Hr.
  pose proof (workers_positive urls options now ls p Hreq Hrun) as Hn.
  destruct (returned_quiet urls p I Hn Hr) as (Hb & Hd & Hnf & Ha & Hq).
  pose proof (returned_stream urls p I Hn Hr) as (_ & Hperm & _).
  assert (Hc : Permutation (completedPages (state p)) urls).
  { rewrite K1. unfold pushed. now rewrite Hb, app_nil_r. }
  split; [|split; [assumption|]].
  - specialize (K4 Hnf). rewrite Ha, Hq in K4. now apply incl_l_nil.
  - intros u Hu Hproto. apply (Permutation_in u (Permutation_sym Hc)) in Hu.
    destruct (K3 u Hu Hproto) as (r & Hg). exists r. split; [assumption|].
    apply get_In in Hg.
    now apply (proj1 (Forall_forall _ _) K7) in Hg.
Qed.

Lemma filter_length_le {A} (f : A -> bool) (l : list A) :
  (List.length (filter f l) <= List.length l)%nat.
Proof.
  induction l as [|a l IH]; cbn; [lia|]. destruct (f a); cbn; lia.
Qed.

(** X14. The summary of the [audit_complete] event that ends the stream of
    a returned run (requested concurrency at least 1): [totalPages] and
    [completedPages] are both the number of input urls, [startedAt] is the
    start of the audit, and [failedPages] is the number of stored results
    with an error, at most the number of input urls. *)
Theorem summary_totals
    (urls : list string) (options : AuditPagesOptions) (now : string)
    (ls : list Label) (p : Pool) :
  atLeast 1 options ->
  run ls (auditPages urls options now) = Some p ->
  returned p = true ->
  exists body summary,
    yielded p = body ++ [audit_complete summary] /\
    sum_totalPages summary = List.length urls /\
    sum_completedPages summary = List.length urls /\
    sum_startedAt summary = now /\
    failedPages summary
    = List.length (filter hasError (values (results (state p)))) /\
    (failedPages summary <= List.length urls)%nat.
Proof.
  intros Hreq Hrun Hr.
  destruct (tracked urls options now ls p Hrun)
    as [I (K1 & (K2a & K2b & K2c) & K3 & K4 & (K5a & K5b) & K7 & K6)].
  pose proof (workers_positive urls options now ls p Hreq Hrun) as Hn.
  destruct (returned_quiet urls p I Hn Hr) as (Hb & Hd & Hnf & Ha & Hq).
  pose proof (returned_stream urls p I Hn Hr) as (_ & Hperm & _).
  destruct (K6 Hd) as (body & now' & Heq).
  unfold pushed in *. rewrite Hb, app_nil_r in *.
  assert (Hlen : List.length (completedPages (state p)) = List.length urls).
  { rewrite K1. now apply Permutation_length. }
  exists body, (summaryOf (List.length urls) (state p) now').
  split; [assumption|]. cbn.
  split; [reflexivity|]. split; [assumption|]. split; [assumption|].
  split; [reflexivity|].
  pose proof (filter_length_le hasError (values (results (state p)))) as H1.
  pose proof (NoDup_incl_length K5a K5b) as H2.
  unfold values in *. unfold keys in H2.
  rewrite length_map in H1, H2. lia.
Qed.

(** *** Distinct urls: the results in the order of the stream *)

Lemma isPageError_terminalEvent u r :
  isPageError (terminalEvent u r) = hasError r.
Proof. unfold terminalEvent. now destruct (hasError r). Qed.

Lemma isTerminal_terminalEvent u r : isTerminal (terminalEvent u r) = true.
Proof. unfold terminalEvent. now destruct (hasError r). Qed.

Lemma isStored_terminalEvent u r : isStored (terminalEvent u r) = ownUrl u.
Proof. unfold terminalEvent. now destruct (hasError r). Qed.

(** A page that is being audited is an input url and has no entry yet. *)
Lemma auditing_absent urls options now p l1 url l2 :
  sessInv urls p -> trackInv urls options now p ->
  workers p = l1 ++ Auditing url :: l2 ->
  get (results (state p)) url = None /\ In url urls.
Proof.
  intros (S1 & S2 & S3) (_ & _ & _ & _ & (K5a & K5b) & _) Hws.
  assert (Hp : In url (pendingPages (state p))).
  { apply S3. rewrite Hws, auditingUrls_app, auditingUrls_cons. in_apps. }
  destruct S1 as (Hperm & Hn & _). split.
  - apply get_None_keys. intros Hk. apply K5b in Hk.
    clear - Hn Hk Hp. induction (completedPages (state p)) as [|c cs IH];
      cbn in *; [contradiction|].
    inversion Hn as [|? ? Hc Hn']; subst. destruct Hk as [->|Hk].
    + apply Hc. apply in_or_app. now right.
    + now apply IH.
  - apply (Permutation_in _ Hperm). apply in_or_app. now right.
Qed.

Ltac stored_norm :=
  unfold storedEvents in *;
  rewrite ?app_assoc;
  rewrite ?filter_app in *; cbn [filter isStored] in *;
  rewrite ?app_nil_r in *.

Lemma orderInv_step urls options now l p p' :
  NoDup urls ->
  sessInv urls p -> trackInv urls options now p -> orderInv p ->
  step l p = Some p' -> orderInv p'.
Proof.
  intros Hnd S K O H.
  unfold orderInv in *.
  step_cases H.
  all: try split_worker.
  all: try (match goal with
            | Hws : workers _ = ?l1 ++ Auditing ?u :: ?l2 |- _ =>
                destruct (auditing_absent urls options now p l1 u l2 S K Hws)
                  as [Habs Hin]
            end).
  all: clear S K.
  all: unfold_step.
  all: stored_norm.
  all: try exact O.
  all: try (destruct (isStored p0); rewrite <- ?app_assoc; exact O).
  (* a page is recorded: its url has no entry yet *)
  rewrite isStored_terminalEvent. cbn [results recordResult].
  unfold ownUrl. destruct (url =? "__proto__") eqn:E; cbn [negb].
  - apply String.eqb_eq in E. subst url. rewrite assign_proto.
    now rewrite app_nil_r.
  - apply String.eqb_neq in E.
    rewrite (Permutation_map eventOf
               (@assign_absent_perm _ (results (state p)) url
                  (auditPage url now0 o) E Habs)).
    rewrite map_app. cbn [map].
    now apply Permutation_app_tail.
Qed.

Lemma inOrderInv_step urls options now l p p' :
  NoDup urls -> Forall plainUrl urls ->
  sessInv urls p -> trackInv urls options now p -> inOrderInv p ->
  step l p = Some p' -> inOrderInv p'.
Proof.
  intros Hnd Hplain S K O H.
  unfold inOrderInv in *.
  step_cases H.
  all: try split_worker.
  all: try (match goal with
            | Hws : workers _ = ?l1 ++ Auditing ?u :: ?l2 |- _ =>
                destruct (auditing_absent urls options now p l1 u l2 S K Hws)
                  as [Habs Hin]
            end).
  all: clear S K.
  all: unfold_step.
  all: stored_norm.
  all: try exact O.
  all: try (destruct (isStored p0); rewrite <- ?app_assoc; exact O).
  rewrite isStored_terminalEvent. cbn [results recordResult].
  unfold ownUrl. destruct (url =? "__proto__") eqn:E; cbn [negb].
  - apply String.eqb_eq in E. subst url. rewrite assign_proto.
    now rewrite app_nil_r.
  - apply String.eqb_neq in E.
    rewrite assign_absent_last; try assumption.
    + rewrite map_app, O. reflexivity.
    + exact (proj1 (Forall_forall _ _) Hplain url Hin).
Qed.

Lemma orderInv_spawn n : forall p, orderInv p -> orderInv (spawn n p).
Proof.
  induction n as [|n IH]; cbn [spawn]; intros p O; [assumption|].
  unfold workerHead. destruct (urlQueue p); apply IH; unfold orderInv in *;
    unfold_step; stored_norm; rewrite <- ?app_assoc, ?app_nil_r in *;
    assumption.
Qed.

Lemma inOrderInv_spawn n : forall p, inOrderInv p -> inOrderInv (spawn n p).
Proof.
  induction n as [|n IH]; cbn [spawn]; intros p O; [assumption|].
  unfold workerHead. destruct (urlQueue p); apply IH; unfold inOrderInv in *;
    unfold_step; stored_norm; rewrite <- ?app_assoc, ?app_nil_r in *;
    assumption.
Qed.

Lemma ordered urls options now ls p :
  NoDup urls ->
  run ls (auditPages urls options now) = Some p ->
  orderInv p /\ (Forall plainUrl urls -> inOrderInv p).
Proof.
  intros Hnd Hrun.
  cut ((streamInv urls p /\ trackInv urls options now p) /\
       sessInv urls p /\ orderInv p /\
       (Forall plainUrl urls -> inOrderInv p));
    [intros (_ & _ & O); exact O|].
  revert Hrun.
  apply (run_invariant
           (fun p => (streamInv urls p /\ trackInv urls options now p) /\
                     sessInv urls p /\ orderInv p /\
                     (Forall plainUrl urls -> inOrderInv p))).
  - intros l q q' ([I K] & S & O & O') H. split; [split|split; [|split]].
    + now apply (streamInv_step urls l q).
    + now apply (trackInv_step urls options now l q).
    + now apply (sessInv_step urls l q).
    + now apply (orderInv_step urls options now l q).
    + intros Hplain.
      apply (inOrderInv_step urls options now l q); auto.
  - split; [split|split; [|split]].
    + apply streamInv_init.
    + apply trackInv_init.
    + now apply sessInv_init.
    + unfold auditPages. apply orderInv_spawn. constructor.
    + intros _. unfold auditPages. now apply inOrderInv_spawn.
Qed.

Lemma pageErrors_perm evs1 evs2 :
  Permutation evs1 evs2 -> pageErrors evs1 = pageErrors evs2.
Proof.
  intros H. unfold pageErrors. apply Permutation_length.
  clear - H. induction H as [| x l l' _ IH | x y l | l l' l'' _ IH1 _ IH2];
    cbn [filter].
  - constructor.
  - destruct (isPageError x); [now constructor | assumption].
  - destruct (isPageError x), (isPageError y);
      try reflexivity; apply perm_swap.
  - now transitivity (filter isPageError l').
Qed.

Lemma storedEvents_plain evs :
  ~ In "__proto__" (terminalUrls evs) -> storedEvents evs = filter isTerminal evs.
Proof.
  unfold storedEvents, terminalUrls.
  induction evs as [|ev evs IH]; cbn [filter flat_map]; intros H;
    [reflexivity|].
  rewrite IH by (intros Hin; apply H, in_or_app; now right).
  assert (Hown : forall u, In u (match ev with
                                 | page_complete u _ | page_error u _ => [u]
                                 | _ => []
                                 end) -> ownUrl u = true).
  { intros u Hu. unfold ownUrl. apply negb_true_iff, String.eqb_neq.
    intros ->. apply H, in_or_app. now left. }
  destruct ev; cbn [isStored isTerminal]; try reflexivity;
    now rewrite Hown by now left.
Qed.

Lemma pageErrors_terminal evs :
  pageErrors (filter isTerminal evs) = pageErrors evs.
Proof.
  unfold pageErrors. induction evs as [|ev evs IH]; cbn; [reflexivity|].
  destruct ev; cbn; congruence.
Qed.

Lemma pageErrors_results (rs : omap PageResult) :
  pageErrors (map eventOf rs) = List.length (filter hasError (values rs)).
Proof.
  unfold pageErrors, values, eventOf.
  induction rs as [|[u r] rs IH]; cbn [map filter fst snd]; [reflexivity|].
  rewrite isPageError_terminalEvent. destruct (hasError r); cbn; congruence.
Qed.

Lemma terminal_kinds evs :
  (pageCompletes evs + pageErrors evs
   = List.length (terminalUrls evs))%nat.
Proof.
  unfold pageCompletes, pageErrors.
  induction evs as [|ev evs IH]; cbn [filter terminalUrls flat_map];
    [reflexivity|].
  rewrite length_app. fold (terminalUrls evs).
  destruct ev; cbn; lia.
Qed.

(** X15. When the input urls are pairwise distinct, [failedPages] in the
    summary that ends the stream of a returned run is the number of
    [page_error] events of that stream for urls other than [__proto__]
    (of all its [page_error] events when no input url is [__proto__]),
    and [completedPages] is the number of [page_complete] events plus the
    number of [page_error] events: failed pages count as completed. *)
Theorem summary_failures
    (urls : list string) (options : AuditPagesOptions) (now : string)
    (ls : list Label) (p : Pool) :
  NoDup urls ->
  atLeast 1 options ->
  run ls (auditPages urls options now) = Some p ->
  returned p = true ->
  exists body summary,
    yielded p = body ++ [audit_complete summary] /\
    failedPages summary = pageErrors (storedEvents (yielded p)) /\
    (~ In "__proto__" urls ->
     failedPages summary = pageErrors (yielded p)) /\
    (sum_completedPages summary
     = pageCompletes (yielded p) + pageErrors (yielded p))%nat.
Proof.
  intros Hnd Hreq Hrun Hr.
  destruct (tracked urls options now ls p Hrun)
    as [I (K1 & _ & _ & _ & _ & _ & K6)].
  destruct (ordered urls options now ls p Hnd Hrun) as [O _].
  pose proof (workers_positive urls options now ls p Hreq Hrun) as Hn.
  destruct (returned_quiet urls p I Hn Hr) as (Hb & Hd & _).
  pose proof (returned_stream urls p I Hn Hr) as (_ & Hperm & _).
  destruct (K6 Hd) as (body & now' & Heq).
  unfold orderInv, pushed in *. rewrite Hb, app_nil_r in *.
  exists body, (summaryOf (List.length urls) (state p) now').
  split; [assumption|]. cbn [failedPages sum_completedPages summaryOf].
  assert (Hf : List.length (filter hasError (values (results (state p))))
               = pageErrors (storedEvents (yielded p))).
  { rewrite <- pageErrors_results. now apply pageErrors_perm. }
  split; [exact Hf|]. split.
  - intros Hproto. rewrite Hf, storedEvents_plain.
    + apply pageErrors_terminal.
    + intros Hin. apply Hproto. now apply (Permutation_in _ Hperm).
  - now rewrite terminal_kinds, K1.
Qed.

End SessionFacts.

(* ------------------------------------------------------------------ *)
(** ** One worker: the session file *)
(* ------------------------------------------------------------------ *)

Module SoloFacts.

Import JS Analyzer AnalyzerSpec JSFacts PoolFacts StreamSpec StreamFacts
  FailureSpec FailureFacts SessionSpec SessionFacts.

#[local] Unset Implicit Arguments.

Lemma single_worker (l1 l2 : list WorkerState) x :
  List.length (l1 ++ x :: l2) = 1%nat -> l1 = [] /\ l2 = [].
Proof.
  rewrite length_app. cbn. intros H.
  destruct l1; [|cbn in H; lia]. destruct l2; [|cbn in H; lia]. now split.
Qed.

Lemma soloInv_step l p p' :
  soloInv p -> step l p = Some p' -> soloInv p'.
Proof.
  intros I H Hlen.
  rewrite (step_workers_length l p p' H) in Hlen. specialize (I Hlen).
  step_cases H.
  all: try split_worker.
  all: cbn [urlQueue state eventBuffer workers allDone yielded returned
            durable trace withWorkers pushEvent].
  all: try rewrite Hset.
  all: try (rewrite Hws in *;
            destruct (single_worker _ _ _ Hlen) as [-> ->];
            cbn [app] in *;
            inversion I as [|? ? Hw _]; subst;
            constructor; [|constructor];
            unfold soloOk in *;
            cbn [urlQueue state eventBuffer workers allDone yielded returned
                 durable trace withWorkers pushEvent] in *;
            try exact Logic.I; try reflexivity; try assumption;
            try (left; congruence)).
  all: try (revert I; apply Forall_impl; intros w; unfold soloOk;
            cbn [state durable]; destruct w as [| | |[|]| |]; auto).
Qed.

Lemma soloInv_spawn n : forall p,
  (forall w, In w (workers p) -> soloOk p w) ->
  completedPages (state p) = [] -> durable p = None ->
  soloInv (spawn n p).
Proof.
  induction n as [|n IH]; cbn [spawn]; intros p Hall Hc Hd.
  - intros _. now apply Forall_forall.
  - unfold workerHead. destruct (urlQueue p) as [|u rest]; apply IH;
      cbn [state durable workers withWorkers pushEvent]; try assumption;
      intros w Hw; apply in_app_or in Hw;
      (destruct Hw as [Hw|[<-|[]]];
       [apply Hall in Hw; destruct w as [| | |[|]| |]; exact Hw
       | right; now split]).
Qed.

Lemma soloInv_init urls options now :
  soloInv (auditPages urls options now).
Proof.
  unfold auditPages. apply soloInv_spawn; try reflexivity. intros w [].
Qed.

(** One worker and a returned run: the last write came after the last
    page was recorded. *)
Lemma solo_file urls options now ls p :
  List.length (workers p) = 1%nat ->
  urls <> [] ->
  run ls (auditPages urls options now) = Some p ->
  returned p = true ->
  durable p = Some (state p).
Proof.
  intros Hlen Hne Hrun Hr.
  pose proof (run_invariant soloInv soloInv_step ls _ p
                (soloInv_init urls options now) Hrun Hlen) as Hs.
  destruct (tracked urls options now ls p Hrun) as [I (K1 & _)].
  assert (Hn : (1 <= List.length (workers p))%nat) by lia.
  destruct (returned_quiet urls p I Hn Hr) as (Hb & Hd & _).
  pose proof (returned_stream urls p I Hn Hr) as (_ & Hperm & _).
  destruct I as (_ & _ & _ & _ & I5 & _). destruct (I5 Hd) as [Hres _].
  destruct (workers p) as [|w [|w' ws]]; try discriminate Hlen.
  inversion Hs as [|? ? Hw _]; subst.
  cbn in Hres. rewrite andb_true_r in Hres.
  destruct w; try discriminate Hres.
  destruct Hw as [Hw|[Hc _]]; [assumption|].
  exfalso. rewrite K1 in Hc. unfold pushed in Hc.
  rewrite Hb, app_nil_r in Hc. rewrite Hc in Hperm.
  apply Permutation_nil in Hperm. congruence.
Qed.

Lemma requested_one_worker urls options now ls p :
  exactly 1 options ->
  run ls (auditPages urls options now) = Some p ->
  List.length (workers p) = 1%nat.
Proof.
  intros Hreq Hrun.
  rewrite (run_workers_length ls _ p Hrun), auditPages_workers.
  now rewrite (contexts_integer options 1 Hreq).
Qed.

(** X16. With a single worker (requested concurrency 1) and at least one
    url, when the run has returned the session file holds the session as
    it is at the end: the last write was made after the last page was
    recorded. *)
Theorem single_worker_file_is_final
    (urls : list string) (options : AuditPagesOptions) (now : string)
    (ls : list Label) (p : Pool) :
  exactly 1 options ->
  urls <> [] ->
  run ls (auditPages urls options now) = Some p ->
  returned p = true ->
  durable p = Some (state p).
Proof.
  intros Hreq Hne Hrun Hr.
  apply (solo_file urls options now ls p); try assumption.
  now apply (requested_one_worker urls options now ls p).
Qed.

End SoloFacts.

(* ------------------------------------------------------------------ *)
(** ** The data collector: statuses and flags *)
(* ------------------------------------------------------------------ *)

Module CollectorFacts.

Import JS DataCollector CollectorSpec JSFacts.

Section WithCatalog.

Variable toLowerCase : string -> string.
Variable trim : string -> string.
Variable jsLength : string -> Z.
Variable genericAltTest : string -> bool.
Variable altMaxLength : Z.
Variable genericLabels : list string.
Variable genericTitles : list string.

#[local] Abbreviation imageFlags :=
  (imageFlags jsLength genericAltTest altMaxLength).
#[local] Abbreviation classifyImage :=
  (classifyImage jsLength genericAltTest altMaxLength).
#[local] Abbreviation linkFlags := (linkFlags toLowerCase trim genericLabels).
#[local] Abbreviation classifyLink :=
  (classifyLink toLowerCase trim genericLabels).
#[local] Abbreviation initialPageFlags :=
  (initialPageFlags toLowerCase trim genericTitles).
#[local] Abbreviation collectHeadings :=
  (collectHeadings toLowerCase trim genericTitles).
#[local] Abbreviation collectAll :=
  (collectAll toLowerCase trim jsLength genericAltTest altMaxLength
              genericLabels genericTitles).

Ltac cases :=
  repeat match goal with
         | |- context [if ?b then _ else _] => destruct b eqn:?
         end.

Lemma hasViolation_imageFlags (img : RawImage) :
  hasViolation (imageFlags img)
  = match altAttribute img with
    | None => true
    | Some alt => if alt =? "" then isInLink img else genericAltTest alt
    end.
Proof.
  unfold DataCollector.imageFlags, pushIf.
  destruct (altAttribute img) as [alt|];
    [destruct (alt =? ""), (genericAltTest alt),
       (jsLength alt >? altMaxLength)%Z|];
    destruct (isInLink img), (rolePresentation img); reflexivity.
Qed.

(** X17. The automated status of an image follows its [alt] attribute: it
    is a violation exactly when the attribute is missing, when it holds a
    generic text, or when it is empty on an image inside a link; it is a
    pass exactly when the attribute holds a text that is not generic; and
    it is left to a manual check exactly when the attribute is empty on an
    image outside a link. The length of the text and a presentation role
    never change the status. *)
Theorem image_status_follows_alt (img : RawImage) :
  let data := classifyImage img in
  (automatedStatus data = auto_violation <->
   altAttribute img = None \/
   (exists alt, altAttribute img = Some alt /\ alt <> "" /\
                genericAltTest alt = true) \/
   (altAttribute img = Some "" /\ isInLink img = true)) /\
  (automatedStatus data = auto_pass <->
   exists alt, altAttribute img = Some alt /\ alt <> "" /\
               genericAltTest alt = false) /\
  (automatedStatus data = auto_manual <->
   altAttribute img = Some "" /\ isInLink img = false) /\
  (altStatus data = absent <-> altAttribute img = None) /\
  (altStatus data = empty <-> altAttribute img = Some "") /\
  (altStatus data = present <->
   exists alt, altAttribute img = Some alt /\ alt <> "").
Proof.
  cbv zeta. unfold DataCollector.classifyImage.
  cbn [automatedStatus altStatus]. rewrite hasViolation_imageFlags.
  unfold altStatusOf.
  destruct (altAttribute img) as [alt|].
  - destruct (alt =? "") eqn:Ea.
    + apply String.eqb_eq in Ea. subst alt.
      destruct (isInLink img); repeat split; intros;
        try discriminate; try tauto;
        firstorder congruence.
    + apply String.eqb_neq in Ea.
      destruct (genericAltTest alt) eqn:Eg; repeat split; intros;
        try discriminate; try tauto;
        firstorder congruence.
  - repeat split; intros; try discriminate; try tauto; firstorder congruence.
Qed.

End WithCatalog.

End CollectorFacts.

Module CollectorMore.

Import JS DataCollector CollectorSpec JSFacts.

Section WithCatalog.

Variable toLowerCase : string -> string.
Variable trim : string -> string.
Variable jsLength : string -> Z.
Variable genericAltTest : string -> bool.
Variable altMaxLength : Z.
Variable genericLabels : list string.
Variable genericTitles : list string.

#[local] Abbreviation imageFlags :=
  (imageFlags jsLength genericAltTest altMaxLength).
#[local] Abbreviation classifyImage :=
  (classifyImage jsLength genericAltTest altMaxLength).
#[local] Abbreviation linkFlags := (linkFlags toLowerCase trim genericLabels).
#[local] Abbreviation classifyLink :=
  (classifyLink toLowerCase trim genericLabels).
#[local] Abbreviation initialPageFlags :=
  (initialPageFlags toLowerCase trim genericTitles).
#[local] Abbreviation collectHeadings :=
  (collectHeadings toLowerCase trim genericTitles).
#[local] Abbreviation collectAll :=
  (collectAll toLowerCase trim jsLength genericAltTest altMaxLength
              genericLabels genericTitles).

Ltac flag_cases :=
  repeat match goal with
         | |- context [pushIf ?b _ _] =>
             let E := fresh "E" in
             destruct b eqn:E; unfold pushIf at 1
         end.

Ltac distinct_names :=
  repeat constructor; cbn; intuition discriminate.

Ltac listed_names :=
  let x := fresh "x" in
  let H := fresh "H" in
  intros x H; cbn in H |- *; intuition auto.

(** X18. The flags of an image are pairwise distinct and drawn from the
    five image flags; an image without [alt] attribute carries
    [ALT_ABSENT] and nothing else; and the flags of an empty [alt] and the
    flags of a non-empty [alt] exclude each other: [IMG_IN_LINK_ALT_EMPTY]
    never comes with [ALT_GENERIC] or [ROLE_PRESENTATION_SUSPICIOUS]. *)
Theorem image_flags_coherent (img : RawImage) :
  let flags := imageFlags img in
  NoDup flags /\
  incl flags [ALT_ABSENT; ALT_GENERIC; ALT_TOO_LONG; IMG_IN_LINK_ALT_EMPTY;
              ROLE_PRESENTATION_SUSPICIOUS] /\
  (altAttribute img = None <-> flags = [ALT_ABSENT]) /\
  (In ALT_ABSENT flags -> flags = [ALT_ABSENT]) /\
  (In IMG_IN_LINK_ALT_EMPTY flags ->
   ~ In ALT_GENERIC flags /\ ~ In ROLE_PRESENTATION_SUSPICIOUS flags).
Proof.
  cbv zeta. unfold DataCollector.imageFlags.
  destruct (altAttribute img) as [alt|];
    [destruct (alt =? ""), (genericAltTest alt),
       (jsLength alt >? altMaxLength)%Z|];
    destruct (isInLink img), (rolePresentation img);
    cbn [negb andb pushIf app];
    (split; [distinct_names|]); (split; [listed_names|]);
    (split; [split; [discriminate || reflexivity
                    | discriminate || reflexivity]|]);
    (split; [cbn; intuition discriminate|]);
    cbn; intuition discriminate.
Qed.

(** *** Links *)

Lemma linkFlags_empty (link : RawLink) :
  In EMPTY_LABEL (linkFlags link)
  <-> blankLabel trim (rl_accessibleLabel link) = true.
Proof.
  unfold DataCollector.linkFlags.
  destruct (blankLabel trim (rl_accessibleLabel link));
    flag_cases; cbn; intuition discriminate.
Qed.

(** X19. The collector and the duplicate-label detection agree on what a
    blank label is. The flags of a link are pairwise distinct; a link is
    flagged [EMPTY_LABEL] exactly when it has no label, an empty one or a
    blank one; such a link adds nothing to the label map of the
    detection, while for any other link the map knows its destination
    (when it has one) under its normalized label. *)
Theorem empty_label_not_recorded
    (link : RawLink) (m : omap (list string)) :
  let data := classifyLink link in
  NoDup (link_flags data) /\
  incl (link_flags data)
       [EMPTY_LABEL; GENERIC_LABEL; NEW_WINDOW_NO_WARNING] /\
  (In EMPTY_LABEL (link_flags data) <->
   rl_accessibleLabel link = None \/
   exists label, rl_accessibleLabel link = Some label /\
                 (label = "" \/ trim label = "")) /\
  (In EMPTY_LABEL (link_flags data) ->
   Mapper.recordLink toLowerCase trim m (linkEvidence data) = m) /\
  (~ In EMPTY_LABEL (link_flags data) ->
   exists label,
     rl_accessibleLabel link = Some label /\
     forall h, rl_href link = Some h -> truthy h = true ->
               MapperSpec.knows
                 (Mapper.recordLink toLowerCase trim m (linkEvidence data))
                 (Mapper.normalizeLabel toLowerCase trim label) h).
Proof.
  cbv zeta. unfold DataCollector.classifyLink, linkEvidence.
  cbn [link_flags link_raw].
  split; [|split; [|split; [|split]]].
  - unfold DataCollector.linkFlags. flag_cases; distinct_names.
  - unfold DataCollector.linkFlags. flag_cases; listed_names.
  - rewrite linkFlags_empty. unfold blankLabel, truthy.
    destruct (rl_accessibleLabel link) as [label|].
    + split.
      * intros H. right. exists label. split; [reflexivity|].
        apply orb_prop in H. destruct H as [H|H].
        -- left. apply negb_true_iff in H. apply negb_false_iff in H.
           now apply String.eqb_eq.
        -- right. now apply String.eqb_eq.
      * intros [H|(l & [= <-] & [->|H])]; [discriminate|reflexivity|].
        rewrite H. cbn. apply orb_true_r.
    + split; [now left | reflexivity].
  - rewrite linkFlags_empty. intros Hb.
    unfold Mapper.recordLink. cbn [Mapper.accessibleLabel].
    unfold blankLabel in Hb.
    destruct (rl_accessibleLabel link) as [label|]; [|reflexivity].
    now rewrite Hb.
  - rewrite linkFlags_empty. intros Hb.
    apply not_true_is_false in Hb. unfold blankLabel in Hb.
    destruct (rl_accessibleLabel link) as [label|] eqn:El; [|discriminate].
    apply orb_false_elim in Hb. destruct Hb as [Ht Hb].
    apply negb_false_iff in Ht. apply String.eqb_neq in Hb.
    exists label. split; [reflexivity|]. intros h Hh Hth.
    apply DuplicateFacts.recordLink_adds; cbn; first [assumption | reflexivity].
Qed.

(** *** Headings *)

Lemma addSkip_idem pf : addSkip (addSkip pf) = addSkip pf.
Proof.
  unfold addSkip. destruct (includes pf LEVEL_SKIP) eqn:E.
  - now rewrite E.
  - assert (H : includes (pf ++ [LEVEL_SKIP]) LEVEL_SKIP = true).
    { apply includes_In, in_or_app. right. now left. }
    now rewrite H.
Qed.

Lemma flagHeadings_spec hs : forall prev pf,
  flagHeadings prev hs pf
  = (flagged prev hs, if anySkip prev hs then addSkip pf else pf).
Proof.
  induction hs as [|h hs IH]; intros prev pf; cbn [flagHeadings flagged anySkip];
    [reflexivity|].
  unfold flagHeading, skipFlagsOf, skipsAfter.
  destruct prev as [a|].
  - destruct (rh_level h >? rh_level a + 1)%Z; rewrite IH; cbn [orb].
    + fold (addSkip pf). destruct (anySkip (Some h) hs);
        [now rewrite addSkip_idem | reflexivity].
    + reflexivity.
  - rewrite IH. reflexivity.
Qed.

Lemma initialPageFlags_noSkip raw :
  includes (initialPageFlags raw) LEVEL_SKIP = false.
Proof.
  unfold DataCollector.initialPageFlags.
  repeat match goal with
         | |- context [if ?b then _ else _] => destruct b
         end; reflexivity.
Qed.

Lemma collectHeadings_spec raw :
  collectHeadings raw
  = {| Mapper.documentTitle := raw_documentTitle raw;
       Mapper.tree_headings := flagged None (raw_headings raw);
       Mapper.tree_flags :=
         initialPageFlags raw
         ++ (if anySkip None (raw_headings raw) then [LEVEL_SKIP] else []) |}.
Proof.
  unfold DataCollector.collectHeadings. rewrite flagHeadings_spec.
  unfold addSkip. rewrite initialPageFlags_noSkip.
  destruct (anySkip None (raw_headings raw)); [reflexivity|].
  now rewrite app_nil_r.
Qed.

Lemma anySkip_flagged hs : forall prev,
  anySkip prev hs = existsb isSkipped (flagged prev hs).
Proof.
  induction hs as [|h hs IH]; intros prev; cbn [anySkip flagged existsb];
    [reflexivity|].
  rewrite IH. f_equal. unfold isSkipped, skipFlagsOf. cbn.
  destruct prev as [a|]; [|reflexivity]. now destruct (skipsAfter a h).
Qed.

Lemma h1Count_none hs :
  h1Count hs = 0%nat <-> forall h, In h hs -> rh_level h <> 1%Z.
Proof.
  unfold h1Count. induction hs as [|h hs IH]; cbn.
  - split; [intros _ h [] | reflexivity].
  - destruct (rh_level h =? 1)%Z eqn:E; cbn.
    + split; [discriminate|]. intros H. exfalso.
      apply (H h); [now left | now apply Z.eqb_eq].
    + rewrite IH. apply Z.eqb_neq in E. split.
      * intros H x [<-|Hx]; [assumption | now apply H].
      * intros H x Hx. apply H. now right.
Qed.

(** X20. The page-level flags of the headings are pairwise distinct.
    [NO_H1] is set exactly when no heading has level 1 and [MULTIPLE_H1]
    exactly when at least two have, never both; [TITLE_ABSENT] exactly
    when the document title is empty and [TITLE_GENERIC] exactly when it
    is not empty and generic; and [LEVEL_SKIP] is set, once however many
    skips there are, exactly when some heading of the tree carries a skip
    flag. *)
Theorem page_flags_coherent (raw : RawHeadings) :
  let tree := collectHeadings raw in
  NoDup (Mapper.tree_flags tree) /\
  incl (Mapper.tree_flags tree)
       [NO_H1; MULTIPLE_H1; TITLE_ABSENT; TITLE_GENERIC; LEVEL_SKIP] /\
  (In NO_H1 (Mapper.tree_flags tree) <->
   forall h, In h (raw_headings raw) -> rh_level h <> 1%Z) /\
  (In MULTIPLE_H1 (Mapper.tree_flags tree) <->
   (2 <= h1Count (raw_headings raw))%nat) /\
  (In TITLE_ABSENT (Mapper.tree_flags tree) <-> raw_documentTitle raw = "") /\
  (In TITLE_GENERIC (Mapper.tree_flags tree) <->
   raw_documentTitle raw <> "" /\
   In (trim (toLowerCase (raw_documentTitle raw))) genericTitles) /\
  (In LEVEL_SKIP (Mapper.tree_flags tree) <->
   exists heading, In heading (Mapper.tree_headings tree) /\
                   Mapper.h_flags heading <> []).
Proof.
  cbv zeta. rewrite collectHeadings_spec.
  cbn [Mapper.tree_flags Mapper.tree_headings].
  rewrite <- h1Count_none.
  assert (Hskip : anySkip None (raw_headings raw) = true <->
                  exists heading,
                    In heading (flagged None (raw_headings raw)) /\
                    Mapper.h_flags heading <> []).
  { rewrite anySkip_flagged, existsb_exists. unfold isSkipped.
    split; intros (hd & Hin & H); exists hd; (split; [assumption|]);
      destruct (Mapper.h_flags hd); congruence. }
  rewrite <- Hskip. clear Hskip.
  assert (Hgen : includes genericTitles
                          (trim (toLowerCase (raw_documentTitle raw))) = true
                 <-> In (trim (toLowerCase (raw_documentTitle raw)))
                        genericTitles)
    by apply includes_In.
  rewrite <- Hgen. clear Hgen.
  assert (Htitle : truthy (raw_documentTitle raw) = false
                   <-> raw_documentTitle raw = "").
  { unfold truthy. rewrite negb_false_iff. apply String.eqb_eq. }
  unfold DataCollector.initialPageFlags.
  destruct (h1Count (raw_headings raw)) as [|[|n]] eqn:Eh;
    cbn [Nat.eqb Nat.ltb Nat.leb];
    destruct (truthy (raw_documentTitle raw)) eqn:Et; cbn [negb];
    destruct (includes genericTitles _) eqn:Eg;
    destruct (anySkip None (raw_headings raw)) eqn:Es;
    cbn [app];
    (split; [distinct_names|]); (split; [listed_names|]);
    repeat split; intros; cbn in *;
    try discriminate; try lia; try tauto;
    try (apply Htitle; reflexivity);
    try (intuition discriminate);
    try (intros E; apply Htitle in E; discriminate);
    try (exfalso;
         match goal with
         | H : raw_documentTitle raw = "" |- _ =>
             apply Htitle in H; discriminate
         | H : raw_documentTitle raw <> "" /\ _ |- _ =>
             destruct H as [H _]; apply H, Htitle; reflexivity
         end).
Qed.

End WithCatalog.

End CollectorMore.

Module HeadingFacts.

Import JS DataCollector CollectorSpec HeadingSpec JSFacts CollectorMore.

Lemma flagged_nth hs : forall prev i,
  nth_error (flagged prev hs) i
  = option_map (fun h =>
                  plainHeading h
                    (skipFlagsOf (match i with
                                  | O => prev
                                  | S j => nth_error hs j
                                  end) h))
               (nth_error hs i).
Proof.
  induction hs as [|h hs IH]; intros prev [|i]; cbn [flagged nth_error];
    try reflexivity.
  rewrite IH. destruct i; reflexivity.
Qed.

Lemma flagged_length hs : forall prev,
  List.length (flagged prev hs) = List.length hs.
Proof.
  induction hs as [|h hs IH]; intros prev; cbn; [reflexivity|].
  now rewrite IH.
Qed.

Section WithCatalog.

Variable toLowerCase : string -> string.
Variable trim : string -> string.
Variable jsLength : string -> Z.
Variable genericAltTest : string -> bool.
Variable altMaxLength : Z.
Variable genericLabels : list string.
Variable genericTitles : list string.

#[local] Abbreviation collectHeadings :=
  (collectHeadings toLowerCase trim genericTitles).
#[local] Abbreviation collectAll :=
  (collectAll toLowerCase trim jsLength genericAltTest altMaxLength
              genericLabels genericTitles).

(** X21. The heading tree keeps the headings of the document, in order,
    with their level, text and selector. The first heading carries no
    flag; any other carries the flag [{LEVEL_SKIP, skipFrom, skipTo}]
    exactly when its level exceeds the level of the heading before it by
    more than one, with [skipFrom] the level before and [skipTo] its own,
    and no flag otherwise. *)
Theorem heading_skip_flags (raw : RawHeadings) :
  let tree := collectHeadings raw in
  Mapper.documentTitle tree = raw_documentTitle raw /\
  List.length (Mapper.tree_headings tree) = List.length (raw_headings raw) /\
  forall i h,
    nth_error (raw_headings raw) i = Some h ->
    exists heading,
      nth_error (Mapper.tree_headings tree) i = Some heading /\
      Mapper.h_level heading = rh_level h /\
      Mapper.h_text heading = rh_text h /\
      Mapper.h_selector heading = rh_selector h /\
      Mapper.h_flags heading
      = match previousOf (raw_headings raw) i with
        | Some before =>
            if (rh_level before + 1 <? rh_level h)%Z
            then [Mapper.FlagSkip LEVEL_SKIP (rh_level before) (rh_level h)]
            else []
        | None => []
        end.
Proof.
  cbv zeta. rewrite collectHeadings_spec.
  cbn [Mapper.documentTitle Mapper.tree_headings].
  split; [reflexivity|]. split; [apply flagged_length|].
  intros i h Hi. rewrite flagged_nth, Hi. cbn [option_map].
  eexists. split; [reflexivity|]. cbn.
  repeat split. unfold previousOf, skipFlagsOf, skipsAfter.
  destruct i; [reflexivity|].
  destruct (nth_error (raw_headings raw) i) as [a|]; [|reflexivity].
  now rewrite Z.gtb_ltb.
Qed.

(** *** The evidence [extractElements] draws from a collected page *)

Lemma extractFlagged_without relevant sel fl flag :
  ~ In flag fl ->
  filter (carries flag) (Mapper.extractFlagged relevant sel fl) = [].
Proof.
  intros H. unfold Mapper.extractFlagged.
  destruct (filter (includes relevant) fl) as [|f fs] eqn:E; [reflexivity|].
  assert (I : includes (f :: fs) flag = false).
  { apply includes_false. intros Hin. rewrite <- E in Hin.
    apply filter_In in Hin. now destruct Hin. }
  cbn [filter]. unfold carries. cbn [Mapper.flags]. now rewrite I.
Qed.

Lemma flat_map_without {A} (f : A -> list Mapper.Element) flag l :
  (forall a, In a l -> filter (carries flag) (f a) = []) ->
  filter (carries flag) (flat_map f l) = [].
Proof.
  induction l as [|a l IH]; cbn; intros H; [reflexivity|].
  rewrite filter_app, H, IH; auto.
Qed.

Lemma extractHeading_flagged relevant prev hs :
  includes relevant LEVEL_SKIP = true ->
  flat_map (Mapper.extractHeading relevant) (flagged prev hs)
  = map skipElement (filter isSkipped (flagged prev hs)).
Proof.
  intros Hr. revert prev.
  induction hs as [|h hs IH]; intros prev; cbn [flagged flat_map];
    [reflexivity|].
  rewrite IH. unfold Mapper.extractHeading, isSkipped, skipFlagsOf.
  cbn [filter Mapper.h_flags plainHeading].
  destruct prev as [a|]; [|reflexivity].
  destruct (skipsAfter a h); [|reflexivity].
  cbn. rewrite Hr. reflexivity.
Qed.

Lemma skipElements_carry l :
  filter (carries LEVEL_SKIP) (map skipElement l) = map skipElement l.
Proof. induction l as [|a l IH]; cbn; [reflexivity|]. now rewrite IH. Qed.

Lemma extractPageFlag_other relevant elems flag :
  flag <> LEVEL_SKIP ->
  filter (carries LEVEL_SKIP) (Mapper.extractPageFlag relevant elems flag)
  = filter (carries LEVEL_SKIP) elems.
Proof.
  intros Hne. unfold Mapper.extractPageFlag.
  destruct (includes relevant flag); [|reflexivity].
  destruct (existsb _ elems); [reflexivity|].
  rewrite filter_app. cbn [filter]. unfold carries at 2.
  cbn [Mapper.flags includes existsb].
  destruct (LEVEL_SKIP =? flag) eqn:E.
  - apply String.eqb_eq in E. congruence.
  - cbn [orb]. apply app_nil_r.
Qed.

Lemma extractPageFlags_other relevant fl : forall elems,
  ~ In LEVEL_SKIP fl ->
  filter (carries LEVEL_SKIP)
         (fold_left (Mapper.extractPageFlag relevant) fl elems)
  = filter (carries LEVEL_SKIP) elems.
Proof.
  induction fl as [|f fl IH]; cbn [fold_left]; intros elems H;
    [reflexivity|].
  rewrite IH.
  - apply extractPageFlag_other. intros ->. apply H. now left.
  - intros Hin. apply H. now right.
Qed.

Lemma imageFlags_noSkip img :
  ~ In LEVEL_SKIP (imageFlags jsLength genericAltTest altMaxLength img).
Proof.
  unfold imageFlags, pushIf.
  repeat match goal with
         | |- context [if ?b then _ else _] => destruct b
         end; cbn; intuition discriminate.
Qed.

Lemma linkFlags_noSkip link :
  ~ In LEVEL_SKIP (linkFlags toLowerCase trim genericLabels link).
Proof.
  unfold linkFlags, pushIf.
  repeat match goal with
         | |- context [if ?b then _ else _] => destruct b
         end; cbn; intuition discriminate.
Qed.

(** X22. From a page gathered by the collector, a criterion that tracks
    [LEVEL_SKIP] gets exactly one evidence element carrying that flag per
    heading that skips a level, in document order, under the selector of
    the heading and with that flag only; the page-level [LEVEL_SKIP] flag
    never adds a ["document"] element, since a heading already carries
    it. *)
Theorem level_skip_evidence
    (criterion : Mapper.RgaaCriterion) (page : RawPage) :
  In LEVEL_SKIP (Mapper.dataCollectorFlags criterion) ->
  let collected := evidence (collectAll page) in
  filter (carries LEVEL_SKIP)
         (Mapper.extractElements criterion (Some collected))
  = map skipElement
        (filter isSkipped (Mapper.tree_headings (Mapper.headings collected))).
Proof.
  intros Hin. cbv zeta.
  apply includes_In in Hin.
  unfold Mapper.extractElements, evidence, DataCollector.collectAll.
  cbn [Mapper.images Mapper.links Mapper.headings cd_images cd_links
       cd_headings].
  rewrite collectHeadings_spec.
  cbn [Mapper.tree_headings Mapper.tree_flags].
  set (hs := raw_headings (rawData page)).
  set (relevant := Mapper.dataCollectorFlags criterion) in *.
  rewrite (extractHeading_flagged relevant None hs Hin).
  rewrite fold_left_app.
  set (init := _ ++ _ ++ map skipElement _).
  assert (Hinit : filter (carries LEVEL_SKIP) init
                  = map skipElement (filter isSkipped (flagged None hs))).
  { unfold init. rewrite !filter_app, skipElements_carry.
    rewrite !flat_map_without; [reflexivity| |].
    - intros link Hl. apply in_map_iff in Hl.
      destruct Hl as (l & <- & Hl). unfold collectLinks in Hl.
      apply in_map_iff in Hl. destruct Hl as (r & <- & _).
      apply extractFlagged_without. cbn. apply linkFlags_noSkip.
    - intros img Hi. apply in_map_iff in Hi.
      destruct Hi as (i & <- & Hi). unfold collectImages in Hi.
      apply in_map_iff in Hi. destruct Hi as (r & <- & _).
      apply extractFlagged_without. cbn. apply imageFlags_noSkip. }
  set (base := fold_left _ (initialPageFlags _ _ _ _) init).
  assert (Hbase : filter (carries LEVEL_SKIP) base
                  = map skipElement (filter isSkipped (flagged None hs))).
  { unfold base. rewrite extractPageFlags_other; [exact Hinit|].
    intros H. apply includes_In in H.
    now rewrite initialPageFlags_noSkip in H. }
  destruct (anySkip None hs) eqn:Es; cbn [fold_left]; [|exact Hbase].
  unfold Mapper.extractPageFlag. rewrite Hin.
  assert (Hex : existsb (fun e => includes (Mapper.flags e) LEVEL_SKIP) base
                = true).
  { rewrite anySkip_flagged in Es. apply existsb_exists in Es.
    destruct Es as (hd & Hhd & Hs).
    assert (Hc : In (skipElement hd) (filter (carries LEVEL_SKIP) base)).
    { rewrite Hbase. apply in_map. apply filter_In. now split. }
    apply filter_In in Hc. apply existsb_exists.
    exists (skipElement hd). split; [apply Hc | reflexivity]. }
  rewrite Hex. exact Hbase.
Qed.

End WithCatalog.

End HeadingFacts.

(* ------------------------------------------------------------------ *)
(** ** The report route over the session of a run *)
(* ------------------------------------------------------------------ *)

Module ReportFacts.

Import JS Mapper Analyzer AnalyzerSpec JSFacts PoolFacts StreamFacts
  SessionSpec SessionFacts SoloFacts ReportRoutes ReportSpec PageFacts.

#[local] Unset Implicit Arguments.

Lemma mapPageResults_url mapping axe collected u page :
  mapPageResults mapping axe collected u = Returns page -> url page = u.
Proof.
  unfold mapPageResults.
  destruct (mapM _ (mapping_criteria mapping)); cbn; [|discriminate].
  now intros [= <-].
Qed.

Lemma mappedPages_urls mapping session pages :
  mappedPages mapping session = Returns pages ->
  map url pages = map pr_url (reported session).
Proof.
  unfold mappedPages. intros H. apply mapM_returns in H.
  induction H as [|r page rs pages Hr _ IH]; cbn; [reflexivity|].
  apply mapPageResults_url in Hr. now rewrite Hr, IH.
Qed.

Lemma allCollected_urls session :
  map entry_url (allCollected session) = map pr_url (reported session).
Proof. unfold allCollected. rewrite map_map. reflexivity. Qed.

Lemma completeUrls_app evs1 evs2 :
  completeUrls (evs1 ++ evs2) = completeUrls evs1 ++ completeUrls evs2.
Proof. apply flat_map_app. Qed.

Lemma completeUrls_terminal evs :
  completeUrls (filter isTerminal evs) = completeUrls evs.
Proof.
  unfold completeUrls. induction evs as [|ev evs IH]; cbn; [reflexivity|].
  destruct ev; cbn; congruence.
Qed.

Lemma completeUrls_results (rs : omap PageResult) :
  Forall (fun kv => pr_url (snd kv) = fst kv) rs ->
  completeUrls (map eventOf rs)
  = map pr_url (filter succeeded (values rs)).
Proof.
  unfold completeUrls, values, eventOf, succeeded, terminalEvent.
  induction 1 as [|[u r] rs Hu _ IH]; cbn [map filter flat_map fst snd];
    [reflexivity|].
  cbn in Hu. rewrite IH. destruct (hasError r); cbn; congruence.
Qed.

Lemma completeUrls_perm evs1 evs2 :
  Permutation evs1 evs2 ->
  Permutation (completeUrls evs1) (completeUrls evs2).
Proof. apply Permutation_flat_map. Qed.

Lemma reported_follow_stream urls options now ls p :
  NoDup urls ->
  run ls (auditPages urls options now) = Some p ->
  Permutation (map pr_url (reported (state p)))
              (completeUrls (storedEvents (pushed p))) /\
  (Forall plainUrl urls ->
   map pr_url (reported (state p))
   = completeUrls (storedEvents (pushed p))).
Proof.
  intros Hnd Hrun.
  destruct (tracked urls options now ls p Hrun)
    as [_ (_ & _ & _ & _ & _ & K7 & _)].
  destruct (ordered urls options now ls p Hnd Hrun) as [O O'].
  unfold orderInv, inOrderInv in *. unfold reported.
  rewrite <- (completeUrls_results _ K7). split.
  - now apply completeUrls_perm.
  - intros Hplain. now rewrite (O' Hplain).
Qed.

(** X23. The pages of the report are the pages that completed. With a
    single worker (requested concurrency 1), pairwise distinct urls and a
    returned run, the session file holds the session as it is at the end,
    and the evidence entries the report route draws from it are one per
    [page_complete] event of the stream, but for a url [__proto__], which
    names no property of the session's results; they come in the order of
    completion when no url is an array index. The mapped pages, when
    their mapping returns, are aligned with the evidence entries. A page
    that ended in [page_error] has no entry. *)
Theorem report_covers_completed_pages
    (mapping : RgaaMapping)
    (urls : list string) (options : AuditPagesOptions) (now : string)
    (ls : list Label) (p : Pool) :
  NoDup urls ->
  urls <> [] ->
  exactly 1 options ->
  run ls (auditPages urls options now) = Some p ->
  returned p = true ->
  exists session,
    durable p = Some session /\
    Permutation (map entry_url (allCollected session))
                (completeUrls (storedEvents (yielded p))) /\
    (Forall plainUrl urls ->
     map entry_url (allCollected session)
     = completeUrls (storedEvents (yielded p))) /\
    (forall pages,
        mappedPages mapping session = Returns pages ->
        map url pages = map entry_url (allCollected session)).
Proof.
  intros Hnd Hne Hreq Hrun Hr.
  exists (state p).
  split.
  { apply (solo_file urls options now ls p); try assumption.
    now apply (requested_one_worker urls options now ls p). }
  destruct (reported_follow_stream urls options now ls p Hnd Hrun)
    as [Hperm Horder].
  assert (Hy : pushed p = yielded p).
  { destruct (tracked urls options now ls p Hrun) as [I _].
    destruct I as (_ & _ & _ & _ & _ & I6). destruct (I6 Hr) as [_ Hb].
    unfold pushed. now rewrite Hb, app_nil_r. }
  rewrite Hy in *. rewrite allCollected_urls.
  split; [assumption|]. split; [assumption|].
  intros pages Hp. exact (mappedPages_urls mapping (state p) pages Hp).
Qed.

End ReportFacts.

(* ------------------------------------------------------------------ *)
(** ** Further worked examples *)
(* ------------------------------------------------------------------ *)

Module FurtherExamples.

Import JS Mapper MapperSpec Analyzer AnalyzerSpec Examples PoolExamples
  PoolRuns LabelExamples FailureExamples.

(** The example page follows the example catalog. *)
Lemma page_mapping_follows_catalog_witness :
  mapPageResults exampleMapping (Some noFinding) (Some collected1) url1
  = Returns page1 /\
  url page1 = url1 /\
  map rgaaId (criteria page1) = ["1.1"; "6.1"; "8.6"; "9.1"].
Proof.
  assert (H : mapPageResults exampleMapping (Some noFinding)
                (Some collected1) url1 = Returns page1)
    by (vm_compute; reflexivity).
  split; [exact H|].
  destruct (@PageFacts.page_mapping_follows_catalog
              exampleMapping (Some noFinding) (Some collected1) url1 page1 H)
    as (Hu & _ & Hids & _).
  split; [exact Hu | exact Hids].
Defined.

(** A violation of [image-alt] reported by the rule engine. *)
Lemma criterion_findings_coherent_witness :
  exists mc,
    mapCriterion criterion11
      (Some (EngineResult [imageAltViolation] [] [])) None = Returns mc /\
    (status mc = violation <-> violations mc <> []).
Proof.
  eexists. split; [vm_compute; reflexivity|].
  eapply proj1.
  eapply (@PageFacts.criterion_findings_coherent criterion11
            (Some (EngineResult [imageAltViolation] [] [])) None).
  vm_compute. reflexivity.
Defined.

Lemma sameDestination_unambiguous :
  DetectSpec.labelsUnambiguous AsciiText.toLowerCase AsciiText.trim
    sameDestination.
Proof.
  assert (H : forall link lab h,
             DetectSpec.recorded AsciiText.trim sameDestination link lab h ->
             h = "/article-1").
  { intros link lab h ((entry & cd & Hin & Hcd & Hl) & _ & _ & _ & Hh & _).
    destruct Hin as [<-|[<-|[]]]; cbn in Hcd; injection Hcd as <-;
      destruct Hl as [<-|[]]; cbn in Hh; now injection Hh as <-. }
  intros l1 l2 lab1 lab2 h1 h2 R1 R2 _.
  rewrite (H _ _ _ R1), (H _ _ _ R2). reflexivity.
Defined.

Lemma unambiguous_labels_no_change_witness :
  DetectSpec.labelsUnambiguous AsciiText.toLowerCase AsciiText.trim
    sameDestination /\
  snd (aggregateResults AsciiText.toLowerCase AsciiText.trim exampleMapping
         [page1; page2] (Some sameDestination))
  = [page1; page2].
Proof.
  split; [exact sameDestination_unambiguous|].
  exact (@DetectFacts.unambiguous_labels_no_change
           AsciiText.toLowerCase AsciiText.trim exampleMapping
           [page1; page2] sameDestination sameDestination_unambiguous).
Defined.

Lemma terminal_event_follows_start_witness :
  run threeLabels (auditPages threeUrls (optionsFor 4) "t0") = Some threeEnd /\
  StreamSpec.startedFirst (yielded threeEnd).
Proof.
  split; [exact three_run|].
  exact (proj2 (@StreamFacts.terminal_event_follows_start
                  threeUrls (optionsFor 4) "t0" threeLabels threeEnd
                  three_run)).
Defined.

Lemma pages_in_flight_bounded_witness :
  run threeLabels (auditPages threeUrls (optionsFor 4) "t0") = Some threeEnd /\
  List.length (workers threeEnd) = contexts (optionsFor 4) /\
  StreamSpec.inFlightAtMost 3 (yielded threeEnd).
Proof.
  split; [exact three_run|].
  destruct (@StreamFacts.pages_in_flight_bounded
              threeUrls (optionsFor 4) "t0" threeLabels threeEnd three_run)
    as (Hlen & _ & _ & _ & Hy).
  split; [exact Hlen | exact Hy].
Defined.

Lemma failing_run :
  run failingLabels (auditPages threeUrls (optionsFor 4) "t0")
  = Some failedPool.
Proof. vm_compute. reflexivity. Defined.

Lemma later_run : run laterLabels failedPool = Some laterPool.
Proof. vm_compute. reflexivity. Defined.

Lemma failedPool_failed : noFailure failedPool = false.
Proof. vm_compute. reflexivity. Defined.

Lemma worker_failure_is_final_witness :
  run failingLabels (auditPages threeUrls (optionsFor 4) "t0")
  = Some failedPool /\
  noFailure failedPool = false /\
  run laterLabels failedPool = Some laterPool /\
  allDone laterPool = false /\
  returned laterPool = false.
Proof.
  split; [exact failing_run|]. split; [exact failedPool_failed|].
  split; [exact later_run|].
  destruct (@FailureFacts.worker_failure_is_final
              threeUrls (optionsFor 4) "t0" failingLabels laterLabels
              failedPool laterPool failing_run failedPool_failed later_run)
    as (_ & Ha & _ & Hr).
  split; [exact Ha | exact Hr].
Defined.

Lemma events_handed_in_push_order_witness :
  run threeLabels (auditPages threeUrls (optionsFor 4) "t0") = Some threeEnd /\
  FailureSpec.yieldedOf (trace threeEnd) = yielded threeEnd /\
  pushedOf (trace threeEnd) = yielded threeEnd ++ eventBuffer threeEnd.
Proof.
  split; [exact three_run|].
  destruct (@FailureFacts.events_handed_in_push_order
              threeUrls (optionsFor 4) "t0" threeLabels threeEnd three_run)
    as (Hy & Hp & _).
  split; [exact Hy | exact Hp].
Defined.

Lemma session_follows_stream_witness :
  atLeast 1 (optionsFor 4) /\
  run threeLabels (auditPages threeUrls (optionsFor 4) "t0") = Some threeEnd /\
  completedPages (state threeEnd) = terminalUrls (pushed threeEnd) /\
  totalPages (state threeEnd) = List.length threeUrls.
Proof.
  split; [exact requested_four|]. split; [exact three_run|].
  destruct (@SessionFacts.session_follows_stream
              threeUrls (optionsFor 4) "t0" threeLabels threeEnd
              requested_four three_run)
    as ((Hc & Ht & _) & _).
  split; [exact Hc | exact Ht].
Defined.

Lemma summary_totals_witness :
  atLeast 1 (optionsFor 4) /\
  run threeLabels (auditPages threeUrls (optionsFor 4) "t0") = Some threeEnd /\
  returned threeEnd = true /\
  exists body summary,
    yielded threeEnd = body ++ [audit_complete summary] /\
    sum_totalPages summary = 3%nat /\
    sum_completedPages summary = 3%nat.
Proof.
  split; [exact requested_four|]. split; [exact three_run|].
  split; [exact three_returned|].
  destruct (@SessionFacts.summary_totals
              threeUrls (optionsFor 4) "t0" threeLabels threeEnd
              requested_four three_run three_returned)
    as (body & summary & Hy & Ht & Hc & _).
  exists body, summary. split; [exact Hy|]. split; [exact Ht | exact Hc].
Defined.

Lemma summary_failures_witness :
  NoDup threeUrls /\
  atLeast 1 (optionsFor 4) /\
  run threeLabels (auditPages threeUrls (optionsFor 4) "t0") = Some threeEnd /\
  returned threeEnd = true /\
  exists body summary,
    yielded threeEnd = body ++ [audit_complete summary] /\
    failedPages summary = SessionSpec.pageErrors (yielded threeEnd).
Proof.
  split; [exact threeUrls_distinct|].
  split; [exact requested_four|]. split; [exact three_run|].
  split; [exact three_returned|].
  destruct (@SessionFacts.summary_failures
              threeUrls (optionsFor 4) "t0" threeLabels threeEnd
              threeUrls_distinct requested_four three_run three_returned)
    as (body & summary & Hy & Hf & _).
  exists body, summary. split; [exact Hy | exact Hf].
Defined.

Lemma one_requested : exactly 1 (optionsFor 1).
Proof. reflexivity. Defined.

Lemma one_url : ["/a"] <> @nil string.
Proof. discriminate. Defined.

Lemma single_worker_file_is_final_witness :
  exactly 1 (optionsFor 1) /\
  ["/a"] <> @nil string /\
  run oneLabels (auditPages ["/a"] (optionsFor 1) "t0") = Some oneEnd /\
  returned oneEnd = true /\
  durable oneEnd = Some (state oneEnd).
Proof.
  split; [exact one_requested|]. split; [exact one_url|].
  split; [exact one_run|]. split; [exact one_returned|].
  exact (@SoloFacts.single_worker_file_is_final
           ["/a"] (optionsFor 1) "t0" oneLabels oneEnd
           one_requested one_url one_run one_returned).
Defined.

Lemma criterion91_tracks_skips :
  In DataCollector.LEVEL_SKIP (dataCollectorFlags criterion91).
Proof. right. left. reflexivity. Defined.

Lemma level_skip_evidence_witness :
  In DataCollector.LEVEL_SKIP (dataCollectorFlags criterion91) /\
  filter (CollectorSpec.carries DataCollector.LEVEL_SKIP)
         (extractElements criterion91
            (Some (DataCollector.evidence
                     (CollectorExamples.collect
                        CollectorExamples.skippingPage))))
  = [{| selector := "h3#contact"; flags := ["LEVEL_SKIP"] |};
     {| selector := "h4#note"; flags := ["LEVEL_SKIP"] |}].
Proof.
  split; [exact criterion91_tracks_skips|].
  unfold CollectorExamples.collect.
  rewrite (@HeadingFacts.level_skip_evidence
             AsciiText.toLowerCase AsciiText.trim
             CollectorExamples.jsLength CollectorExamples.genericAltTest
             CollectorExamples.altMaxLength CollectorExamples.genericLabels
             CollectorExamples.genericTitles
             criterion91 CollectorExamples.skippingPage
             criterion91_tracks_skips).
  vm_compute. reflexivity.
Defined.

Lemma indexUrls_distinct : NoDup indexUrls.
Proof.
  unfold indexUrls.
  repeat (constructor; [cbn; intuition discriminate|]). constructor.
Defined.

Lemma indexUrls_some : indexUrls <> [].
Proof. discriminate. Defined.

Lemma index_run :
  run indexLabels (auditPages indexUrls (optionsFor 1) "t0") = Some indexEnd.
Proof. vm_compute. reflexivity. Defined.

Lemma index_returned : returned indexEnd = true.
Proof. vm_compute. reflexivity. Defined.

(** Three pages completed in the order [/b], [7], [3] by one worker: the
    report has an entry for each. *)
Lemma report_covers_completed_pages_witness :
  NoDup indexUrls /\
  indexUrls <> [] /\
  exactly 1 (optionsFor 1) /\
  run indexLabels (auditPages indexUrls (optionsFor 1) "t0") = Some indexEnd /\
  returned indexEnd = true /\
  exists session,
    durable indexEnd = Some session /\
    Permutation (map entry_url (ReportRoutes.allCollected session))
                ["/b"; "7"; "3"].
Proof.
  split; [exact indexUrls_distinct|]. split; [exact indexUrls_some|].
  split; [exact one_requested|]. split; [exact index_run|].
  split; [exact index_returned|].
  destruct (@ReportFacts.report_covers_completed_pages
              exampleMapping indexUrls (optionsFor 1) "t0" indexLabels
              indexEnd indexUrls_distinct indexUrls_some one_requested
              index_run index_returned)
    as (session & Hfile & Hperm & _).
  exists session. split; [exact Hfile | exact Hperm].
Defined.

(** The entries follow the order of the session file: array indices
    first. *)
Example report_entries_indices :
  map entry_url (ReportRoutes.allCollected (state indexEnd))
  = ["3"; "7"; "/b"].
Proof. reflexivity. Qed.

End FurtherExamples.
